(** * BusTub buffer pool: LRU replacer and buffer pool manager instance

    A shallow embedding of [src/buffer/lru_replacer.cpp] and
    [src/buffer/buffer_pool_manager_instance.cpp], followed by the theorems
    that settle the specification's claims about them.

    Conventions of the embedding.
    - The member functions run under [latch_] / [mutex_]; the model is the
      sequential behaviour of one call running to completion, so the locks
      do not appear.  [NewPgImp] and [FetchPgImp] call [FlushPgImp] while
      they hold [latch_]; the type of [latch_] is declared in a header that
      is not among the sources, and the inner call is taken to run.
    - A [Page*] into [pages_] is modelled by the frame index it points to.
    - A call either returns ([Ok]) or stops the process ([Fault]): a failed
      [assert], the use of a frame id [Victim] never wrote, or an access
      outside [pages_]. *)

From stdpp Require Import gmap list fin_maps.
From Stdlib Require Import ZArith Lia.

Local Open Scope Z_scope.

(** ** Types declared in headers that are not part of the sources *)

(** Modelled from the spec: [page_id_t] (common/config.h) is "a non-negative
    integer" with one reserved sentinel; it is taken as an unbounded [Z],
    so that the allocator cursor never wraps. *)
Abbreviation page_id_t := Z.

(** Modelled from the spec: [frame_id_t] (common/config.h) is "an index into
    the instance's frame array". *)
Abbreviation frame_id_t := nat.

(** Modelled from the spec: [INVALID_PAGE_ID] (common/config.h) is "a fixed
    reserved value (commonly -1 or all-ones)". *)
Definition INVALID_PAGE_ID : page_id_t := -1.

(** Modelled from the spec: [PAGE_SIZE] (common/config.h), "page size,
    typically 4096". *)
Definition PAGE_SIZE : nat := 4096.

(** The bytes of one page. *)
Abbreviation page_data := (list Z).

(** *** Outcomes *)

Inductive fault : Type :=
| AssertionFailure      (* a failed [assert] / BUSTUB_ASSERT *)
| UninitFrameId         (* [frame_id] read although [Victim] returned false *)
| FrameOutOfRange.      (* [pages_ + frame_id] dereferenced outside the array *)

Inductive result (A : Type) : Type :=
| Ok (a : A)
| Fault (e : fault).
Arguments Ok {A} a.
Arguments Fault {A} e.

(** Sequencing: a fault ends the call.  With these instances the
    operations are written with the notation [x ← m; k]. *)
#[global] Instance result_ret : MRet result := λ A a, Ok a.
#[global] Instance result_bind : MBind result := λ A B k m,
  match m with
  | Ok a => k a
  | Fault e => Fault e
  end.

(** ** lru_replacer.cpp *)

Module LRU.

(** [list_t_] holds the unpinned frames, least recently unpinned first;
    [size] is the capacity given to the constructor. *)
Record LRUReplacer : Type := mkLRU {
  list_t_ : list frame_id_t;
  size : nat
}.

(** [LRUReplacer::LRUReplacer(size_t num_pages)] *)
Definition create (num_pages : nat) : LRUReplacer :=
  {| list_t_ := []; size := num_pages |}.

(** [LRUReplacer::Size] *)
Definition Size (r : LRUReplacer) : nat := length (list_t_ r).

(** [LRUReplacer::Victim]: the [bool] result and the out-parameter are one
    [option]; [None] is [return false] with [*frame_id] not written. *)
Definition Victim (r : LRUReplacer) : option frame_id_t * LRUReplacer :=
  if Nat.eqb (Size r) 0 then (None, r)
  else match list_t_ r with
       | [] => (None, r)
       | f :: rest => (Some f, {| list_t_ := rest; size := size r |})
       end.

(** [std::find] followed by [erase] of the iterator found: the first
    occurrence goes, nothing happens when there is none. *)
Fixpoint erase_first (f : frame_id_t) (l : list frame_id_t) : list frame_id_t :=
  match l with
  | [] => []
  | x :: rest => if decide (x = f) then rest else x :: erase_first f rest
  end.

(** [LRUReplacer::Pin] *)
Definition Pin (f : frame_id_t) (r : LRUReplacer) : LRUReplacer :=
  {| list_t_ := erase_first f (list_t_ r); size := size r |}.

(** [std::count] *)
Definition count (f : frame_id_t) (l : list frame_id_t) : nat :=
  length (filter (λ x, x = f) l).

(** [LRUReplacer::Unpin] *)
Definition Unpin (f : frame_id_t) (r : LRUReplacer) : LRUReplacer :=
  if negb (Nat.eqb (count f (list_t_ r)) 0) then r
  else if Nat.leb (size r) (length (list_t_ r)) then r
  else {| list_t_ := list_t_ r ++ [f]; size := size r |}.

End LRU.

(** ** The disk manager *)

(** Modelled from the spec: the disk manager (disk/disk_manager.h and its
    implementation are not part of the sources) is "a byte-level
    ReadPage/WritePage interface over stable page IDs": [WritePage] persists
    the bytes of a page, [ReadPage] "fills out_buffer with the persisted
    contents of page_id" and "may fail".  The model keeps the persisted
    bytes, the page ids on which a read fails, and the list of the writes
    issued so far (oldest first).  A failed read leaves the buffer as it
    was; a page that was never written reads as zeroes; writes are taken to
    succeed. *)
Module Disk.

Record DiskManager : Type := mkDisk {
  stored : gmap Z page_data;
  unreadable : list Z;
  write_log : list (Z * page_data)
}.

Inductive io_status : Type := io_ok | io_failed.

Definition zero_page : page_data := replicate PAGE_SIZE 0.

Definition WritePage (page_id : page_id_t) (buf : page_data)
    (d : DiskManager) : DiskManager :=
  {| stored := <[page_id := buf]> (stored d);
     unreadable := unreadable d;
     write_log := write_log d ++ [(page_id, buf)] |}.

Definition ReadPage (page_id : page_id_t) (buf : page_data)
    (d : DiskManager) : io_status * page_data :=
  if bool_decide (page_id ∈ unreadable d) then (io_failed, buf)
  else (io_ok, default zero_page (stored d !! page_id)).

Definition empty : DiskManager :=
  {| stored := ∅; unreadable := []; write_log := [] |}.

End Disk.

(** ** buffer_pool_manager_instance.cpp *)

(** Modelled from the spec: [Page] (storage/page/page.h is not part of the
    sources) is the frame of the data model: "page_id", "data", "pin_count",
    "is_dirty"; [ResetMemory] zeroes the data buffer. *)
Record Page : Type := mkPage {
  page_id_ : page_id_t;
  data_ : page_data;
  pin_count_ : Z;
  is_dirty_ : bool
}.

Definition ResetMemory (p : Page) : Page :=
  {| page_id_ := page_id_ p; data_ := Disk.zero_page;
     pin_count_ := pin_count_ p; is_dirty_ := is_dirty_ p |}.

(** Modelled from the spec: the state of a [Page] as [new Page[pool_size_]]
    builds it, "INVALID if the frame is free/uninitialized", unpinned and
    clean over a zeroed buffer. *)
Definition fresh_page : Page :=
  {| page_id_ := INVALID_PAGE_ID; data_ := Disk.zero_page;
     pin_count_ := 0; is_dirty_ := false |}.

Definition set_page_id (v : page_id_t) (p : Page) : Page :=
  {| page_id_ := v; data_ := data_ p; pin_count_ := pin_count_ p; is_dirty_ := is_dirty_ p |}.
Definition set_data (v : page_data) (p : Page) : Page :=
  {| page_id_ := page_id_ p; data_ := v; pin_count_ := pin_count_ p; is_dirty_ := is_dirty_ p |}.
Definition set_pin_count (v : Z) (p : Page) : Page :=
  {| page_id_ := page_id_ p; data_ := data_ p; pin_count_ := v; is_dirty_ := is_dirty_ p |}.
Definition set_is_dirty (v : bool) (p : Page) : Page :=
  {| page_id_ := page_id_ p; data_ := data_ p; pin_count_ := pin_count_ p; is_dirty_ := v |}.

(** The members of [BufferPoolManagerInstance].  [page_table_] is the
    [std::unordered_map<page_id_t, frame_id_t>] the code uses through
    [count], [at], [erase] and [insert]. *)
Record BufferPoolManagerInstance : Type := mkBPI {
  pool_size_ : nat;
  num_instances_ : Z;
  instance_index_ : Z;
  next_page_id_ : page_id_t;
  pages_ : list Page;
  replacer_ : LRU.LRUReplacer;
  free_list_ : list frame_id_t;
  page_table_ : gmap Z frame_id_t;
  disk_manager_ : Disk.DiskManager
}.

Abbreviation BPI := BufferPoolManagerInstance.

Section Setters.
Implicit Types s : BPI.

Definition with_next_page_id (v : page_id_t) s : BPI :=
  mkBPI (pool_size_ s) (num_instances_ s) (instance_index_ s) v (pages_ s)
        (replacer_ s) (free_list_ s) (page_table_ s) (disk_manager_ s).
Definition with_pages (v : list Page) s : BPI :=
  mkBPI (pool_size_ s) (num_instances_ s) (instance_index_ s) (next_page_id_ s) v
        (replacer_ s) (free_list_ s) (page_table_ s) (disk_manager_ s).
Definition with_replacer (v : LRU.LRUReplacer) s : BPI :=
  mkBPI (pool_size_ s) (num_instances_ s) (instance_index_ s) (next_page_id_ s) (pages_ s)
        v (free_list_ s) (page_table_ s) (disk_manager_ s).
Definition with_free_list (v : list frame_id_t) s : BPI :=
  mkBPI (pool_size_ s) (num_instances_ s) (instance_index_ s) (next_page_id_ s) (pages_ s)
        (replacer_ s) v (page_table_ s) (disk_manager_ s).
Definition with_page_table (v : gmap Z frame_id_t) s : BPI :=
  mkBPI (pool_size_ s) (num_instances_ s) (instance_index_ s) (next_page_id_ s) (pages_ s)
        (replacer_ s) (free_list_ s) v (disk_manager_ s).
Definition with_disk_manager (v : Disk.DiskManager) s : BPI :=
  mkBPI (pool_size_ s) (num_instances_ s) (instance_index_ s) (next_page_id_ s) (pages_ s)
        (replacer_ s) (free_list_ s) (page_table_ s) v.

(** [*(pages_ + f)] read. *)
Definition page_at s (f : frame_id_t) : result Page :=
  match pages_ s !! f with
  | Some p => Ok p
  | None => Fault FrameOutOfRange
  end.

(** [*(pages_ + f)] changed in place; the callers have read the frame
    first, so the index is in range here. *)
Definition update_page (f : frame_id_t) (g : Page → Page) s : BPI :=
  with_pages (alter g f (pages_ s)) s.

End Setters.

(** [std::unordered_map::insert]: an existing key keeps its value. *)
Definition map_insert_new (k : Z) (v : frame_id_t) (m : gmap Z frame_id_t)
    : gmap Z frame_id_t :=
  match m !! k with
  | Some _ => m
  | None => <[k := v]> m
  end.

(** The two constructors.  The BUSTUB_ASSERTs stop the process. *)
Definition create (pool_size : nat) (num_instances instance_index : Z)
    (disk_manager : Disk.DiskManager) : result BPI :=
  if negb (0 <? num_instances) then Fault AssertionFailure
  else if negb (instance_index <? num_instances) then Fault AssertionFailure
  else Ok {| pool_size_ := pool_size;
             num_instances_ := num_instances;
             instance_index_ := instance_index;
             next_page_id_ := instance_index;
             pages_ := replicate pool_size fresh_page;
             replacer_ := LRU.create pool_size;
             free_list_ := seq 0 pool_size;
             page_table_ := ∅;
             disk_manager_ := disk_manager |}.

Definition create_single (pool_size : nat) (disk_manager : Disk.DiskManager)
    : result BPI :=
  create pool_size 1 0 disk_manager.

(** [ValidatePageId]: the condition of its [assert]. *)
Definition ValidatePageId (s : BPI) (page_id : page_id_t) : bool :=
  page_id `mod` num_instances_ s =? instance_index_ s.

(** [AllocatePage] *)
Definition AllocatePage (s : BPI) : result (page_id_t * BPI) :=
  let next_page_id := next_page_id_ s in
  let s := with_next_page_id (next_page_id_ s + num_instances_ s) s in
  if ValidatePageId s next_page_id then Ok (next_page_id, s)
  else Fault AssertionFailure.

(** Modelled from the spec: [DeallocatePage] (defined in the header, which
    is not part of the sources) is "a hook for id-reuse bookkeeping; a no-op
    in the basic design". *)
Definition DeallocatePage (page_id : page_id_t) (s : BPI) : BPI := s.

(** [FlushPgImp] *)
Definition FlushPgImp (page_id : page_id_t) (s : BPI) : result (bool * BPI) :=
  match page_table_ s !! page_id with
  | None => Ok (false, s)
  | Some f =>
      page ← page_at s f;
      if negb (is_dirty_ page) then Ok (true, s)
      else
        let s := with_disk_manager
                   (Disk.WritePage page_id (data_ page) (disk_manager_ s)) s in
        let s := update_page f (set_is_dirty false) s in
        Ok (true, s)
  end.

(** The body of the loop of [FlushAllPgsImp] for one entry [v]. *)
Definition flush_entry (v : Z * frame_id_t) (s : BPI) : result BPI :=
  page ← page_at s v.2;
  if negb (is_dirty_ page) then Ok s
  else
    let s := with_disk_manager
               (Disk.WritePage v.1 (data_ page) (disk_manager_ s)) s in
    Ok (update_page v.2 (set_is_dirty false) s).

Fixpoint flush_entries (l : list (Z * frame_id_t)) (s : BPI) : result BPI :=
  match l with
  | [] => Ok s
  | v :: rest => s ← flush_entry v s; flush_entries rest s
  end.

(** [FlushAllPgsImp]: the entries are visited in the order in which
    [map_to_list] lists them; the order of an [unordered_map] is not
    specified. *)
Definition FlushAllPgsImp (s : BPI) : result BPI :=
  flush_entries (map_to_list (page_table_ s)) s.

(** [free_list_.empty() && replacer_->Size() == 0] *)
Definition all_pinned (s : BPI) : bool :=
  match free_list_ s with [] => true | _ :: _ => false end
  && Nat.eqb (LRU.Size (replacer_ s)) 0.

(** The block that [NewPgImp] (lines 95-108) and [FetchPgImp] (lines
    145-158) share word for word: take the frame at the front of the free
    list, or else ask the replacer for a victim, write the victim back
    through [FlushPgImp] when it is dirty and erase the page id it holds from
    the page table.  The result of [Victim] is not looked at by the code;
    reading a [frame_id] that was never written is the fault
    [UninitFrameId].  The result of [FlushPgImp] is dropped. *)
Definition take_frame (s : BPI) : result (frame_id_t * BPI) :=
  match free_list_ s with
  | frame_id :: rest => Ok (frame_id, with_free_list rest s)
  | [] =>
      let '(victim, r) := LRU.Victim (replacer_ s) in
      let s := with_replacer r s in
      match victim with
      | None => Fault UninitFrameId
      | Some frame_id =>
          page ← page_at s frame_id;
          '(_, s) ← (if is_dirty_ page then FlushPgImp (page_id_ page) s
                     else Ok (true, s));
          page ← page_at s frame_id;
          Ok (frame_id, with_page_table (delete (page_id_ page) (page_table_ s)) s)
      end
  end.

(** [NewPgImp]: [None] is [nullptr]; otherwise the new page id (the
    out-parameter) and the frame the returned pointer designates. *)
Definition NewPgImp (s : BPI) : result (option (page_id_t * frame_id_t) * BPI) :=
  if all_pinned s then Ok (None, s)
  else
    '(frame_id, s) ← take_frame s;
    '(page_id, s) ← AllocatePage s;
    _ ← page_at s frame_id;
    let s := update_page frame_id (set_page_id page_id) s in
    let s := update_page frame_id ResetMemory s in
    let s := update_page frame_id (set_pin_count 1) s in
    let s := update_page frame_id (set_is_dirty false) s in
    let s := with_page_table (map_insert_new page_id frame_id (page_table_ s)) s in
    let s := with_replacer (LRU.Pin frame_id (replacer_ s)) s in
    Ok (Some (page_id, frame_id), s).

(** [FetchPgImp]: [None] is [nullptr].  The status of [ReadPage] is not
    consulted: the call is a statement, and the code goes on in the same way
    whatever the disk manager did with the buffer. *)
Definition FetchPgImp (page_id : page_id_t) (s : BPI)
    : result (option frame_id_t * BPI) :=
  match page_table_ s !! page_id with
  | Some frame_id =>
      page ← page_at s frame_id;
      let s := update_page frame_id (set_pin_count (pin_count_ page + 1)) s in
      let s := with_replacer (LRU.Pin frame_id (replacer_ s)) s in
      Ok (Some frame_id, s)
  | None =>
      if all_pinned s then Ok (None, s)
      else
        '(frame_id, s) ← take_frame s;
        page ← page_at s frame_id;
        let s := update_page frame_id (set_page_id page_id) s in
        let '(_, buf) := Disk.ReadPage page_id (data_ page) (disk_manager_ s) in
        let s := update_page frame_id (set_data buf) s in
        let s := update_page frame_id (set_pin_count 1) s in
        let s := update_page frame_id (set_is_dirty false) s in
        let s := with_page_table (map_insert_new page_id frame_id (page_table_ s)) s in
        let s := with_replacer (LRU.Pin frame_id (replacer_ s)) s in
        Ok (Some frame_id, s)
  end.

(** [DeletePgImp].  The key given to [erase] is read from the frame after
    the frame's [page_id_] was overwritten, as in the source. *)
Definition DeletePgImp (page_id : page_id_t) (s : BPI) : result (bool * BPI) :=
  let s := DeallocatePage page_id s in
  match page_table_ s !! page_id with
  | None => Ok (true, s)
  | Some frame_id =>
      page ← page_at s frame_id;
      if negb (pin_count_ page =? 0) then Ok (false, s)
      else
        let s := update_page frame_id (set_page_id INVALID_PAGE_ID) s in
        let s := update_page frame_id ResetMemory s in
        let s := update_page frame_id (set_is_dirty false) s in
        let s := update_page frame_id (set_pin_count 0) s in
        page ← page_at s frame_id;
        let s := with_page_table (delete (page_id_ page) (page_table_ s)) s in
        let s := with_free_list (free_list_ s ++ [frame_id]) s in
        let s := with_replacer (LRU.Pin frame_id (replacer_ s)) s in
        Ok (true, s)
  end.

(** [UnpinPgImp] *)
Definition UnpinPgImp (page_id : page_id_t) (is_dirty : bool) (s : BPI)
    : result (bool * BPI) :=
  match page_table_ s !! page_id with
  | None => Ok (false, s)
  | Some frame_id =>
      page ← page_at s frame_id;
      if pin_count_ page =? 0 then Ok (true, s)
      else
        let s := if is_dirty then update_page frame_id (set_is_dirty is_dirty) s
                 else s in
        let s := update_page frame_id (set_pin_count (pin_count_ page - 1)) s in
        page ← page_at s frame_id;
        let s := if pin_count_ page =? 0
                 then with_replacer (LRU.Unpin frame_id (replacer_ s)) s
                 else s in
        Ok (true, s)
  end.

(** ** The public interface as a labelled transition system *)

Inductive op : Type :=
| NewPage
| FetchPage (page_id : page_id_t)
| UnpinPage (page_id : page_id_t) (is_dirty : bool)
| FlushPage (page_id : page_id_t)
| FlushAllPages
| DeletePage (page_id : page_id_t).

Inductive retval : Type :=
| RNew (r : option (page_id_t * frame_id_t))
| RFetch (r : option frame_id_t)
| RBool (b : bool)
| RUnit.

Definition step (o : op) (s : BPI) : result (retval * BPI) :=
  match o with
  | NewPage => '(r, s) ← NewPgImp s; Ok (RNew r, s)
  | FetchPage p => '(r, s) ← FetchPgImp p s; Ok (RFetch r, s)
  | UnpinPage p d => '(b, s) ← UnpinPgImp p d s; Ok (RBool b, s)
  | FlushPage p => '(b, s) ← FlushPgImp p s; Ok (RBool b, s)
  | FlushAllPages => s ← FlushAllPgsImp s; Ok (RUnit, s)
  | DeletePage p => '(b, s) ← DeletePgImp p s; Ok (RBool b, s)
  end.

(** A sequence of calls, with the values they returned, oldest first. *)
Fixpoint run (ops : list op) (s : BPI) : result (list retval * BPI) :=
  match ops with
  | [] => Ok ([], s)
  | o :: rest =>
      '(r, s) ← step o s;
      '(rs, s) ← run rest s;
      Ok (r :: rs, s)
  end.

(** ** Predicates used by the statements *)

(** [Unpin] of the frames of [l], first to last. *)
Definition unpin_all (l : list frame_id_t) (r : LRU.LRUReplacer) : LRU.LRUReplacer :=
  foldl (λ r f, LRU.Unpin f r) r l.

(** The frames that [k] successive calls of [Victim] return, first call
    first; the list stops at the first call that returns nothing. *)
Fixpoint victims (k : nat) (r : LRU.LRUReplacer) : list frame_id_t :=
  match k with
  | O => []
  | S k =>
      match LRU.Victim r with
      | (Some f, r) => f :: victims k r
      | (None, _) => []
      end
  end.

(** The frame is the value of some entry of the page table. *)
Definition in_page_table (s : BPI) (f : frame_id_t) : Prop :=
  ∃ p, page_table_ s !! p = Some f.

(** Invariant 1 of the data model: every frame id below [pool_size_] is in
    exactly one of the free list and the range of the page table. *)
Definition frames_partitioned (s : BPI) : Prop :=
  ∀ f, (f < pool_size_ s)%nat →
    (f ∈ free_list_ s ∧ ¬ in_page_table s f)
    ∨ ((f ∉ free_list_ s) ∧ in_page_table s f).

(** Invariant 4 of the data model: the frame an entry of the page table
    names holds the page id of the entry. *)
Definition table_agrees (s : BPI) : Prop :=
  ∀ p f, page_table_ s !! p = Some f →
    ∃ page, pages_ s !! f = Some page ∧ page_id_ page = p.

(** What the instance keeps true besides: the frame array has [pool_size_]
    frames, the free list and the replacer hold no frame twice and no frame
    id outside the array, every member of the replacer is in the range of
    the page table (invariant 2), and the allocator cursor is an id of this
    instance. *)
Record well_formed (s : BPI) : Prop := mkWF {
  wf_pages : length (pages_ s) = pool_size_ s;
  wf_free_nodup : NoDup (free_list_ s);
  wf_free_range : ∀ f, f ∈ free_list_ s → (f < pool_size_ s)%nat;
  wf_repl_nodup : NoDup (LRU.list_t_ (replacer_ s));
  wf_repl_table : ∀ f, f ∈ LRU.list_t_ (replacer_ s) → in_page_table s f;
  wf_table_range : ∀ p f, page_table_ s !! p = Some f → (f < pool_size_ s)%nat;
  wf_instances : 0 < num_instances_ s;
  wf_cursor : next_page_id_ s `mod` num_instances_ s = instance_index_ s
}.

(** The invariants of the claim with what makes them inductive. *)
Definition Invariants (s : BPI) : Prop :=
  frames_partitioned s ∧ table_agrees s ∧ well_formed s.

(** The state in the middle of [NewPgImp] and [FetchPgImp], when the frame
    [f] was taken and not yet given its page: the invariants hold but for
    [f], which is in neither the free list, the page table nor the
    replacer. *)
Record Invariants_but (f : frame_id_t) (s : BPI) : Prop := mkIB {
  ib_frame : (f < pool_size_ s)%nat;
  ib_not_free : f ∉ free_list_ s;
  ib_not_table : ¬ in_page_table s f;
  ib_not_repl : f ∉ LRU.list_t_ (replacer_ s);
  ib_partitioned : ∀ g, g ≠ f → (g < pool_size_ s)%nat →
    (g ∈ free_list_ s ∧ ¬ in_page_table s g)
    ∨ ((g ∉ free_list_ s) ∧ in_page_table s g);
  ib_agrees : table_agrees s;
  ib_wf : well_formed s
}.

(** The call is a [DeletePage] that finds its page resident and unpinned,
    i.e. one that goes on to reset the frame. *)
Definition deletes (o : op) (s : BPI) : bool :=
  match o with
  | DeletePage p =>
      match page_table_ s !! p with
      | Some f =>
          match pages_ s !! f with
          | Some page => pin_count_ page =? 0
          | None => false
          end
      | None => false
      end
  | _ => false
  end.

(** The page ids minted by the calls of a run: those of the successful
    [NewPage]s, oldest first. *)
Fixpoint minted (rs : list retval) : list page_id_t :=
  match rs with
  | [] => []
  | RNew (Some (page_id, _)) :: rest => page_id :: minted rest
  | _ :: rest => minted rest
  end.

(** The state after a sequence of calls on a fresh instance of one frame
    and later ones, for the concrete cases below; [None] when a call
    faults. *)
Definition after (pool_size : nat) (disk : Disk.DiskManager) (ops : list op)
    : option BPI :=
  match create_single pool_size disk with
  | Ok s => match run ops s with Ok (_, s) => Some s | Fault _ => None end
  | Fault _ => None
  end.

(** What a call does to the allocator cursor: a successful [NewPage] returns
    the id at the cursor and moves the cursor by [num_instances_]; no other
    call touches it.  The configuration never changes. *)
Definition cursor_step (s : BPI) (r : retval) (s' : BPI) : Prop :=
  num_instances_ s' = num_instances_ s
  ∧ instance_index_ s' = instance_index_ s
  ∧ match r with
    | RNew (Some (id, _)) =>
        id = next_page_id_ s
        ∧ next_page_id_ s' = next_page_id_ s + num_instances_ s
    | _ => next_page_id_ s' = next_page_id_ s
    end.

(** Between [s] and [s'] the disk manager received a [WritePage] of the
    bytes [buf] for the page id [q]. *)
Definition written (s s' : BPI) (q : page_id_t) (buf : page_data) : Prop :=
  ∃ l, Disk.write_log (disk_manager_ s') = Disk.write_log (disk_manager_ s) ++ l
       ∧ (q, buf) ∈ l.

(** The call [o], made in state [s] and returning [r], reset the frame [f]
    ([DeletePage] of the page mapped to it) or took it for another page
    ([NewPage], or [FetchPage] of a page that was not resident). *)
Definition reuses (o : op) (s : BPI) (r : retval) (f : frame_id_t) : Prop :=
  match o, r with
  | NewPage, RNew (Some (_, g)) => g = f
  | FetchPage q, RFetch (Some g) => g = f ∧ page_table_ s !! q = None
  | DeletePage q, RBool true => page_table_ s !! q = Some f
  | _, _ => False
  end.

(** The frames [ps'] are the frames [ps] but for dirty flags that were
    cleared, each one after a write, listed in [l], of the bytes of the
    frame under a page id that the page table [m] maps to the frame. *)
Definition flushed_only (m : gmap Z frame_id_t) (l : list (Z * page_data))
    (ps ps' : list Page) : Prop :=
  ∀ f page, ps !! f = Some page →
    ∃ page', ps' !! f = Some page'
      ∧ page_id_ page' = page_id_ page ∧ data_ page' = data_ page
      ∧ pin_count_ page' = pin_count_ page
      ∧ (is_dirty_ page' = is_dirty_ page
         ∨ (is_dirty_ page' = false ∧ ∃ q, m !! q = Some f ∧ (q, data_ page) ∈ l)).

(** ** The invariants as a test that runs *)

Definition in_page_table_b (s : BPI) (f : frame_id_t) : bool :=
  bool_decide (f ∈ (map_to_list (page_table_ s)).*2).

Definition frames_partitioned_b (s : BPI) : bool :=
  forallb (λ f, xorb (bool_decide (f ∈ free_list_ s)) (in_page_table_b s f))
          (seq 0 (pool_size_ s)).

Definition table_agrees_b (s : BPI) : bool :=
  forallb (λ v : Z * frame_id_t,
             match pages_ s !! v.2 with
             | Some page => page_id_ page =? v.1
             | None => false
             end)
          (map_to_list (page_table_ s)).

Definition well_formed_b (s : BPI) : bool :=
  Nat.eqb (length (pages_ s)) (pool_size_ s)
  && bool_decide (NoDup (free_list_ s))
  && forallb (λ f, Nat.ltb f (pool_size_ s)) (free_list_ s)
  && bool_decide (NoDup (LRU.list_t_ (replacer_ s)))
  && forallb (in_page_table_b s) (LRU.list_t_ (replacer_ s))
  && forallb (λ v : Z * frame_id_t, Nat.ltb v.2 (pool_size_ s))
             (map_to_list (page_table_ s))
  && (0 <? num_instances_ s)
  && (next_page_id_ s `mod` num_instances_ s =? instance_index_ s).

Definition Invariants_b (s : BPI) : bool :=
  frames_partitioned_b s && table_agrees_b s && well_formed_b s.

(** ** Concrete states *)

(** An instance of one frame after [NewPage]: page 0 is pinned in frame 0. *)
Definition ex_pinned : BPI :=
  mkBPI 1 1 0 1 [mkPage 0 Disk.zero_page 1 false] (LRU.mkLRU [] 1) []
        {[ 0 := 0%nat ]} Disk.empty.

(** The same after [UnpinPage 0 false]: frame 0 is a member of the replacer. *)
Definition ex_unpinned : BPI :=
  mkBPI 1 1 0 1 [mkPage 0 Disk.zero_page 0 false] (LRU.mkLRU [0%nat] 1) []
        {[ 0 := 0%nat ]} Disk.empty.

(** After [NewPage; UnpinPage 0 true] instead: frame 0 is dirty. *)
Definition ex_dirty : BPI :=
  mkBPI 1 1 0 1 [mkPage 0 Disk.zero_page 0 true] (LRU.mkLRU [0%nat] 1) []
        {[ 0 := 0%nat ]} Disk.empty.

(** A fresh instance of two frames. *)
Definition ex_fresh2 : BPI :=
  mkBPI 2 1 0 0 [fresh_page; fresh_page] (LRU.mkLRU [] 2) [0%nat; 1%nat] ∅
        Disk.empty.

(** A disk on which reading page 5 fails. *)
Definition ex_bad_disk : Disk.DiskManager :=
  Disk.mkDisk ∅ [5] [].

(** [ex_unpinned] after [DeletePage 0]. *)
Definition ex_deleted : BPI :=
  mkBPI 1 1 0 1 [fresh_page] (LRU.mkLRU [] 1) [0%nat] {[ 0 := 0%nat ]} Disk.empty.

(** [ex_fresh2] after [FetchPage 0]: page 0, which was never minted, is
    pinned in frame 0. *)
Definition ex_fetched : BPI :=
  mkBPI 2 1 0 0 [mkPage 0 Disk.zero_page 1 false; fresh_page] (LRU.mkLRU [] 2)
        [1%nat] {[ 0 := 0%nat ]} Disk.empty.

(** [ex_fetched] after [NewPage]: the page id minted is 0 again. *)
Definition ex_collided : BPI :=
  mkBPI 2 1 0 1 [mkPage 0 Disk.zero_page 1 false; mkPage 0 Disk.zero_page 1 false]
        (LRU.mkLRU [] 2) [] {[ 0 := 0%nat ]} Disk.empty.

(** A state that no sequence of calls produces: frame 0 is twice in the
    free list. *)
Definition ex_twice : BPI :=
  mkBPI 1 1 0 0 [fresh_page] (LRU.mkLRU [] 1) [0%nat; 0%nat] ∅ Disk.empty.

(** [ex_twice] after [FetchPage 7]. *)
Definition ex_twice_fetched : BPI :=
  mkBPI 1 1 0 0 [mkPage 7 Disk.zero_page 1 false] (LRU.mkLRU [] 1) [0%nat]
        {[ 7 := 0%nat ]} Disk.empty.

(** [ex_fresh2] after [NewPage; UnpinPage 0 false; DeletePage 0; FetchPage 1;
    NewPage; UnpinPage 0 true]: frame 0 is dirty and the only member of the
    replacer, it holds page id 1, and the page table maps page id 1 to
    frame 1. *)
Definition ex_estranged : BPI :=
  mkBPI 2 1 0 2
        [mkPage 1 Disk.zero_page 0 true; mkPage 1 Disk.zero_page 1 false]
        (LRU.mkLRU [0%nat] 2) [] {[ 0 := 0%nat; 1 := 1%nat ]} Disk.empty.

(** ** The replacer as a transition system *)

Inductive rop : Type :=
| RVictim
| RPin (f : frame_id_t)
| RUnpin (f : frame_id_t).

Definition rstep (o : rop) (r : LRU.LRUReplacer) : LRU.LRUReplacer :=
  match o with
  | RVictim => (LRU.Victim r).2
  | RPin f => LRU.Pin f r
  | RUnpin f => LRU.Unpin f r
  end.

(** A sequence of calls on the replacer, first call first. *)
Definition rrun (os : list rop) (r : LRU.LRUReplacer) : LRU.LRUReplacer :=
  foldl (λ r o, rstep o r) r os.

(** ** Pins *)

(** No frame has a negative pin count. *)
Definition pins_nonneg (s : BPI) : Prop :=
  ∀ f page, pages_ s !! f = Some page → 0 ≤ pin_count_ page.

(** A frame that somebody pins is neither in the free list nor a member of
    the replacer (invariants 2 and 3 of the data model, read from the side
    of the frame). *)
Definition pinned_apart (s : BPI) : Prop :=
  ∀ f page, pages_ s !! f = Some page → pin_count_ page ≠ 0 →
    (f ∉ free_list_ s) ∧ f ∉ LRU.list_t_ (replacer_ s).

(** The entries that a call appended to the log of writes are writes of the
    bytes of frames that were dirty before the call, each under a page id
    that the page table mapped to the frame. *)
Definition writes_dirty_only (s : BPI) (l : list (Z * page_data)) : Prop :=
  ∀ q buf, (q, buf) ∈ l →
    ∃ f page, page_table_ s !! q = Some f ∧ pages_ s !! f = Some page
              ∧ is_dirty_ page = true ∧ data_ page = buf.

(** The ways in which one call changes the frame [g], which held [page]
    before the call and holds [page'] after it: nothing but the dirty flag;
    one more pin; one pin fewer, of a frame that had one; taken, from the
    free list or from the replacer, for a page that is now pinned once; or
    reset, when nobody pinned it. *)
Inductive frame_change (s : BPI) (g : frame_id_t) (page page' : Page) : Prop :=
| fc_flags :
    page_id_ page' = page_id_ page → data_ page' = data_ page →
    pin_count_ page' = pin_count_ page → frame_change s g page page'
| fc_pin :
    page_id_ page' = page_id_ page → data_ page' = data_ page →
    pin_count_ page' = pin_count_ page + 1 → frame_change s g page page'
| fc_unpin :
    page_id_ page' = page_id_ page → data_ page' = data_ page →
    pin_count_ page ≠ 0 → pin_count_ page' = pin_count_ page - 1 →
    frame_change s g page page'
| fc_taken :
    g ∈ free_list_ s ∨ g ∈ LRU.list_t_ (replacer_ s) →
    pin_count_ page' = 1 → is_dirty_ page' = false → frame_change s g page page'
| fc_reset :
    pin_count_ page = 0 → page' = fresh_page → frame_change s g page page'.

(** The states an instance goes through while [NewPage] is called on it and
    nothing else: the frames below [k] hold the first [k] page ids of the
    instance, all pinned; the [m] frames from [k] on are free, in order;
    the replacer is empty. *)
Definition filling (n idx : Z) (k m : nat) (s : BPI) : Prop :=
  Invariants s
  ∧ LRU.list_t_ (replacer_ s) = []
  ∧ free_list_ s = seq k m
  ∧ num_instances_ s = n ∧ 0 < n
  ∧ next_page_id_ s = idx + Z.of_nat k * n
  ∧ ∀ q f, page_table_ s !! q = Some f → q < next_page_id_ s.

(** ** States the interface reaches *)

(** What every state of an instance satisfies, the states that the slip of
    [DeletePgImp] leads to included: the frame array has [pool_size_]
    frames, the frame ids kept in the free list, in the replacer and in the
    page table are inside it, the replacer holds no frame twice, and the
    allocator cursor is an id of this instance. *)
Record bounded (s : BPI) : Prop := mkBounded {
  bd_pages : length (pages_ s) = pool_size_ s;
  bd_free : ∀ f, f ∈ free_list_ s → (f < pool_size_ s)%nat;
  bd_repl : ∀ f, f ∈ LRU.list_t_ (replacer_ s) → (f < pool_size_ s)%nat;
  bd_repl_nodup : NoDup (LRU.list_t_ (replacer_ s));
  bd_table : ∀ p f, page_table_ s !! p = Some f → (f < pool_size_ s)%nat;
  bd_instances : 0 < num_instances_ s;
  bd_cursor : next_page_id_ s `mod` num_instances_ s = instance_index_ s
}.

(** The state is the one an instance is in after some sequence of calls on
    a newly constructed instance ([num_instances] and [instance_index] are
    unsigned in the source). *)
Definition reachable (s : BPI) : Prop :=
  ∃ (pool_size : nat) (n idx : Z) (disk : Disk.DiskManager) (s0 : BPI)
    (ops : list op) (rs : list retval),
    0 ≤ idx ∧ create pool_size n idx disk = Ok s0 ∧ run ops s0 = Ok (rs, s).

(** An instance of one frame after [NewPage; UnpinPage 0 false;
    DeletePage 0; FetchPage 0; UnpinPage 0 true]: frame 0 is in the free
    list and, dirty, a member of the replacer. *)
Definition ex_both : BPI :=
  mkBPI 1 1 0 1 [mkPage INVALID_PAGE_ID Disk.zero_page 0 true] (LRU.mkLRU [0%nat] 1)
        [0%nat] {[ 0 := 0%nat ]} Disk.empty.

(** An instance of one frame after [FetchPage 5; UnpinPage 5 false;
    DeletePage 5; FetchPage 3]: frame 0 holds page 3, pinned and clean, and
    the page table maps both 3 and 5 to it. *)
Definition ex_held : BPI :=
  mkBPI 1 1 0 0 [mkPage 3 Disk.zero_page 1 false] (LRU.mkLRU [] 1) []
        {[ 3 := 0%nat; 5 := 0%nat ]} Disk.empty.

(** [ex_held] after [UnpinPage 3 true]: frame 0 is dirty and a member of
    the replacer. *)
Definition ex_alias : BPI :=
  mkBPI 1 1 0 0 [mkPage 3 Disk.zero_page 0 true] (LRU.mkLRU [0%nat] 1) []
        {[ 3 := 0%nat; 5 := 0%nat ]} Disk.empty.

(** An instance of one frame over [ex_bad_disk] after [NewPage;
    UnpinPage 0 false; DeletePage 0; DeletePage 0]: frame 0 is twice in the
    free list. *)
Definition ex_deleted_twice : BPI :=
  mkBPI 1 1 0 1 [fresh_page] (LRU.mkLRU [] 1) [0%nat; 0%nat] {[ 0 := 0%nat ]}
        ex_bad_disk.

(** An instance of one frame after [FetchPage 0; UnpinPage 0 false]: page
    0, which is also the id at the cursor, is resident in frame 0, a
    member of the replacer. *)
Definition ex_refetched : BPI :=
  mkBPI 1 1 0 0 [mkPage 0 Disk.zero_page 0 false] (LRU.mkLRU [0%nat] 1) []
        {[ 0 := 0%nat ]} Disk.empty.

(** * Theorems *)

(** ** The replacer *)

Section ReplacerFacts.
Import LRU.
Implicit Types (r : LRUReplacer) (f g : frame_id_t) (l : list frame_id_t).

Lemma erase_first_absent f l : f ∉ l → erase_first f l = l.
Proof.
  induction l as [|x l IH]; simpl; [done|].
  intros Hnin. apply not_elem_of_cons in Hnin as [Hne Hnin].
  destruct (decide (x = f)); [congruence|]. by rewrite IH.
Qed.

Lemma erase_first_split f l :
  f ∈ l → ∃ l1 l2, l = l1 ++ f :: l2 ∧ (f ∉ l1) ∧ erase_first f l = l1 ++ l2.
Proof.
  induction l as [|x l IH]; intros Hin.
  - by apply elem_of_nil in Hin.
  - simpl. destruct (decide (x = f)) as [->|Hne].
    + exists [], l. split_and!; [done| |done]. apply not_elem_of_nil.
    + apply elem_of_cons in Hin as [->|Hin]; [done|].
      destruct (IH Hin) as (l1 & l2 & -> & Hnin & ->).
      exists (x :: l1), l2. split_and!; [done| |done].
      apply not_elem_of_cons. split; [congruence|done].
Qed.

Lemma erase_first_subseteq f l : erase_first f l ⊆ l.
Proof.
  induction l as [|x l IH]; simpl; [done|].
  destruct (decide (x = f)); intros y Hy; [by right|].
  apply elem_of_cons in Hy as [->|Hy]; [left|right; by apply IH].
Qed.

Lemma erase_first_NoDup f l : NoDup l → NoDup (erase_first f l).
Proof.
  induction 1 as [|x l Hx Hl IH]; simpl; [constructor|].
  destruct (decide (x = f)); [done|].
  constructor; [|done]. intros Hin. by apply erase_first_subseteq in Hin.
Qed.

Lemma erase_first_gone f l : NoDup l → f ∉ erase_first f l.
Proof.
  induction 1 as [|x l Hx Hl IH]; simpl; [apply not_elem_of_nil|].
  destruct (decide (x = f)) as [->|Hne]; [done|].
  apply not_elem_of_cons. split; [congruence|done].
Qed.

Lemma count_zero f l : count f l = 0%nat ↔ f ∉ l.
Proof.
  unfold count. induction l as [|x l IH]; simpl.
  - split; [intros _; apply not_elem_of_nil|done].
  - rewrite filter_cons. destruct (decide (x = f)) as [->|Hne]; simpl.
    + split; [done|]. intros Hnin. exfalso. apply Hnin. left.
    + rewrite IH. rewrite not_elem_of_cons. split; [intros ?; split; [congruence|done]|by intros [_ ?]].
Qed.

Lemma Victim_spec r :
  Victim r = match list_t_ r with
             | [] => (None, r)
             | f :: rest => (Some f, {| list_t_ := rest; size := size r |})
             end.
Proof. unfold Victim, Size. by destruct (list_t_ r). Qed.

Lemma Unpin_spec f r :
  Unpin f r = if decide ((f ∉ list_t_ r) ∧ (length (list_t_ r) < size r)%nat)
              then {| list_t_ := list_t_ r ++ [f]; size := size r |}
              else r.
Proof.
  unfold Unpin.
  destruct (Nat.eqb_spec (count f (list_t_ r)) 0) as [Hc|Hc]; simpl.
  - apply count_zero in Hc.
    destruct (Nat.leb_spec (size r) (length (list_t_ r))).
    + rewrite decide_False; [done|]. intros [_ ?]. lia.
    + by rewrite decide_True.
  - rewrite decide_False; [done|]. intros [Hnin _]. by apply count_zero in Hnin.
Qed.

Lemma Unpin_NoDup f r : NoDup (list_t_ r) → NoDup (list_t_ (Unpin f r)).
Proof.
  intros Hnd. rewrite Unpin_spec. case_decide as Hc; [|done]. simpl.
  destruct Hc as [Hnin _]. apply NoDup_app. split_and!; [done| |apply NoDup_singleton].
  intros x Hx Hx'. apply list_elem_of_singleton in Hx' as ->. done.
Qed.

Lemma Unpin_elem f g r : g ∈ list_t_ (Unpin f r) → g = f ∨ g ∈ list_t_ r.
Proof.
  rewrite Unpin_spec. case_decide; [|auto]. simpl.
  rewrite elem_of_app, list_elem_of_singleton. tauto.
Qed.

Lemma unpin_all_app l : ∀ r,
  NoDup (list_t_ r ++ l) → (length (list_t_ r ++ l) ≤ size r)%nat →
  unpin_all l r = {| list_t_ := list_t_ r ++ l; size := size r |}.
Proof.
  unfold unpin_all. induction l as [|f l IH]; intros r Hnd Hlen; simpl.
  - rewrite app_nil_r. by destruct r.
  - rewrite length_app in Hlen. simpl in Hlen.
    rewrite Unpin_spec, decide_True.
    + rewrite IH; simpl; rewrite <- ?app_assoc; [done..|].
      rewrite !length_app. simpl. lia.
    + split; [|lia]. apply NoDup_app in Hnd as (_ & Hdisj & _).
      intros Hf. apply (Hdisj f Hf). left.
Qed.

Lemma victims_all l n : victims (length l) (mkLRU l n) = l.
Proof.
  induction l as [|f l IH]; [done|]. cbn [length victims].
  rewrite Victim_spec. cbn [list_t_ size]. by rewrite IH.
Qed.

End ReplacerFacts.

(** C6.  The replacer is strict LRU.  [list_t_] lists the members from the
    least recently unpinned to the most recently unpinned.  [Victim] returns
    nothing exactly when there is no member, and otherwise removes and
    returns the first one; [Unpin] appends the frame at the far end when it
    is absent and fewer than [size] members are held, and changes nothing
    otherwise; [Pin] changes nothing for an absent frame and, for a present
    one, removes it and keeps the other members in their order (so that,
    members being distinct, the frame is no longer a member).  The order is
    the order of the unpins: when distinct frames, no more than the
    capacity, are unpinned into a new replacer, successive calls of [Victim]
    return them in the order in which they were unpinned. *)
Theorem LRU_strict (r : LRU.LRUReplacer) (f : frame_id_t) :
  ((LRU.Victim r).1 = None ↔ LRU.list_t_ r = [])
  ∧ (LRU.list_t_ r = [] → LRU.Victim r = (None, r))
  ∧ (∀ g rest, LRU.list_t_ r = g :: rest →
       LRU.Victim r = (Some g, LRU.mkLRU rest (LRU.size r)))
  ∧ (f ∉ LRU.list_t_ r → (length (LRU.list_t_ r) < LRU.size r)%nat →
       LRU.Unpin f r = LRU.mkLRU (LRU.list_t_ r ++ [f]) (LRU.size r))
  ∧ (f ∈ LRU.list_t_ r ∨ (LRU.size r ≤ length (LRU.list_t_ r))%nat →
       LRU.Unpin f r = r)
  ∧ (f ∉ LRU.list_t_ r → LRU.Pin f r = r)
  ∧ (f ∈ LRU.list_t_ r →
       ∃ l1 l2, LRU.list_t_ r = l1 ++ f :: l2 ∧ (f ∉ l1)
                ∧ LRU.Pin f r = LRU.mkLRU (l1 ++ l2) (LRU.size r))
  ∧ (NoDup (LRU.list_t_ r) → f ∉ LRU.list_t_ (LRU.Pin f r))
  ∧ (∀ l n, NoDup l → (length l ≤ n)%nat →
       victims (length l) (unpin_all l (LRU.create n)) = l).
Proof.
  split_and!.
  - rewrite Victim_spec. destruct (LRU.list_t_ r); simpl; split; congruence.
  - intros H. rewrite Victim_spec. by rewrite H.
  - intros g rest H. rewrite Victim_spec. by rewrite H.
  - intros Hnin Hlt. rewrite Unpin_spec. by rewrite decide_True.
  - intros H. rewrite Unpin_spec. rewrite decide_False; [done|].
    intros [Hnin Hlt]. destruct H; [done|lia].
  - intros Hnin. unfold LRU.Pin. rewrite erase_first_absent by done. by destruct r.
  - intros Hin. destruct (erase_first_split f _ Hin) as (l1 & l2 & H1 & H2 & H3).
    exists l1, l2. split_and!; [done..|]. unfold LRU.Pin. by rewrite H3.
  - intros Hnd. simpl. by apply erase_first_gone.
  - intros l n Hnd Hlen. rewrite unpin_all_app by done. simpl.
    apply victims_all.
Qed.

Lemma LRU_strict_witness :
  LRU.Victim (LRU.mkLRU [2; 0; 1]%nat 4) = (Some 2%nat, LRU.mkLRU [0; 1]%nat 4)
  ∧ LRU.Unpin 3%nat (LRU.mkLRU [2; 0; 1]%nat 4) = LRU.mkLRU [2; 0; 1; 3]%nat 4
  ∧ LRU.Unpin 0%nat (LRU.mkLRU [2; 0; 1]%nat 4) = LRU.mkLRU [2; 0; 1]%nat 4
  ∧ LRU.Pin 3%nat (LRU.mkLRU [2; 0; 1]%nat 4) = LRU.mkLRU [2; 0; 1]%nat 4
  ∧ (0%nat ∉ LRU.list_t_ (LRU.Pin 0%nat (LRU.mkLRU [2; 0; 1]%nat 4)))
  ∧ victims 3 (unpin_all [2; 0; 1]%nat (LRU.create 4)) = [2; 0; 1]%nat.
Proof.
  destruct (LRU_strict (LRU.mkLRU [2; 0; 1]%nat 4) 3%nat)
    as (_ & _ & Hv & Hu & _ & Hp & _ & _ & Ho).
  destruct (LRU_strict (LRU.mkLRU [2; 0; 1]%nat 4) 0%nat)
    as (_ & _ & _ & _ & Hu0 & _ & _ & Hp0 & _).
  split_and!; [| | | | |apply (Ho [2; 0; 1]%nat 4%nat);
                         [by (refine (bool_decide_unpack _ _); vm_compute)|simpl; lia]].
  - apply Hv. reflexivity.
  - apply Hu; [by (refine (bool_decide_unpack _ _); vm_compute)|simpl; lia].
  - apply Hu0. left. by (refine (bool_decide_unpack _ _); vm_compute).
  - apply Hp. by (refine (bool_decide_unpack _ _); vm_compute).
  - apply Hp0. by (refine (bool_decide_unpack _ _); vm_compute).
Defined.

(** ** The executable test decides the invariants *)

Section Check.
Implicit Types (s : BPI) (f g : frame_id_t) (p q : page_id_t) (page : Page).

Lemma in_page_table_b_spec s f : in_page_table_b s f = true ↔ in_page_table s f.
Proof.
  unfold in_page_table_b, in_page_table. rewrite bool_decide_eq_true.
  rewrite list_elem_of_fmap. split.
  - intros [[p g] [-> Hin]]. exists p. by apply elem_of_map_to_list in Hin.
  - intros [p Hp]. exists (p, f). split; [done|]. by apply elem_of_map_to_list.
Qed.

Lemma forallb_elem {A} (h : A → bool) (l : list A) :
  forallb h l = true ↔ ∀ x, x ∈ l → h x = true.
Proof.
  rewrite forallb_forall. split; intros H x Hx; apply H; by apply list_elem_of_In.
Qed.

Lemma frames_partitioned_b_spec s :
  frames_partitioned_b s = true ↔ frames_partitioned s.
Proof.
  unfold frames_partitioned_b, frames_partitioned. rewrite forallb_elem.
  split; intros H f Hf.
  - specialize (H f). rewrite elem_of_seq in H.
    assert (xorb (bool_decide (f ∈ free_list_ s)) (in_page_table_b s f) = true)
      as Hx by (apply H; lia).
    destruct (bool_decide (f ∈ free_list_ s)) eqn:Hfree,
             (in_page_table_b s f) eqn:Htab; try done.
    + left. split; [by apply bool_decide_eq_true in Hfree|].
      rewrite <- in_page_table_b_spec. congruence.
    + right. split; [by apply bool_decide_eq_false in Hfree|].
      by apply in_page_table_b_spec.
  - apply elem_of_seq in Hf.
    destruct (H f) as [[Hfree Htab]|[Hfree Htab]]; [lia|..].
    + rewrite bool_decide_true by done.
      destruct (in_page_table_b s f) eqn:Hb; [|done].
      by apply in_page_table_b_spec in Hb.
    + rewrite bool_decide_false by done.
      by apply in_page_table_b_spec in Htab as ->.
Qed.

Lemma table_agrees_b_spec s : table_agrees_b s = true ↔ table_agrees s.
Proof.
  unfold table_agrees_b, table_agrees. rewrite forallb_elem. split.
  - intros H p f Hp. apply elem_of_map_to_list in Hp. specialize (H _ Hp).
    simpl in H. destruct (pages_ s !! f) as [page|]; [|done].
    exists page. split; [done|]. by apply Z.eqb_eq.
  - intros H [p f] Hp. apply elem_of_map_to_list in Hp.
    destruct (H p f Hp) as (page & Hpage & <-). cbn [fst snd]. rewrite Hpage.
    apply Z.eqb_refl.
Qed.

Lemma well_formed_b_spec s : well_formed_b s = true ↔ well_formed s.
Proof.
  unfold well_formed_b. rewrite !andb_true_iff, !forallb_elem, !bool_decide_eq_true.
  rewrite Nat.eqb_eq, Z.ltb_lt, Z.eqb_eq. split.
  - intros [[[[[[[H1 H2] H3] H4] H5] H6] H7] H8]. split; try done.
    + intros f Hf. apply Nat.ltb_lt. by apply H3.
    + intros f Hf. apply in_page_table_b_spec. by apply H5.
    + intros p f Hp. apply elem_of_map_to_list in Hp.
      apply Nat.ltb_lt. by apply (H6 (p, f)).
  - intros [H1 H2 H3 H4 H5 H6 H7 H8]. split_and!; try done.
    + intros f Hf. apply Nat.ltb_lt. by apply H3.
    + intros f Hf. apply in_page_table_b_spec. by apply H5.
    + intros [p f] Hp. apply elem_of_map_to_list in Hp.
      apply Nat.ltb_lt. by apply (H6 p).
Qed.

Lemma Invariants_b_spec s : Invariants_b s = true ↔ Invariants s.
Proof.
  unfold Invariants_b, Invariants. rewrite !andb_true_iff.
  rewrite frames_partitioned_b_spec, table_agrees_b_spec, well_formed_b_spec.
  tauto.
Qed.

End Check.

(** ** Elementary facts about the instance *)

(** Reduce the projections of an updated state, and nothing else. *)
Ltac bpi_simpl :=
  cbn [pool_size_ num_instances_ instance_index_ next_page_id_ pages_
       replacer_ free_list_ page_table_ disk_manager_
       with_next_page_id with_pages with_replacer with_free_list
       with_page_table with_disk_manager update_page DeallocatePage
       LRU.list_t_ LRU.size LRU.Pin page_id_ data_ pin_count_ is_dirty_
       set_page_id set_data set_pin_count set_is_dirty ResetMemory
       mbind result_bind negb fst snd] in *.

(** Reduce the projections of an explicit record only. *)
Ltac bpi_proj :=
  cbn [pool_size_ num_instances_ instance_index_ next_page_id_ pages_
       replacer_ free_list_ page_table_ disk_manager_].

Section InstanceFacts.
Implicit Types (s : BPI) (f g : frame_id_t) (p q : page_id_t) (page : Page).

Lemma all_pinned_true s :
  all_pinned s = true ↔ free_list_ s = [] ∧ LRU.list_t_ (replacer_ s) = [].
Proof.
  unfold all_pinned, LRU.Size.
  destruct (free_list_ s), (LRU.list_t_ (replacer_ s)); simpl; split;
    intros H; try done; by destruct H.
Qed.

Lemma all_pinned_false s :
  all_pinned s = false ↔ ¬ (free_list_ s = [] ∧ LRU.list_t_ (replacer_ s) = []).
Proof.
  rewrite <- all_pinned_true. destruct (all_pinned s); split; try done.
  all: intros H; try done; by destruct H.
Qed.

Lemma page_at_Ok s f page : page_at s f = Ok page ↔ pages_ s !! f = Some page.
Proof. unfold page_at. destruct (pages_ s !! f); split; congruence. Qed.

Lemma page_at_lt s f :
  (f < length (pages_ s))%nat → ∃ page, pages_ s !! f = Some page ∧ page_at s f = Ok page.
Proof.
  intros Hlt. destruct (lookup_lt_is_Some_2 _ _ Hlt) as [page Hp].
  exists page. split; [done|]. by apply page_at_Ok.
Qed.

Lemma map_insert_new_fresh k v (m : gmap Z frame_id_t) :
  m !! k = None → map_insert_new k v m = <[k := v]> m.
Proof. intros H. unfold map_insert_new. by rewrite H. Qed.

(** [take_frame] when the free list has a frame. *)
Lemma take_frame_free s f rest :
  free_list_ s = f :: rest → take_frame s = Ok (f, with_free_list rest s).
Proof. intros H. unfold take_frame. by rewrite H. Qed.

(** [take_frame] when the frame comes from the replacer and is clean. *)
Lemma take_frame_clean s f rest page :
  free_list_ s = [] → LRU.list_t_ (replacer_ s) = f :: rest →
  pages_ s !! f = Some page → is_dirty_ page = false →
  take_frame s =
    Ok (f, with_page_table (delete (page_id_ page) (page_table_ s))
             (with_replacer (LRU.mkLRU rest (LRU.size (replacer_ s))) s)).
Proof.
  intros Hfree Hrepl Hpage Hclean. unfold take_frame.
  rewrite Hfree, Victim_spec, Hrepl. unfold page_at. bpi_simpl.
  rewrite Hpage. bpi_simpl. rewrite Hclean. bpi_simpl. by rewrite Hpage.
Qed.

(** [take_frame] when the frame comes from the replacer, is dirty and is
    the one the page table has for the page id it holds. *)
Lemma take_frame_dirty s f rest page :
  free_list_ s = [] → LRU.list_t_ (replacer_ s) = f :: rest →
  pages_ s !! f = Some page → is_dirty_ page = true →
  page_table_ s !! page_id_ page = Some f →
  take_frame s =
    Ok (f, with_page_table (delete (page_id_ page) (page_table_ s))
             (update_page f (set_is_dirty false)
                (with_disk_manager
                   (Disk.WritePage (page_id_ page) (data_ page) (disk_manager_ s))
                   (with_replacer (LRU.mkLRU rest (LRU.size (replacer_ s))) s)))).
Proof.
  intros Hfree Hrepl Hpage Hdirty Htable. unfold take_frame.
  rewrite Hfree, Victim_spec, Hrepl. unfold FlushPgImp, page_at. bpi_simpl.
  rewrite Hpage. bpi_simpl. rewrite Hdirty, Htable. bpi_simpl. rewrite Hpage.
  bpi_simpl. rewrite Hdirty. bpi_simpl. by rewrite list_lookup_alter_eq, Hpage.
Qed.

(** [FlushPgImp] and [take_frame] leave the configuration and the allocator
    cursor alone. *)
Lemma FlushPgImp_static p s b s' :
  FlushPgImp p s = Ok (b, s') →
  pool_size_ s' = pool_size_ s ∧ num_instances_ s' = num_instances_ s
  ∧ instance_index_ s' = instance_index_ s ∧ next_page_id_ s' = next_page_id_ s
  ∧ length (pages_ s') = length (pages_ s) ∧ free_list_ s' = free_list_ s
  ∧ replacer_ s' = replacer_ s ∧ page_table_ s' = page_table_ s.
Proof.
  unfold FlushPgImp, page_at. intros H.
  destruct (page_table_ s !! p) as [f|]; [|by inversion H].
  destruct (pages_ s !! f) as [page|]; [|by inversion H]. bpi_simpl.
  destruct (is_dirty_ page); bpi_simpl; inversion H; subst; bpi_simpl;
    rewrite ?length_alter; done.
Qed.

Lemma take_frame_static s f s' :
  take_frame s = Ok (f, s') →
  pool_size_ s' = pool_size_ s ∧ num_instances_ s' = num_instances_ s
  ∧ instance_index_ s' = instance_index_ s ∧ next_page_id_ s' = next_page_id_ s
  ∧ length (pages_ s') = length (pages_ s).
Proof.
  unfold take_frame. destruct (free_list_ s) as [|f0 rest].
  - rewrite Victim_spec. destruct (LRU.list_t_ (replacer_ s)) as [|g rest]; [done|].
    unfold page_at. bpi_simpl.
    destruct (pages_ s !! g) as [page|] eqn:Hpage; [|done]. bpi_simpl.
    destruct (is_dirty_ page).
    + destruct (FlushPgImp _ _) as [[b s1]|] eqn:Hflush; [|done]. bpi_simpl.
      apply FlushPgImp_static in Hflush as (? & ? & ? & ? & ? & ? & ? & ?).
      bpi_simpl. destruct (pages_ s1 !! g); [|done]. bpi_simpl.
      intros [= <- <-]. bpi_simpl. split_and!; congruence.
    + bpi_simpl. rewrite Hpage. bpi_simpl. intros [= <- <-]. done.
  - intros [= <- <-]. done.
Qed.

(** The tail of [NewPgImp]: once a frame is secured, the page id at the
    cursor is minted and the frame set up for it. *)
Lemma NewPgImp_Some s f s1 page :
  all_pinned s = false → take_frame s = Ok (f, s1) →
  pages_ s1 !! f = Some page →
  ValidatePageId s (next_page_id_ s) = true →
  NewPgImp s =
    Ok (Some (next_page_id_ s, f),
        mkBPI (pool_size_ s1) (num_instances_ s1) (instance_index_ s1)
          (next_page_id_ s + num_instances_ s)
          (<[f := mkPage (next_page_id_ s) Disk.zero_page 1 false]> (pages_ s1))
          (LRU.Pin f (replacer_ s1)) (free_list_ s1)
          (map_insert_new (next_page_id_ s) f (page_table_ s1))
          (disk_manager_ s1)).
Proof.
  intros Hpinned Htake Hpage Hvalid. unfold NewPgImp.
  rewrite Hpinned, Htake. bpi_simpl.
  destruct (take_frame_static _ _ _ Htake) as (_ & Hn & Hi & Hc & _).
  unfold AllocatePage, ValidatePageId in *. bpi_simpl.
  rewrite Hn, Hi, Hc, Hvalid. bpi_simpl. unfold page_at. bpi_simpl.
  rewrite Hpage. bpi_simpl. do 2 f_equal. unfold with_replacer. bpi_simpl.
  f_equal; try congruence. rewrite !list_alter_alter_eq.
  apply list_eq. intros i. destruct (decide (i = f)) as [->|Hne].
  - rewrite list_lookup_alter_eq, Hpage, list_lookup_insert_eq;
      [done|by eapply lookup_lt_Some].
  - by rewrite list_lookup_alter_ne, list_lookup_insert_ne.
Qed.

(** The tail of [FetchPgImp] on a miss, whatever [ReadPage] reports. *)
Lemma FetchPgImp_miss s p f s1 page :
  page_table_ s !! p = None →
  all_pinned s = false → take_frame s = Ok (f, s1) →
  pages_ s1 !! f = Some page →
  FetchPgImp p s =
    Ok (Some f,
        mkBPI (pool_size_ s1) (num_instances_ s1) (instance_index_ s1)
          (next_page_id_ s1)
          (<[f := mkPage p (Disk.ReadPage p (data_ page) (disk_manager_ s1)).2 1 false]>
             (pages_ s1))
          (LRU.Pin f (replacer_ s1)) (free_list_ s1)
          (map_insert_new p f (page_table_ s1))
          (disk_manager_ s1)).
Proof.
  intros Hmiss Hpinned Htake Hpage. unfold FetchPgImp.
  rewrite Hmiss, Hpinned, Htake. bpi_simpl. unfold page_at. rewrite Hpage.
  bpi_simpl. destruct (Disk.ReadPage _ _ _) as [st buf]. bpi_simpl.
  do 2 f_equal. unfold with_replacer. bpi_simpl.
  f_equal; try congruence. rewrite !list_alter_alter_eq.
  apply list_eq. intros i. destruct (decide (i = f)) as [->|Hne].
  - rewrite list_lookup_alter_eq, Hpage, list_lookup_insert_eq;
      [done|by eapply lookup_lt_Some].
  - by rewrite list_lookup_alter_ne, list_lookup_insert_ne.
Qed.

(** [DeletePgImp] on a resident page that nobody pins, as one equation. *)
Lemma DeletePgImp_unpinned s p f page :
  page_table_ s !! p = Some f → pages_ s !! f = Some page → pin_count_ page = 0 →
  DeletePgImp p s =
    Ok (true,
        mkBPI (pool_size_ s) (num_instances_ s) (instance_index_ s)
          (next_page_id_ s) (<[f := fresh_page]> (pages_ s))
          (LRU.Pin f (replacer_ s)) (free_list_ s ++ [f])
          (delete INVALID_PAGE_ID (page_table_ s)) (disk_manager_ s)).
Proof.
  intros Hp Hpage Hpin. unfold DeletePgImp, DeallocatePage, page_at.
  rewrite Hp, Hpage. bpi_simpl. rewrite Hpin. bpi_simpl.
  rewrite !list_lookup_alter_eq, Hpage. bpi_simpl. cbn [fmap option_fmap option_map].
  bpi_simpl. do 2 f_equal. unfold with_replacer. bpi_simpl. f_equal.
  rewrite !list_alter_alter_eq.
  apply list_eq. intros i. destruct (decide (i = f)) as [->|Hne].
  - rewrite list_lookup_alter_eq, Hpage, list_lookup_insert_eq;
      [done|by eapply lookup_lt_Some].
  - by rewrite list_lookup_alter_ne, list_lookup_insert_ne.
Qed.

End InstanceFacts.

(** ** The operations by cases *)

Section Inversion.
Implicit Types (s : BPI) (f g : frame_id_t) (p q : page_id_t) (page : Page).

Lemma alter_as_insert {A} (h : A → A) (i : nat) (l : list A) (x : A) :
  l !! i = Some x → alter h i l = <[i := h x]> l.
Proof.
  intros Hx. apply list_eq. intros j. destruct (decide (j = i)) as [->|Hne].
  - rewrite list_lookup_alter_eq, Hx, list_lookup_insert_eq;
      [done|by eapply lookup_lt_Some].
  - by rewrite list_lookup_alter_ne, list_lookup_insert_ne.
Qed.

Lemma take_frame_Ok_some s f s1 : take_frame s = Ok (f, s1) → all_pinned s = false.
Proof.
  intros Htake. apply all_pinned_false. intros [Hfree Hrepl]. revert Htake.
  unfold take_frame. by rewrite Hfree, Victim_spec, Hrepl.
Qed.

(** Every return of [NewPgImp] is [nullptr] with the state untouched, or
    the set-up of the frame that [take_frame] secured. *)
Lemma NewPgImp_inv s r s' :
  NewPgImp s = Ok (r, s') →
  (r = None ∧ s' = s ∧ all_pinned s = true)
  ∨ (∃ f s1 page,
       take_frame s = Ok (f, s1) ∧ pages_ s1 !! f = Some page
       ∧ ValidatePageId s (next_page_id_ s) = true
       ∧ r = Some (next_page_id_ s, f)
       ∧ s' = mkBPI (pool_size_ s1) (num_instances_ s1) (instance_index_ s1)
                (next_page_id_ s + num_instances_ s)
                (<[f := mkPage (next_page_id_ s) Disk.zero_page 1 false]> (pages_ s1))
                (LRU.Pin f (replacer_ s1)) (free_list_ s1)
                (map_insert_new (next_page_id_ s) f (page_table_ s1))
                (disk_manager_ s1)).
Proof.
  intros H. destruct (all_pinned s) eqn:Hpinned.
  { left. unfold NewPgImp in H. rewrite Hpinned in H. by injection H as <- <-. }
  right. destruct (take_frame s) as [[f s1]|e] eqn:Htake.
  2: { unfold NewPgImp in H. rewrite Hpinned, Htake in H. done. }
  destruct (take_frame_static _ _ _ Htake) as (_ & Hn & Hi & Hc & _).
  destruct (ValidatePageId s (next_page_id_ s)) eqn:Hvalid.
  2: { unfold NewPgImp, AllocatePage, ValidatePageId in *.
       rewrite Hpinned, Htake in H. bpi_simpl. rewrite Hn, Hi, Hc, Hvalid in H. done. }
  destruct (pages_ s1 !! f) as [page|] eqn:Hpage.
  2: { unfold NewPgImp, AllocatePage, ValidatePageId, page_at in *.
       rewrite Hpinned, Htake in H. bpi_simpl.
       rewrite Hn, Hi, Hc, Hvalid in H. bpi_simpl. rewrite Hpage in H. done. }
  rewrite (NewPgImp_Some s f s1 page) in H by done.
  injection H as <- <-. by exists f, s1, page.
Qed.

(** Every return of [FetchPgImp]: a hit, [nullptr], or the set-up of the
    frame that [take_frame] secured. *)
Lemma FetchPgImp_inv p s r s' :
  FetchPgImp p s = Ok (r, s') →
  (∃ f page,
     page_table_ s !! p = Some f ∧ pages_ s !! f = Some page ∧ r = Some f
     ∧ s' = with_replacer (LRU.Pin f (replacer_ s))
              (update_page f (set_pin_count (pin_count_ page + 1)) s))
  ∨ (page_table_ s !! p = None ∧ r = None ∧ s' = s ∧ all_pinned s = true)
  ∨ (∃ f s1 page,
       page_table_ s !! p = None
       ∧ take_frame s = Ok (f, s1) ∧ pages_ s1 !! f = Some page
       ∧ r = Some f
       ∧ s' = mkBPI (pool_size_ s1) (num_instances_ s1) (instance_index_ s1)
                (next_page_id_ s1)
                (<[f := mkPage p (Disk.ReadPage p (data_ page) (disk_manager_ s1)).2 1 false]>
                   (pages_ s1))
                (LRU.Pin f (replacer_ s1)) (free_list_ s1)
                (map_insert_new p f (page_table_ s1))
                (disk_manager_ s1)).
Proof.
  intros H. destruct (page_table_ s !! p) as [f|] eqn:Hp.
  { left. unfold FetchPgImp, page_at in H. rewrite Hp in H.
    destruct (pages_ s !! f) as [page|] eqn:Hpage; bpi_simpl; [|done].
    injection H as <- <-. by exists f, page. }
  right. destruct (all_pinned s) eqn:Hpinned.
  { left. unfold FetchPgImp in H. rewrite Hp, Hpinned in H. by injection H as <- <-. }
  right. destruct (take_frame s) as [[f s1]|e] eqn:Htake.
  2: { unfold FetchPgImp in H. rewrite Hp, Hpinned, Htake in H. done. }
  destruct (pages_ s1 !! f) as [page|] eqn:Hpage.
  2: { unfold FetchPgImp, page_at in H. rewrite Hp, Hpinned, Htake in H.
       bpi_simpl. rewrite Hpage in H. done. }
  rewrite (FetchPgImp_miss s p f s1 page) in H by done.
  injection H as <- <-. by exists f, s1, page.
Qed.

(** Every return of [UnpinPgImp]. *)
Lemma UnpinPgImp_inv p d s b s' :
  UnpinPgImp p d s = Ok (b, s') →
  (page_table_ s !! p = None ∧ b = false ∧ s' = s)
  ∨ (∃ f page,
       page_table_ s !! p = Some f ∧ pages_ s !! f = Some page ∧ b = true
       ∧ ((pin_count_ page = 0 ∧ s' = s)
          ∨ (pin_count_ page ≠ 0
             ∧ s' = mkBPI (pool_size_ s) (num_instances_ s) (instance_index_ s)
                      (next_page_id_ s)
                      (<[f := mkPage (page_id_ page) (data_ page) (pin_count_ page - 1)
                                     (d || is_dirty_ page)]> (pages_ s))
                      (if pin_count_ page - 1 =? 0
                       then LRU.Unpin f (replacer_ s) else replacer_ s)
                      (free_list_ s) (page_table_ s) (disk_manager_ s)))).
Proof.
  intros H. unfold UnpinPgImp in H. destruct (page_table_ s !! p) as [f|] eqn:Hp.
  2: { injection H as <- <-. by left. }
  destruct (pages_ s !! f) as [page|] eqn:Hpage.
  2: { unfold page_at in H. by rewrite Hpage in H. }
  rewrite (proj2 (page_at_Ok s f page) Hpage) in H. bpi_simpl.
  right. exists f, page.
  destruct (Z.eqb_spec (pin_count_ page) 0) as [Hz|Hnz].
  { injection H as <- <-. split_and!; try done. by left. }
  assert (∀ h1 h2 : Page → Page,
            alter h2 f (alter h1 f (pages_ s)) = <[f := h2 (h1 page)]> (pages_ s)
            ∧ alter h2 f (pages_ s) = <[f := h2 page]> (pages_ s)) as Halter.
  { intros h1 h2. rewrite list_alter_alter_eq.
    split; [by apply (alter_as_insert (h2 ∘ h1))|by apply alter_as_insert]. }
  assert (b = true ∧
          s' = mkBPI (pool_size_ s) (num_instances_ s) (instance_index_ s)
                 (next_page_id_ s)
                 (<[f := mkPage (page_id_ page) (data_ page) (pin_count_ page - 1)
                                (d || is_dirty_ page)]> (pages_ s))
                 (if pin_count_ page - 1 =? 0
                  then LRU.Unpin f (replacer_ s) else replacer_ s)
                 (free_list_ s) (page_table_ s) (disk_manager_ s)) as [-> ->].
  { unfold page_at in H.
    destruct d; bpi_simpl; rewrite ?list_lookup_alter_eq, Hpage in H;
      cbn [fmap option_fmap option_map] in H; bpi_simpl;
      injection H as <- <-; (split; [done|]);
      destruct (pin_count_ page - 1 =? 0);
      unfold with_replacer, update_page, with_pages; bpi_proj; f_equal;
      apply (Halter (set_is_dirty true) (set_pin_count (pin_count_ page - 1))). }
  split_and!; [done..|]. right. done.
Qed.

(** Every return of [DeletePgImp]. *)
Lemma DeletePgImp_inv p s b s' :
  DeletePgImp p s = Ok (b, s') →
  (page_table_ s !! p = None ∧ b = true ∧ s' = s)
  ∨ (∃ f page,
       page_table_ s !! p = Some f ∧ pages_ s !! f = Some page
       ∧ ((pin_count_ page ≠ 0 ∧ b = false ∧ s' = s)
          ∨ (pin_count_ page = 0 ∧ b = true
             ∧ s' = mkBPI (pool_size_ s) (num_instances_ s) (instance_index_ s)
                      (next_page_id_ s) (<[f := fresh_page]> (pages_ s))
                      (LRU.Pin f (replacer_ s)) (free_list_ s ++ [f])
                      (delete INVALID_PAGE_ID (page_table_ s)) (disk_manager_ s)))).
Proof.
  intros H. destruct (page_table_ s !! p) as [f|] eqn:Hp.
  2: { left. unfold DeletePgImp, DeallocatePage in H. rewrite Hp in H.
       by injection H as <- <-. }
  right. destruct (pages_ s !! f) as [page|] eqn:Hpage.
  2: { unfold DeletePgImp, DeallocatePage, page_at in H. rewrite Hp, Hpage in H. done. }
  exists f, page. split_and!; [done..|].
  destruct (Z.eqb_spec (pin_count_ page) 0) as [Hz|Hnz].
  - right. rewrite (DeletePgImp_unpinned s p f page) in H by done.
    by injection H as <- <-.
  - left. unfold DeletePgImp, DeallocatePage, page_at in H. rewrite Hp, Hpage in H.
    bpi_simpl. rewrite (proj2 (Z.eqb_neq _ _) Hnz) in H. bpi_simpl.
    by injection H as <- <-.
Qed.

End Inversion.

(** ** Exhaustion and the choice of the frame *)

Section Exhaustion.
Implicit Types (s : BPI) (f g : frame_id_t) (p q : page_id_t) (page : Page).

Lemma Pin_absent f (r : LRU.LRUReplacer) : f ∉ LRU.list_t_ r → LRU.Pin f r = r.
Proof. intros H. unfold LRU.Pin. rewrite erase_first_absent by done. by destruct r. Qed.

Lemma FlushPgImp_fault p s e : FlushPgImp p s = Fault e → e = FrameOutOfRange.
Proof.
  unfold FlushPgImp, page_at. destruct (page_table_ s !! p) as [f|]; [|done].
  destruct (pages_ s !! f) as [page|]; bpi_simpl; [|congruence].
  by destruct (is_dirty_ page).
Qed.

Lemma take_frame_fault s e :
  all_pinned s = false → take_frame s = Fault e → e = FrameOutOfRange.
Proof.
  intros Hpinned. apply all_pinned_false in Hpinned. unfold take_frame.
  destruct (free_list_ s) as [|f0 rest]; [|done].
  rewrite Victim_spec. destruct (LRU.list_t_ (replacer_ s)) as [|g rest].
  { by destruct Hpinned. }
  unfold page_at. bpi_simpl.
  destruct (pages_ s !! g) as [page|]; bpi_simpl; [|congruence].
  destruct (is_dirty_ page).
  - destruct (FlushPgImp _ _) as [[b s1]|e1] eqn:Hflush; bpi_simpl.
    + destruct (pages_ s1 !! g); bpi_simpl; [done|congruence].
    + intros [= <-]. by eapply FlushPgImp_fault.
  - bpi_simpl. destruct (pages_ s !! g); bpi_simpl; [done|congruence].
Qed.

Lemma FlushPgImp_total p s :
  (∀ q f, page_table_ s !! q = Some f → (f < length (pages_ s))%nat) →
  ∃ b s', FlushPgImp p s = Ok (b, s').
Proof.
  intros Hrange. unfold FlushPgImp.
  destruct (page_table_ s !! p) as [f|] eqn:Hp; [|eauto].
  destruct (page_at_lt s f) as (page & _ & ->); [by eapply Hrange|].
  bpi_simpl. destruct (is_dirty_ page); bpi_simpl; eauto.
Qed.

(** In a well-formed state with a frame to take, [take_frame] returns. *)
Lemma take_frame_total s :
  well_formed s → all_pinned s = false →
  ∃ f s1 page, take_frame s = Ok (f, s1) ∧ pages_ s1 !! f = Some page.
Proof.
  intros Hwf Hpinned.
  assert (Hrange : ∀ q f, page_table_ s !! q = Some f → (f < length (pages_ s))%nat).
  { intros q f Hq. rewrite (wf_pages _ Hwf). by eapply wf_table_range. }
  destruct (take_frame s) as [[f s1]|e] eqn:Htake.
  - exists f, s1.
    destruct (take_frame_static _ _ _ Htake) as (_ & _ & _ & _ & Hlen).
    assert (f < length (pages_ s))%nat as Hlt.
    { revert Htake. unfold take_frame.
      destruct (free_list_ s) as [|f0 rest] eqn:Hfree.
      - rewrite Victim_spec.
        destruct (LRU.list_t_ (replacer_ s)) as [|g rest] eqn:Hrepl; [done|].
        unfold page_at. bpi_simpl. intros Htake.
        assert (g = f) as <-.
        { destruct (pages_ s !! g) as [pg|]; bpi_simpl; [|done].
          destruct (if is_dirty_ pg then _ else _) as [[b s2]|]; bpi_simpl; [|done].
          destruct (pages_ s2 !! g); bpi_simpl; [|done]. by inversion Htake. }
        destruct (wf_repl_table _ Hwf g) as [q Hq]; [rewrite Hrepl; left|].
        by eapply Hrange.
      - intros [= <- <-]. rewrite (wf_pages _ Hwf).
        apply (wf_free_range _ Hwf). rewrite Hfree. left. }
    rewrite <- Hlen in Hlt. destruct (lookup_lt_is_Some_2 _ _ Hlt) as [page Hpage].
    by exists page.
  - exfalso. apply all_pinned_false in Hpinned. revert Htake. unfold take_frame.
    destruct (free_list_ s) as [|f0 rest] eqn:Hfree; [|done].
    rewrite Victim_spec.
    destruct (LRU.list_t_ (replacer_ s)) as [|g rest] eqn:Hrepl.
    { by destruct Hpinned. }
    destruct (wf_repl_table _ Hwf g) as [q Hq]; [rewrite Hrepl; left|].
    destruct (page_at_lt s g) as (page & Hpage & _); [by eapply Hrange|].
    unfold page_at. bpi_simpl. rewrite Hpage. bpi_simpl.
    destruct (is_dirty_ page).
    + destruct (FlushPgImp_total (page_id_ page)
                  (with_replacer (LRU.mkLRU rest (LRU.size (replacer_ s))) s))
        as (b & s2 & Hflush); [done|].
      rewrite Hflush. bpi_simpl.
      apply FlushPgImp_static in Hflush as (_ & _ & _ & _ & Hlen & _).
      bpi_simpl. destruct (lookup_lt_is_Some_2 (pages_ s2) g) as [pg2 ->]; [|done].
      rewrite Hlen. by eapply Hrange.
    + bpi_simpl. by rewrite Hpage.
Qed.

Lemma ValidatePageId_wf s : well_formed s → ValidatePageId s (next_page_id_ s) = true.
Proof. intros Hwf. unfold ValidatePageId. apply Z.eqb_eq. apply Hwf. Qed.

End Exhaustion.

(** C10.  Under the guard that lets [NewPgImp] and [FetchPgImp] reach the
    replacer (empty free list, replacer of non-zero size) the call of
    [Victim] returns a frame id, the least recent member; and in no state at
    all does either function run into the failure branch of [Victim] and
    read a frame id that was not written. *)
Theorem victim_call_succeeds (s : BPI) (p : page_id_t) :
  (free_list_ s = [] → LRU.Size (replacer_ s) ≠ 0%nat →
     ∃ f r, LRU.Victim (replacer_ s) = (Some f, r)
            ∧ head (LRU.list_t_ (replacer_ s)) = Some f)
  ∧ NewPgImp s ≠ Fault UninitFrameId
  ∧ FetchPgImp p s ≠ Fault UninitFrameId.
Proof.
  split_and!.
  - intros _ Hsize. rewrite Victim_spec. unfold LRU.Size in Hsize.
    destruct (LRU.list_t_ (replacer_ s)) as [|f rest]; [done|].
    by exists f, (LRU.mkLRU rest (LRU.size (replacer_ s))).
  - unfold NewPgImp. destruct (all_pinned s) eqn:Hpinned; [done|].
    destruct (take_frame s) as [[f s1]|e] eqn:Htake; bpi_simpl.
    + unfold AllocatePage. destruct (ValidatePageId _ _); bpi_simpl; [|done].
      unfold page_at. bpi_simpl. by destruct (pages_ s1 !! f).
    + apply take_frame_fault in Htake as ->; done.
  - unfold FetchPgImp. destruct (page_table_ s !! p) as [f|].
    { unfold page_at. by destruct (pages_ s !! f). }
    destruct (all_pinned s) eqn:Hpinned; [done|].
    destruct (take_frame s) as [[f s1]|e] eqn:Htake; bpi_simpl.
    + unfold page_at. destruct (pages_ s1 !! f); bpi_simpl; [|done].
      by destruct (Disk.ReadPage _ _ _).
    + apply take_frame_fault in Htake as ->; done.
Qed.

Lemma victim_call_succeeds_witness :
  (∃ f r, LRU.Victim (replacer_ ex_unpinned) = (Some f, r)
          ∧ head (LRU.list_t_ (replacer_ ex_unpinned)) = Some f)
  ∧ NewPgImp ex_unpinned ≠ Fault UninitFrameId
  ∧ FetchPgImp 7 ex_unpinned ≠ Fault UninitFrameId.
Proof.
  destruct (victim_call_succeeds ex_unpinned 7) as (H1 & H2 & H3).
  split_and!; [|done..]. apply H1; [reflexivity|]. by vm_compute.
Defined.

(** C9.  A [NewPgImp] that returns [nullptr] leaves every member of the
    instance as it was, the allocator cursor included; this is what happens
    when the free list and the replacer are both empty. *)
Theorem failed_NewPage_changes_nothing (s : BPI) :
  (free_list_ s = [] → LRU.Size (replacer_ s) = 0%nat → NewPgImp s = Ok (None, s))
  ∧ (∀ s', NewPgImp s = Ok (None, s') →
       s' = s ∧ next_page_id_ s' = next_page_id_ s).
Proof.
  split.
  - intros Hfree Hsize. unfold NewPgImp, all_pinned. by rewrite Hfree, Hsize.
  - intros s' H. unfold NewPgImp in H. destruct (all_pinned s).
    { by inversion H. }
    destruct (take_frame s) as [[f s1]|]; bpi_simpl; [|done].
    destruct (AllocatePage s1) as [[id s2]|]; bpi_simpl; [|done].
    destruct (page_at s2 f); bpi_simpl; done.
Qed.

Lemma failed_NewPage_changes_nothing_witness :
  after 1 Disk.empty [NewPage] = Some ex_pinned
  ∧ NewPgImp ex_pinned = Ok (None, ex_pinned)
  ∧ next_page_id_ ex_pinned = 1.
Proof.
  destruct (failed_NewPage_changes_nothing ex_pinned) as [H1 H2].
  split; [by vm_compute|]. split; [|reflexivity].
  apply H1; reflexivity.
Defined.

Section FreeListFirst.
Implicit Types (s : BPI) (f g : frame_id_t) (p q : page_id_t) (page : Page).

(** A frame of the free list is no member of the replacer when the frames
    are partitioned. *)
Lemma free_not_in_replacer s f :
  well_formed s → frames_partitioned s →
  f ∈ free_list_ s → f ∉ LRU.list_t_ (replacer_ s).
Proof.
  intros Hwf Hpart Hfree Hrepl.
  apply (wf_repl_table _ Hwf) in Hrepl.
  destruct (Hpart f) as [[_ Hno]|[Hno _]]; [by apply (wf_free_range _ Hwf)|done..].
Qed.

Lemma NewPgImp_None_iff s :
  (∃ s', NewPgImp s = Ok (None, s')) ↔ free_list_ s = [] ∧ LRU.list_t_ (replacer_ s) = [].
Proof.
  rewrite <- all_pinned_true. unfold NewPgImp. split.
  - intros [s' H]. destruct (all_pinned s); [done|].
    destruct (take_frame s) as [[f s1]|]; bpi_simpl; [|done].
    destruct (AllocatePage s1) as [[id s2]|]; bpi_simpl; [|done].
    destruct (page_at s2 f); bpi_simpl; done.
  - intros ->. by exists s.
Qed.

Lemma FetchPgImp_None_iff s p :
  page_table_ s !! p = None →
  (∃ s', FetchPgImp p s = Ok (None, s')) ↔ free_list_ s = [] ∧ LRU.list_t_ (replacer_ s) = [].
Proof.
  intros Hmiss. rewrite <- all_pinned_true. unfold FetchPgImp. rewrite Hmiss. split.
  - intros [s' H]. destruct (all_pinned s); [done|].
    destruct (take_frame s) as [[f s1]|]; bpi_simpl; [|done].
    destruct (page_at s1 f); bpi_simpl; [|done].
    by destruct (Disk.ReadPage _ _ _).
  - intros ->. by exists s.
Qed.

End FreeListFirst.

(** The free list comes first, in a well-formed state.  [NewPgImp], and
    [FetchPgImp] for a page id that is not resident, return [nullptr]
    exactly when the free list and the replacer are both empty, and return
    a frame in every other case.  When the free list is not empty the frame
    is the one at its front, the free list loses exactly that frame, and
    the only thing that happens to the replacer is [Pin] of that frame: no
    member is taken by [Victim], and with the frames partitioned the
    replacer is left as it was. *)
Theorem free_list_priority (s : BPI) (p : page_id_t) :
  well_formed s → page_table_ s !! p = None →
  ((∃ s', NewPgImp s = Ok (None, s'))
     ↔ free_list_ s = [] ∧ LRU.list_t_ (replacer_ s) = [])
  ∧ ((∃ s', FetchPgImp p s = Ok (None, s'))
     ↔ free_list_ s = [] ∧ LRU.list_t_ (replacer_ s) = [])
  ∧ (¬ (free_list_ s = [] ∧ LRU.list_t_ (replacer_ s) = []) →
       (∃ id f s', NewPgImp s = Ok (Some (id, f), s'))
       ∧ (∃ f s', FetchPgImp p s = Ok (Some f, s')))
  ∧ (∀ f rest, free_list_ s = f :: rest →
       (∃ s', NewPgImp s = Ok (Some (next_page_id_ s, f), s')
              ∧ free_list_ s' = rest
              ∧ replacer_ s' = LRU.Pin f (replacer_ s)
              ∧ (frames_partitioned s → replacer_ s' = replacer_ s))
       ∧ (∃ s', FetchPgImp p s = Ok (Some f, s')
              ∧ free_list_ s' = rest
              ∧ replacer_ s' = LRU.Pin f (replacer_ s)
              ∧ (frames_partitioned s → replacer_ s' = replacer_ s))).
Proof.
  intros Hwf Hmiss. split_and!.
  - apply NewPgImp_None_iff.
  - by apply FetchPgImp_None_iff.
  - intros Hsome. apply all_pinned_false in Hsome.
    destruct (take_frame_total s Hwf Hsome) as (f & s1 & page & Htake & Hpage).
    split.
    + exists (next_page_id_ s), f. eexists.
      eapply NewPgImp_Some; eauto using ValidatePageId_wf.
    + exists f. eexists. eapply FetchPgImp_miss; eauto.
  - intros f rest Hfree.
    assert (all_pinned s = false) as Hsome.
    { apply all_pinned_false. intros [H _]. congruence. }
    pose proof (take_frame_free s f rest Hfree) as Htake.
    destruct (take_frame_total s Hwf Hsome) as (f' & s1 & page & Htake' & Hpage).
    rewrite Htake in Htake'. injection Htake' as <- <-.
    assert (frames_partitioned s → LRU.Pin f (replacer_ s) = replacer_ s) as Hpin.
    { intros Hpart. apply Pin_absent. apply free_not_in_replacer; [done..|].
      rewrite Hfree. left. }
    split.
    + eexists. split; [eapply NewPgImp_Some; eauto using ValidatePageId_wf|].
      bpi_simpl. done.
    + eexists. split; [eapply FetchPgImp_miss; eauto|]. bpi_simpl. done.
Qed.

Lemma free_list_priority_witness :
  (∃ s', NewPgImp ex_fresh2 = Ok (Some (0, 0%nat), s')
         ∧ free_list_ s' = [1%nat] ∧ replacer_ s' = replacer_ ex_fresh2)
  ∧ (∃ s', FetchPgImp 3 ex_fresh2 = Ok (Some 0%nat, s')
         ∧ free_list_ s' = [1%nat] ∧ replacer_ s' = replacer_ ex_fresh2).
Proof.
  assert (well_formed ex_fresh2) as Hwf.
  { apply well_formed_b_spec. by vm_compute. }
  assert (frames_partitioned ex_fresh2) as Hpart.
  { apply frames_partitioned_b_spec. by vm_compute. }
  destruct (free_list_priority ex_fresh2 3 Hwf (lookup_empty _))
    as (_ & _ & _ & H).
  destruct (H 0%nat [1%nat] eq_refl) as [(s1 & H1 & H2 & _ & H3) (s2 & H4 & H5 & _ & H6)].
  split; [exists s1|exists s2]; auto.
Defined.

(** C5.  A member of the replacer is taken although the free list is not
    empty, in a state that the interface reaches.  [DeletePgImp] puts the
    frame of the deleted page on the free list but leaves the page in the
    page table, so a later [FetchPage] of that page finds the frame, pins
    it, and the [UnpinPage] that follows makes it a member of the replacer
    while it is still on the free list.  On an instance of one frame the
    calls [NewPage], [UnpinPage 0 false], [DeletePage 0], [FetchPage 0],
    [UnpinPage 0 true] all return and lead to [ex_both], which is
    well-formed: frame 0 is at the front of the free list, is the only
    member of the replacer, and is dirty.  There [NewPgImp], and
    [FetchPgImp] of the non-resident page 7, return frame 0; it is popped
    from the free list, but it is a member of the replacer and leaves it,
    and it is given to the new page with its dirty flag cleared and nothing
    written to disk. *)
Theorem free_list_frame_in_replacer :
  after 1 Disk.empty
    [NewPage; UnpinPage 0 false; DeletePage 0; FetchPage 0; UnpinPage 0 true]
    = Some ex_both
  ∧ well_formed ex_both
  ∧ free_list_ ex_both = [0%nat]
  ∧ LRU.list_t_ (replacer_ ex_both) = [0%nat]
  ∧ pages_ ex_both !! 0%nat = Some (mkPage INVALID_PAGE_ID Disk.zero_page 0 true)
  ∧ page_table_ ex_both !! 7 = None
  ∧ (∃ s', NewPgImp ex_both = Ok (Some (1, 0%nat), s')
           ∧ free_list_ s' = []
           ∧ LRU.list_t_ (replacer_ s') = []
           ∧ pages_ s' !! 0%nat = Some (mkPage 1 Disk.zero_page 1 false)
           ∧ Disk.write_log (disk_manager_ s') = [])
  ∧ (∃ s', FetchPgImp 7 ex_both = Ok (Some 0%nat, s')
           ∧ free_list_ s' = []
           ∧ LRU.list_t_ (replacer_ s') = []
           ∧ pages_ s' !! 0%nat = Some (mkPage 7 Disk.zero_page 1 false)
           ∧ Disk.write_log (disk_manager_ s') = []).
Proof.
  split_and!; try (by vm_compute).
  - apply well_formed_b_spec. by vm_compute.
  - eexists; split_and!; by vm_compute.
  - eexists; split_and!; by vm_compute.
Qed.

(** ** The allocator *)

Section Allocator.
Implicit Types (s : BPI) (f g : frame_id_t) (p q : page_id_t) (page : Page).

Lemma flush_entries_static l s s' :
  flush_entries l s = Ok s' →
  pool_size_ s' = pool_size_ s ∧ num_instances_ s' = num_instances_ s
  ∧ instance_index_ s' = instance_index_ s ∧ next_page_id_ s' = next_page_id_ s
  ∧ length (pages_ s') = length (pages_ s) ∧ free_list_ s' = free_list_ s
  ∧ replacer_ s' = replacer_ s ∧ page_table_ s' = page_table_ s.
Proof.
  revert s. induction l as [|v l IH]; intros s; simpl.
  - by intros [= <-].
  - unfold flush_entry, page_at. destruct (pages_ s !! v.2) as [page|]; [|done].
    bpi_simpl. destruct (is_dirty_ page); bpi_simpl; intros H; apply IH in H;
      bpi_simpl; rewrite ?length_alter in H; done.
Qed.

Lemma step_cursor o s r s' : step o s = Ok (r, s') → cursor_step s r s'.
Proof.
  unfold cursor_step. destruct o as [|p|p d|p| |p]; simpl.
  - unfold NewPgImp. destruct (all_pinned s).
    { bpi_simpl. by intros [= <- <-]. }
    destruct (take_frame s) as [[f s1]|] eqn:Htake; bpi_simpl; [|done].
    apply take_frame_static in Htake as (_ & Hn & Hi & Hc & _).
    unfold AllocatePage. destruct (ValidatePageId _ _); bpi_simpl; [|done].
    unfold page_at. bpi_simpl. destruct (pages_ s1 !! f); bpi_simpl; [|done].
    intros [= <- <-]. bpi_simpl. split_and!; congruence.
  - unfold FetchPgImp. destruct (page_table_ s !! p) as [f|].
    { unfold page_at. destruct (pages_ s !! f); bpi_simpl; [|done].
      by intros [= <- <-]. }
    destruct (all_pinned s).
    { bpi_simpl. by intros [= <- <-]. }
    destruct (take_frame s) as [[f s1]|] eqn:Htake; bpi_simpl; [|done].
    apply take_frame_static in Htake as (_ & Hn & Hi & Hc & _).
    unfold page_at. destruct (pages_ s1 !! f); bpi_simpl; [|done].
    destruct (Disk.ReadPage _ _ _). bpi_simpl. intros [= <- <-]. done.
  - unfold UnpinPgImp. destruct (page_table_ s !! p) as [f|]; bpi_simpl.
    2: { by intros [= <- <-]. }
    unfold page_at. destruct (pages_ s !! f) as [page|] eqn:Hpage; bpi_simpl; [|done].
    destruct (pin_count_ page =? 0).
    { by intros [= <- <-]. }
    destruct d; bpi_simpl; rewrite ?list_lookup_alter_eq, Hpage; bpi_simpl;
      simpl; (destruct (_ =? _); intros [= <- <-]; done).
  - destruct (FlushPgImp p s) as [[b s1]|] eqn:Hflush; bpi_simpl; [|done].
    apply FlushPgImp_static in Hflush as (_ & ? & ? & ? & _).
    by intros [= <- <-].
  - unfold FlushAllPgsImp.
    destruct (flush_entries _ s) as [s1|] eqn:Hflush; bpi_simpl; [|done].
    apply flush_entries_static in Hflush as (_ & ? & ? & ? & _).
    by intros [= <- <-].
  - unfold DeletePgImp, DeallocatePage. destruct (page_table_ s !! p) as [f|]; bpi_simpl.
    2: { by intros [= <- <-]. }
    unfold page_at. destruct (pages_ s !! f) as [page|] eqn:Hpage; bpi_simpl; [|done].
    destruct (pin_count_ page =? 0); bpi_simpl.
    2: { by intros [= <- <-]. }
    rewrite !list_lookup_alter_eq, Hpage. bpi_simpl. simpl.
    by intros [= <- <-].
Qed.

Lemma minted_from (n : Z) ops : ∀ s rs s',
  num_instances_ s = n → run ops s = Ok (rs, s') →
  minted rs = (λ k, next_page_id_ s + Z.of_nat k * n) <$> seq 0 (length (minted rs))
  ∧ next_page_id_ s' = next_page_id_ s + Z.of_nat (length (minted rs)) * n
  ∧ num_instances_ s' = n ∧ instance_index_ s' = instance_index_ s.
Proof.
  induction ops as [|o ops IH]; intros s rs s' Hn; simpl.
  - intros [= <- <-]. simpl. split_and!; [done|lia|done..].
  - destruct (step o s) as [[r s1]|] eqn:Hstep; bpi_simpl; [|done].
    destruct (run ops s1) as [[rs1 s2]|] eqn:Hrun; bpi_simpl; [|done].
    intros [= <- <-]. apply step_cursor in Hstep as (Hn1 & Hi1 & Hr).
    destruct (IH s1 rs1 s2) as (Hm & Hc & Hn2 & Hi2); [congruence|done|].
    destruct r as [[[id f]|]| | |]; cbn [minted].
    2-5: rewrite <- Hr; split_and!; [done|done|done|congruence].
    destruct Hr as [-> Hnext]. cbn [length]. split_and!; [|lia|done|congruence].
    cbn [seq fmap list_fmap]. f_equal; [lia|].
    rewrite Hm at 1. rewrite <- fmap_S_seq, <- list_fmap_compose.
    apply list_fmap_ext. intros _ k _. simpl. lia.
Qed.

End Allocator.

(** C8.  On an instance built by the constructor, the ids minted over any
    sequence of calls are [instance_index], [instance_index + num_instances],
    [instance_index + 2 * num_instances], ... in this order; each of them is
    congruent to [instance_index] modulo [num_instances]; and in the state
    reached, [AllocatePage] passes its assertion and returns the next id of
    the progression. *)
Theorem allocated_ids_partition (pool_size : nat) (n idx : Z)
    (disk : Disk.DiskManager) (s0 : BPI) (ops : list op) (rs : list retval)
    (s : BPI) :
  0 ≤ idx →
  create pool_size n idx disk = Ok s0 →
  run ops s0 = Ok (rs, s) →
  minted rs = (λ k, idx + Z.of_nat k * n) <$> seq 0 (length (minted rs))
  ∧ Forall (λ id, id `mod` n = idx) (minted rs)
  ∧ (∃ s', AllocatePage s = Ok (idx + Z.of_nat (length (minted rs)) * n, s')
           ∧ next_page_id_ s' = idx + Z.of_nat (S (length (minted rs))) * n).
Proof.
  intros Hidx Hcreate Hrun. unfold create in Hcreate.
  destruct (Z.ltb_spec 0 n) as [Hn|]; [|done]. simpl in Hcreate.
  destruct (Z.ltb_spec idx n) as [Hlt|]; [|done]. simpl in Hcreate.
  injection Hcreate as <-.
  pose proof (λ H, minted_from n ops _ _ _ H Hrun) as Hfrom.
  destruct Hfrom as (Hm & Hc & Hn' & Hi); [done|].
  bpi_simpl. split_and!.
  - done.
  - rewrite Hm. apply Forall_fmap, Forall_forall. intros k _. simpl.
    rewrite Z.mod_add by lia. apply Z.mod_small. lia.
  - unfold AllocatePage, ValidatePageId. bpi_simpl. rewrite Hc, Hn', Hi.
    rewrite Z.mod_add by lia. rewrite Z.mod_small by lia. rewrite Z.eqb_refl.
    eexists. split; [done|]. bpi_simpl. lia.
Qed.

Lemma allocated_ids_partition_witness :
  ∃ rs s, run [NewPage; UnpinPage 2 false; NewPage; NewPage; FetchPage 2]
              (mkBPI 2 3 2 2 [fresh_page; fresh_page] (LRU.mkLRU [] 2)
                     [0%nat; 1%nat] ∅ Disk.empty) = Ok (rs, s)
          ∧ minted rs = [2; 5; 8]
          ∧ Forall (λ id, id `mod` 3 = 2) (minted rs).
Proof.
  eexists _, _. split; [by vm_compute|].
  assert (0 ≤ 2) as H0 by lia.
  destruct (allocated_ids_partition 2 3 2 Disk.empty _
              [NewPage; UnpinPage 2 false; NewPage; NewPage; FetchPage 2] _ _
              H0 eq_refl ltac:(by vm_compute)) as (H1 & H2 & _).
  split; [|exact H2]. reflexivity.
Defined.

(** ** DeletePage *)


(** C1.  What [DeletePgImp] does for a resident page [p] whose frame has
    [pin_count_ = 0]: it returns true, resets the frame (page id
    [INVALID_PAGE_ID], zeroed data, clean, pin count 0), appends the frame
    to the free list and removes it from the replacer.  It does NOT remove
    the mapping of [p]: the key handed to [erase] is read from the frame
    after the frame's page id was overwritten, so the entry erased is the
    one of [INVALID_PAGE_ID], and [p] stays mapped to the frame. *)
Theorem DeletePgImp_keeps_mapping (s : BPI) (p : page_id_t) (f : frame_id_t)
    (page : Page) :
  page_table_ s !! p = Some f →
  pages_ s !! f = Some page →
  pin_count_ page = 0 →
  p ≠ INVALID_PAGE_ID →
  ∃ s', DeletePgImp p s = Ok (true, s')
        ∧ pages_ s' !! f = Some (mkPage INVALID_PAGE_ID Disk.zero_page 0 false)
        ∧ free_list_ s' = free_list_ s ++ [f]
        ∧ replacer_ s' = LRU.Pin f (replacer_ s)
        ∧ page_table_ s' = delete INVALID_PAGE_ID (page_table_ s)
        ∧ page_table_ s' !! p = Some f.
Proof.
  intros Hp Hpage Hpin Hne. eexists. split.
  { by eapply DeletePgImp_unpinned. }
  bpi_simpl. split_and!; try done.
  - apply list_lookup_insert_eq. by eapply lookup_lt_Some.
  - by rewrite lookup_delete_ne.
Qed.

Lemma DeletePgImp_keeps_mapping_witness :
  after 1 Disk.empty [NewPage; UnpinPage 0 false] = Some ex_unpinned
  ∧ ∃ s', DeletePgImp 0 ex_unpinned = Ok (true, s')
          ∧ free_list_ s' = [0%nat]
          ∧ page_table_ s' !! 0 = Some 0%nat.
Proof.
  split; [by vm_compute|].
  destruct (DeletePgImp_keeps_mapping ex_unpinned 0 0%nat
              (mkPage 0 Disk.zero_page 0 false))
    as (s' & H1 & _ & H2 & _ & _ & H3); [reflexivity..|done|].
  exists s'. split_and!; [exact H1|exact H2|exact H3].
Defined.

(** ** Write-back of a dirty victim *)

(** Write-back where the page table agrees with the victim.  The free list
    is empty, the replacer yields the frame [f], [f] is dirty and is
    registered in the page table under the page id it holds (invariants 2
    and 4 of the data model).  Then the block shared by [NewPgImp] and
    [FetchPgImp] issues exactly one [WritePage], of the bytes of [f] under
    the page id [f] holds, clears the dirty flag while [f] still holds that
    page id and those bytes, and erases that page id from the page table;
    only then do [NewPgImp] and [FetchPgImp] give the frame its new page
    id, issuing no further write. *)
Theorem dirty_victim_written_back (s : BPI) (p : page_id_t) (f : frame_id_t)
    (rest : list frame_id_t) (page : Page) :
  free_list_ s = [] →
  LRU.list_t_ (replacer_ s) = f :: rest →
  pages_ s !! f = Some page →
  is_dirty_ page = true →
  page_table_ s !! page_id_ page = Some f →
  ValidatePageId s (next_page_id_ s) = true →
  page_table_ s !! p = None →
  ∃ s1, take_frame s = Ok (f, s1)
    ∧ Disk.write_log (disk_manager_ s1)
        = Disk.write_log (disk_manager_ s) ++ [(page_id_ page, data_ page)]
    ∧ Disk.stored (disk_manager_ s1) !! page_id_ page = Some (data_ page)
    ∧ pages_ s1 !! f = Some (mkPage (page_id_ page) (data_ page) (pin_count_ page) false)
    ∧ page_table_ s1 = delete (page_id_ page) (page_table_ s)
    ∧ (∃ s', NewPgImp s = Ok (Some (next_page_id_ s, f), s')
             ∧ disk_manager_ s' = disk_manager_ s1
             ∧ pages_ s' !! f = Some (mkPage (next_page_id_ s) Disk.zero_page 1 false)
             ∧ page_table_ s'
                 = map_insert_new (next_page_id_ s) f
                     (delete (page_id_ page) (page_table_ s))
             ∧ (next_page_id_ s ≠ page_id_ page →
                  page_table_ s' !! page_id_ page = None))
    ∧ (∃ s', FetchPgImp p s = Ok (Some f, s')
             ∧ disk_manager_ s' = disk_manager_ s1
             ∧ (∃ page', pages_ s' !! f = Some page' ∧ page_id_ page' = p
                         ∧ pin_count_ page' = 1 ∧ is_dirty_ page' = false)
             ∧ page_table_ s' = <[p := f]> (delete (page_id_ page) (page_table_ s))
             ∧ page_table_ s' !! page_id_ page = None).
Proof.
  intros Hfree Hrepl Hpage Hdirty Htable Hvalid Hmiss.
  pose proof (take_frame_dirty s f rest page Hfree Hrepl Hpage Hdirty Htable) as Htake.
  assert (all_pinned s = false) as Hsome.
  { apply all_pinned_false. intros [_ H]. congruence. }
  assert (f < length (pages_ s))%nat as Hlt by (by eapply lookup_lt_Some).
  eexists. split; [exact Htake|]. bpi_simpl.
  assert (alter (set_is_dirty false) f (pages_ s) !! f
          = Some (mkPage (page_id_ page) (data_ page) (pin_count_ page) false)) as Hpage1.
  { by rewrite list_lookup_alter_eq, Hpage. }
  assert (p ≠ page_id_ page) as Hne by congruence.
  split_and!; try done.
  - simpl. apply lookup_insert_eq.
  - eexists. split; [eapply NewPgImp_Some; eauto|]. bpi_simpl. split_and!; try done.
    + apply list_lookup_insert_eq. by rewrite length_alter.
    + intros Hneq. unfold map_insert_new.
      destruct (delete (page_id_ page) (page_table_ s) !! next_page_id_ s).
      * apply lookup_delete_eq.
      * rewrite lookup_insert_ne by done. apply lookup_delete_eq.
  - eexists. split; [eapply FetchPgImp_miss; eauto|]. bpi_simpl. split_and!; try done.
    + eexists. split; [apply list_lookup_insert_eq; by rewrite length_alter|done].
    + apply map_insert_new_fresh. by rewrite lookup_delete_ne.
    + rewrite map_insert_new_fresh by (by rewrite lookup_delete_ne).
      rewrite lookup_insert_ne by done. apply lookup_delete_eq.
Qed.

Lemma dirty_victim_written_back_witness :
  after 1 Disk.empty [NewPage; UnpinPage 0 true] = Some ex_dirty
  ∧ (∃ s', NewPgImp ex_dirty = Ok (Some (1, 0%nat), s')
           ∧ Disk.write_log (disk_manager_ s') = [(0, Disk.zero_page)]
           ∧ page_table_ s' !! 0 = None)
  ∧ (∃ s', FetchPgImp 7 ex_dirty = Ok (Some 0%nat, s')
           ∧ Disk.write_log (disk_manager_ s') = [(0, Disk.zero_page)]
           ∧ page_table_ s' !! 0 = None).
Proof.
  split; [by vm_compute|].
  destruct (dirty_victim_written_back ex_dirty 7 0%nat []
              (mkPage 0 Disk.zero_page 0 true))
    as (s1 & _ & Hlog & _ & _ & _ & Hnew & Hfetch); [reflexivity..|].
  destruct Hnew as (s' & H1 & H2 & _ & _ & H3).
  destruct Hfetch as (s'' & H4 & H5 & _ & _ & H6).
  split.
  - exists s'. split_and!; [exact H1|by rewrite H2, Hlog|by apply H3].
  - exists s''. split_and!; [exact H4|by rewrite H5, Hlog|exact H6].
Defined.

(** C3.  The write-back of a dirty victim is lost in a state that the
    interface reaches.  The victim is written by [FlushPgImp] of the page id
    it holds, which looks the frame up in the page table; and [DeletePgImp]
    leaves the page table with entries that no longer name the frame that
    holds the page.  On an instance of two frames the calls [NewPage],
    [UnpinPage 0 false], [DeletePage 0], [FetchPage 1], [NewPage],
    [UnpinPage 0 true] all return and lead to [ex_estranged]: the free list
    is empty, frame 0 is the only member of the replacer, it is dirty and
    holds page id 1, and the page table maps page id 1 to frame 1, which is
    clean.  There [NewPgImp], and [FetchPgImp] of the non-resident page 7,
    take frame 0 from the replacer and give it to the new page without any
    [WritePage]: nothing is stored on disk, the contents and the dirty flag
    of frame 0 are gone, and the entry erased from the page table is the
    one of frame 1, which still holds page 1 and is pinned. *)
Theorem dirty_victim_not_written :
  after 2 Disk.empty
    [NewPage; UnpinPage 0 false; DeletePage 0; FetchPage 1; NewPage;
     UnpinPage 0 true] = Some ex_estranged
  ∧ free_list_ ex_estranged = []
  ∧ LRU.Victim (replacer_ ex_estranged) = (Some 0%nat, LRU.mkLRU [] 2)
  ∧ pages_ ex_estranged !! 0%nat = Some (mkPage 1 Disk.zero_page 0 true)
  ∧ page_table_ ex_estranged !! 1 = Some 1%nat
  ∧ page_table_ ex_estranged !! 2 = None
  ∧ page_table_ ex_estranged !! 7 = None
  ∧ (∃ s', NewPgImp ex_estranged = Ok (Some (2, 0%nat), s')
           ∧ Disk.write_log (disk_manager_ s') = []
           ∧ Disk.stored (disk_manager_ s') = ∅
           ∧ pages_ s' !! 0%nat = Some (mkPage 2 Disk.zero_page 1 false)
           ∧ pages_ s' !! 1%nat = Some (mkPage 1 Disk.zero_page 1 false)
           ∧ page_table_ s' !! 1 = None)
  ∧ (∃ s', FetchPgImp 7 ex_estranged = Ok (Some 0%nat, s')
           ∧ Disk.write_log (disk_manager_ s') = []
           ∧ Disk.stored (disk_manager_ s') = ∅
           ∧ pages_ s' !! 0%nat = Some (mkPage 7 Disk.zero_page 1 false)
           ∧ pages_ s' !! 1%nat = Some (mkPage 1 Disk.zero_page 1 false)
           ∧ page_table_ s' !! 1 = None).
Proof.
  split_and!; try (by vm_compute); eexists; split_and!; by vm_compute.
Qed.


(** ** A failing read *)

Section FailedRead.
Implicit Types (s : BPI) (f g : frame_id_t) (p q : page_id_t) (page : Page).

Lemma FlushPgImp_unreadable p s b s' :
  FlushPgImp p s = Ok (b, s') →
  Disk.unreadable (disk_manager_ s') = Disk.unreadable (disk_manager_ s).
Proof.
  unfold FlushPgImp, page_at. destruct (page_table_ s !! p) as [f|].
  2: { by intros [= <- <-]. }
  destruct (pages_ s !! f) as [page|]; bpi_simpl; [|done].
  destruct (is_dirty_ page); bpi_simpl; by intros [= <- <-].
Qed.

(** Where the frame of [take_frame] comes from, and what is left of the
    free list and of the replacer. *)
Lemma take_frame_lists s f s1 :
  take_frame s = Ok (f, s1) →
  Disk.unreadable (disk_manager_ s1) = Disk.unreadable (disk_manager_ s)
  ∧ ((free_list_ s = f :: free_list_ s1 ∧ replacer_ s1 = replacer_ s)
     ∨ (free_list_ s = [] ∧ free_list_ s1 = []
        ∧ LRU.list_t_ (replacer_ s) = f :: LRU.list_t_ (replacer_ s1)
        ∧ LRU.size (replacer_ s1) = LRU.size (replacer_ s))).
Proof.
  unfold take_frame. destruct (free_list_ s) as [|f0 rest] eqn:Hfree.
  2: { intros [= <- <-]. bpi_simpl. split; [done|]. by left. }
  rewrite Victim_spec. destruct (LRU.list_t_ (replacer_ s)) as [|g rest] eqn:Hrepl; [done|].
  unfold page_at. bpi_simpl.
  destruct (pages_ s !! g) as [page|] eqn:Hpage; bpi_simpl; [|done].
  destruct (is_dirty_ page).
  - destruct (FlushPgImp _ _) as [[b s2]|] eqn:Hflush; bpi_simpl; [|done].
    pose proof (FlushPgImp_unreadable _ _ _ _ Hflush) as Hun.
    apply FlushPgImp_static in Hflush as (_ & _ & _ & _ & _ & Hfl & Hrp & _).
    bpi_simpl. destruct (pages_ s2 !! g); bpi_simpl; [|done].
    intros [= <- <-]. bpi_simpl. split; [done|]. right.
    rewrite ?Hfl, ?Hrp, ?Hfree, ?Hrepl. done.
  - bpi_simpl. rewrite Hpage. bpi_simpl. intros [= <- <-]. bpi_simpl.
    split; [done|]. right. by rewrite ?Hfree, ?Hrepl.
Qed.

(** [take_frame] makes no page id resident, and keeps or erases entries of
    the page table but never changes one. *)
Lemma take_frame_but_table s f s1 :
  take_frame s = Ok (f, s1) →
  (∀ q, page_table_ s !! q = None → page_table_ s1 !! q = None)
  ∧ (∀ q g, page_table_ s1 !! q = Some g → page_table_ s !! q = Some g).
Proof.
  unfold take_frame. destruct (free_list_ s).
  2: { by intros [= <- <-]. }
  destruct (LRU.Victim _) as [[v|] r]; [|done]. bpi_simpl.
  destruct (page_at _ v) as [pg|]; bpi_simpl; [|done].
  destruct (if is_dirty_ pg then _ else _) as [[b s2]|] eqn:Hflush; bpi_simpl; [|done].
  assert (page_table_ s2 = page_table_ s) as Htab.
  { destruct (is_dirty_ pg).
    - by apply FlushPgImp_static in Hflush as (_ & _ & _ & _ & _ & _ & _ & ?).
    - by injection Hflush as _ <-. }
  destruct (page_at s2 v) as [pg2|]; bpi_simpl; [|done].
  intros [= <- <-]. bpi_simpl. rewrite Htab. split.
  - intros q Hq. apply lookup_delete_None. by right.
  - intros q g Hq. by apply lookup_delete_Some in Hq as [_ ?].
Qed.

Lemma ReadPage_unreadable p buf (d : Disk.DiskManager) :
  p ∈ Disk.unreadable d → Disk.ReadPage p buf d = (Disk.io_failed, buf).
Proof. intros H. unfold Disk.ReadPage. by rewrite bool_decide_true. Qed.

End FailedRead.

Section Bounded.
Implicit Types (s : BPI) (f g : frame_id_t) (p q : page_id_t) (page : Page).

Lemma create_bounded pool_size n idx disk s :
  0 ≤ idx → create pool_size n idx disk = Ok s → bounded s.
Proof.
  intros Hidx. unfold create.
  destruct (Z.ltb_spec 0 n) as [Hn|]; [|done]. simpl.
  destruct (Z.ltb_spec idx n) as [Hlt|]; [|done]. simpl.
  intros [= <-]. split; bpi_simpl.
  - apply length_replicate.
  - intros f Hf. apply elem_of_seq in Hf. lia.
  - intros f Hf. by apply elem_of_nil in Hf.
  - constructor.
  - intros q f Hq. by rewrite lookup_empty in Hq.
  - done.
  - apply Z.mod_small. lia.
Qed.

Lemma map_insert_new_lookup k v (m : gmap Z frame_id_t) q f :
  map_insert_new k v m !! q = Some f → m !! q = Some f ∨ (q = k ∧ f = v).
Proof.
  unfold map_insert_new. destruct (m !! k); [by left|].
  intros Hq. apply lookup_insert_Some in Hq as [[-> ->]|[_ ?]]; [by right|by left].
Qed.

(** States of the same shape are bounded together. *)
Lemma bounded_same_shape s s' :
  bounded s →
  pool_size_ s' = pool_size_ s → num_instances_ s' = num_instances_ s →
  instance_index_ s' = instance_index_ s → next_page_id_ s' = next_page_id_ s →
  length (pages_ s') = length (pages_ s) → free_list_ s' = free_list_ s →
  replacer_ s' = replacer_ s → page_table_ s' = page_table_ s →
  bounded s'.
Proof.
  intros [] Hps Hn Hi Hc Hlen Hfl Hrp Htab.
  split; rewrite ?Hps, ?Hn, ?Hi, ?Hc, ?Hlen, ?Hfl, ?Hrp, ?Htab; done.
Qed.

Lemma take_frame_bounded s f s1 :
  bounded s → take_frame s = Ok (f, s1) → bounded s1 ∧ (f < pool_size_ s1)%nat.
Proof.
  intros Hbd Htake.
  destruct (take_frame_static _ _ _ Htake) as (Hps & Hn & Hi & Hc & Hlen).
  destruct (take_frame_but_table _ _ _ Htake) as [_ Hsub].
  destruct (take_frame_lists _ _ _ Htake) as [_ Hlists].
  destruct Hbd. split.
  - split; rewrite ?Hps, ?Hn, ?Hi, ?Hc, ?Hlen; try done.
    + intros g Hg. apply bd_free0.
      destruct Hlists as [[-> _]|(_ & Hnil & _)]; [by right|].
      rewrite Hnil in Hg. by apply elem_of_nil in Hg.
    + intros g Hg. apply bd_repl0.
      destruct Hlists as [[_ <-]|(_ & _ & -> & _)]; [done|by right].
    + destruct Hlists as [[_ ->]|(_ & _ & Hrp & _)]; [done|].
      rewrite Hrp in bd_repl_nodup0. by apply NoDup_cons in bd_repl_nodup0 as [_ ?].
    + intros q g Hq. apply Hsub in Hq. by eapply bd_table0.
  - rewrite Hps. destruct Hlists as [[Hfl _]|(_ & _ & Hrp & _)].
    + apply bd_free0. rewrite Hfl. left.
    + apply bd_repl0. rewrite Hrp. left.
Qed.

(** Every call keeps the state bounded. *)
Lemma step_bounded o s r s' : bounded s → step o s = Ok (r, s') → bounded s'.
Proof.
  intros Hbd Hstep.
  destruct o as [|p|p d|p| |p]; simpl in Hstep.
  - destruct (NewPgImp s) as [[r0 s0]|] eqn:Hop; bpi_simpl; [|done].
    injection Hstep as <- <-.
    apply NewPgImp_inv in Hop as [(_ & -> & _)|(f & s1 & pg & Htake & _ & _ & _ & ->)];
      [done|].
    destruct (take_frame_bounded _ _ _ Hbd Htake) as [[] Hf].
    destruct (take_frame_static _ _ _ Htake) as (_ & Hn & Hi & _).
    split; bpi_simpl; try done.
    + by rewrite length_insert.
    + intros g Hg. apply erase_first_subseteq in Hg. auto.
    + by apply erase_first_NoDup.
    + intros q g Hq. apply map_insert_new_lookup in Hq as [Hq|[_ ->]]; [|done].
      by eapply bd_table0.
    + rewrite Hn, Hi. rewrite <- (Z.mul_1_l (num_instances_ s)) at 1.
      rewrite Z.mod_add by (pose proof (bd_instances _ Hbd); lia). apply Hbd.
  - destruct (FetchPgImp p s) as [[r0 s0]|] eqn:Hop; bpi_simpl; [|done].
    injection Hstep as <- <-.
    apply FetchPgImp_inv in Hop
      as [(f & pg & Hp & Hpg & _ & ->)|[(_ & _ & -> & _)
         |(f & s1 & pg & Hmiss & Htake & _ & _ & ->)]]; [|done|].
    + destruct Hbd. split; bpi_simpl; try done.
      * by rewrite length_alter.
      * intros g Hg. apply erase_first_subseteq in Hg. auto.
      * by apply erase_first_NoDup.
    + destruct (take_frame_bounded _ _ _ Hbd Htake) as [[] Hf].
      split; bpi_simpl; try done.
      * by rewrite length_insert.
      * intros g Hg. apply erase_first_subseteq in Hg. auto.
      * by apply erase_first_NoDup.
      * intros q g Hq. apply map_insert_new_lookup in Hq as [Hq|[_ ->]]; [|done].
        by eapply bd_table0.
  - destruct (UnpinPgImp p d s) as [[b s0]|] eqn:Hop; bpi_simpl; [|done].
    injection Hstep as <- <-.
    apply UnpinPgImp_inv in Hop
      as [(_ & _ & ->)|(f & pg & Hp & Hpg & _ & [[_ ->]|[_ ->]])]; [done..|].
    destruct Hbd. split; bpi_simpl; try done.
    + by rewrite length_insert.
    + intros g Hg. destruct (_ =? 0); [|auto].
      apply Unpin_elem in Hg as [->|?]; [by eapply bd_table0|auto].
    + destruct (_ =? 0); [by apply Unpin_NoDup|done].
  - destruct (FlushPgImp p s) as [[b s0]|] eqn:Hop; bpi_simpl; [|done].
    injection Hstep as <- <-.
    apply FlushPgImp_static in Hop as (? & ? & ? & ? & ? & ? & ? & ?).
    by apply (bounded_same_shape s).
  - destruct (FlushAllPgsImp s) as [s0|] eqn:Hop; bpi_simpl; [|done].
    injection Hstep as <- <-.
    apply flush_entries_static in Hop as (? & ? & ? & ? & ? & ? & ? & ?).
    by apply (bounded_same_shape s).
  - destruct (DeletePgImp p s) as [[b s0]|] eqn:Hop; bpi_simpl; [|done].
    injection Hstep as <- <-.
    apply DeletePgImp_inv in Hop
      as [(_ & _ & ->)|(f & pg & Hp & Hpg & [(_ & _ & ->)|(_ & _ & ->)])]; [done..|].
    destruct Hbd. split; bpi_simpl; try done.
    + by rewrite length_insert.
    + intros g Hg. apply elem_of_app in Hg as [?|Hg]; [auto|].
      apply list_elem_of_singleton in Hg as ->. by eapply bd_table0.
    + intros g Hg. apply erase_first_subseteq in Hg. auto.
    + by apply erase_first_NoDup.
    + intros q g Hq. apply lookup_delete_Some in Hq as [_ Hq]. by eapply bd_table0.
Qed.

Lemma run_bounded ops : ∀ s rs s', bounded s → run ops s = Ok (rs, s') → bounded s'.
Proof.
  induction ops as [|o ops IH]; intros s rs s' Hbd; simpl.
  - by intros [= <- <-].
  - destruct (step o s) as [[r s1]|] eqn:Hstep; bpi_simpl; [|done].
    destruct (run ops s1) as [[rs1 s2]|] eqn:Hrun; bpi_simpl; [|done].
    intros [= <- <-]. eapply IH; [|done]. by eapply step_bounded.
Qed.

(** Every state the interface reaches is bounded. *)
Lemma reachable_bounded s : reachable s → bounded s.
Proof.
  intros (pool & n & idx & disk & s0 & ops & rs & Hidx & Hcreate & Hrun).
  eapply run_bounded; [|done]. by eapply create_bounded.
Qed.

(** In a bounded state with a frame to take, [take_frame] returns. *)
Lemma take_frame_total_bounded s :
  bounded s → all_pinned s = false →
  ∃ f s1 page, take_frame s = Ok (f, s1) ∧ pages_ s1 !! f = Some page.
Proof.
  intros Hbd Hpinned.
  assert (Hrange : ∀ q f, page_table_ s !! q = Some f → (f < length (pages_ s))%nat).
  { intros q f Hq. rewrite (bd_pages _ Hbd). by eapply bd_table. }
  destruct (take_frame s) as [[f s1]|e] eqn:Htake.
  - destruct (take_frame_bounded _ _ _ Hbd Htake) as [Hbd1 Hf].
    rewrite <- (bd_pages _ Hbd1) in Hf.
    destruct (lookup_lt_is_Some_2 _ _ Hf) as [page Hpage]. by exists f, s1, page.
  - exfalso. apply all_pinned_false in Hpinned. revert Htake. unfold take_frame.
    destruct (free_list_ s) as [|f0 rest] eqn:Hfree; [|done].
    rewrite Victim_spec.
    destruct (LRU.list_t_ (replacer_ s)) as [|g rest] eqn:Hrepl.
    { by destruct Hpinned. }
    destruct (page_at_lt s g) as (page & Hpage & _).
    { rewrite (bd_pages _ Hbd). apply (bd_repl _ Hbd). rewrite Hrepl. left. }
    unfold page_at. bpi_simpl. rewrite Hpage. bpi_simpl.
    destruct (is_dirty_ page).
    + destruct (FlushPgImp_total (page_id_ page)
                  (with_replacer (LRU.mkLRU rest (LRU.size (replacer_ s))) s))
        as (b & s2 & Hflush); [done|].
      rewrite Hflush. bpi_simpl.
      apply FlushPgImp_static in Hflush as (_ & _ & _ & _ & Hlen & _).
      bpi_simpl. destruct (lookup_lt_is_Some_2 (pages_ s2) g) as [pg2 ->]; [|done].
      rewrite Hlen. by eapply lookup_lt_Some.
    + bpi_simpl. by rewrite Hpage.
Qed.

(** The free list comes first, in every state that the interface reaches.
    [NewPgImp], and [FetchPgImp] of a page that is not resident, return no
    frame exactly when the free list and the replacer are both empty, and
    a frame in every other case; with a non-empty free list the frame is
    the one at its front, the free list loses exactly that frame, and the
    replacer is left as [Pin] of that frame leaves it. *)
Lemma free_list_first_reachable s p :
  reachable s → page_table_ s !! p = None →
  ((∃ s', NewPgImp s = Ok (None, s'))
     ↔ free_list_ s = [] ∧ LRU.list_t_ (replacer_ s) = [])
  ∧ ((∃ s', FetchPgImp p s = Ok (None, s'))
     ↔ free_list_ s = [] ∧ LRU.list_t_ (replacer_ s) = [])
  ∧ (¬ (free_list_ s = [] ∧ LRU.list_t_ (replacer_ s) = []) →
       (∃ id f s', NewPgImp s = Ok (Some (id, f), s'))
       ∧ (∃ f s', FetchPgImp p s = Ok (Some f, s')))
  ∧ (∀ f rest, free_list_ s = f :: rest →
       (∃ s', NewPgImp s = Ok (Some (next_page_id_ s, f), s')
              ∧ free_list_ s' = rest
              ∧ replacer_ s' = LRU.Pin f (replacer_ s))
       ∧ (∃ s', FetchPgImp p s = Ok (Some f, s')
              ∧ free_list_ s' = rest
              ∧ replacer_ s' = LRU.Pin f (replacer_ s))).
Proof.
  intros Hreach Hmiss. apply reachable_bounded in Hreach as Hbd.
  assert (ValidatePageId s (next_page_id_ s) = true) as Hvalid.
  { unfold ValidatePageId. apply Z.eqb_eq. apply Hbd. }
  split_and!.
  - apply NewPgImp_None_iff.
  - by apply FetchPgImp_None_iff.
  - intros Hsome. apply all_pinned_false in Hsome.
    destruct (take_frame_total_bounded s Hbd Hsome) as (f & s1 & page & Htake & Hpage).
    split.
    + exists (next_page_id_ s), f. eexists. eapply NewPgImp_Some; eauto.
    + exists f. eexists. eapply FetchPgImp_miss; eauto.
  - intros f rest Hfree.
    assert (all_pinned s = false) as Hsome.
    { apply all_pinned_false. intros [H _]. congruence. }
    pose proof (take_frame_free s f rest Hfree) as Htake.
    destruct (take_frame_total_bounded s Hbd Hsome) as (f' & s1 & page & Htake' & Hpage).
    rewrite Htake in Htake'. injection Htake' as <- <-.
    split.
    + eexists. split; [eapply NewPgImp_Some; eauto|]. bpi_simpl. done.
    + eexists. split; [eapply FetchPgImp_miss; eauto|]. bpi_simpl. done.
Qed.

End Bounded.

(** C4, as the code has it.  [FetchPgImp] takes no notice of the outcome of
    [ReadPage].  In every state that the interface reaches: when the read
    of a non-resident page [p] fails, returning without the page, and a
    frame is to be had, the call completes as for a successful read.  It
    returns the frame it took; the frame holds page id [p], pin count 1 and
    a clear dirty flag over whatever the read left in the buffer; [p] is
    mapped to the frame in the page table; and the frame is not given
    back: the free list is the list before the call without its first
    element, nothing is appended to it, and the frame is no member of the
    replacer. *)
Theorem failed_read_not_undone (s : BPI) (p : page_id_t) :
  reachable s →
  page_table_ s !! p = None →
  all_pinned s = false →
  p ∈ Disk.unreadable (disk_manager_ s) →
  ∃ f s1 page s',
    take_frame s = Ok (f, s1)
    ∧ pages_ s1 !! f = Some page
    ∧ (Disk.ReadPage p (data_ page) (disk_manager_ s1)).1 = Disk.io_failed
    ∧ FetchPgImp p s = Ok (Some f, s')
    ∧ pages_ s' !! f
        = Some (mkPage p (Disk.ReadPage p (data_ page) (disk_manager_ s1)).2 1 false)
    ∧ page_table_ s' !! p = Some f
    ∧ free_list_ s' = tail (free_list_ s)
    ∧ f ∉ LRU.list_t_ (replacer_ s').
Proof.
  intros Hreach Hmiss Hsome Hbad. apply reachable_bounded in Hreach as Hbd.
  destruct (take_frame_total_bounded s Hbd Hsome) as (f & s1 & page & Htake & Hpage).
  destruct (take_frame_lists _ _ _ Htake) as [Hun Hlists].
  destruct (take_frame_but_table _ _ _ Htake) as [Hsub _].
  destruct (take_frame_bounded _ _ _ Hbd Htake) as [Hbd1 _].
  exists f, s1, page. eexists. split_and!; [done..| |eapply FetchPgImp_miss; eauto| | | |].
  - rewrite ReadPage_unreadable; [done|by rewrite Hun].
  - bpi_simpl. apply list_lookup_insert_eq. by eapply lookup_lt_Some.
  - bpi_simpl. rewrite map_insert_new_fresh by (by apply Hsub).
    apply lookup_insert_eq.
  - bpi_simpl. by destruct Hlists as [[-> _]|(-> & -> & _)].
  - bpi_simpl. apply erase_first_gone, Hbd1.
Qed.

Lemma failed_read_not_undone_witness :
  after 1 ex_bad_disk [NewPage; UnpinPage 0 false; DeletePage 0; DeletePage 0]
    = Some ex_deleted_twice
  ∧ ∃ s', FetchPgImp 5 ex_deleted_twice = Ok (Some 0%nat, s')
          ∧ page_table_ s' !! 5 = Some 0%nat
          ∧ free_list_ s' = [0%nat].
Proof.
  split; [by vm_compute|].
  destruct (failed_read_not_undone ex_deleted_twice 5)
    as (f & s1 & page & s' & Htake & _ & _ & Hfetch & _ & Htab & Hfree & _).
  - exists 1%nat, 1, 0, ex_bad_disk.
    eexists _, [NewPage; UnpinPage 0 false; DeletePage 0; DeletePage 0], _.
    split_and!; [lia|reflexivity|by vm_compute].
  - reflexivity.
  - reflexivity.
  - apply (bool_decide_unpack _). by vm_compute.
  - injection Htake as <- _. by exists s'.
Defined.

(** C4, as the spec states it, fails: on a fresh instance of one frame over
    a disk on which the read of page 5 fails, [FetchPgImp 5] reports no
    failure but returns frame 0, page 5 is left in the page table, and
    frame 0 is back neither in the free list nor in the replacer. *)
Lemma failed_read_rollback_counterexample :
  ∃ s0 s',
    create_single 1 ex_bad_disk = Ok s0
    ∧ page_table_ s0 !! 5 = None
    ∧ (Disk.ReadPage 5 Disk.zero_page (disk_manager_ s0)).1 = Disk.io_failed
    ∧ FetchPgImp 5 s0 = Ok (Some 0%nat, s')
    ∧ page_table_ s' !! 5 = Some 0%nat
    ∧ free_list_ s' = []
    ∧ LRU.list_t_ (replacer_ s') = [].
Proof. eexists _, _. split_and!; by vm_compute. Qed.

(** ** The dirty flag *)

Section Dirty.
Implicit Types (s : BPI) (f g : frame_id_t) (p q : page_id_t) (page : Page).

Lemma flushed_only_refl m ps : flushed_only m [] ps ps.
Proof. intros f page Hpage. exists page. split_and!; auto. Qed.

Lemma flushed_only_trans m l1 l2 ps ps1 ps2 :
  flushed_only m l1 ps ps1 → flushed_only m l2 ps1 ps2 →
  flushed_only m (l1 ++ l2) ps ps2.
Proof.
  intros H1 H2 f page Hpage.
  destruct (H1 f page Hpage) as (page1 & Hp1 & Hid1 & Hd1 & Hc1 & Hf1).
  destruct (H2 f page1 Hp1) as (page2 & Hp2 & Hid2 & Hd2 & Hc2 & Hf2).
  exists page2. split_and!; [done|congruence..|].
  destruct Hf2 as [Hsame|(Hclean & q & Hq & Hin)].
  - destruct Hf1 as [Hsame1|(Hclean1 & q & Hq & Hin)]; [left; congruence|].
    right. split; [congruence|]. exists q. split; [done|].
    apply elem_of_app. by left.
  - right. split; [done|]. exists q. split; [done|].
    apply elem_of_app. right. congruence.
Qed.

Lemma FlushPgImp_flushed q s b s' :
  FlushPgImp q s = Ok (b, s') →
  ∃ l, Disk.write_log (disk_manager_ s') = Disk.write_log (disk_manager_ s) ++ l
       ∧ flushed_only (page_table_ s) l (pages_ s) (pages_ s').
Proof.
  unfold FlushPgImp, page_at. destruct (page_table_ s !! q) as [g|] eqn:Hq.
  2: { intros [= <- <-]. exists []. rewrite app_nil_r. split; [done|].
       apply flushed_only_refl. }
  destruct (pages_ s !! g) as [pg|] eqn:Hpg; bpi_simpl; [|done].
  destruct (is_dirty_ pg) eqn:Hdirty; bpi_simpl; intros [= <- <-].
  2: { exists []. rewrite app_nil_r. split; [done|]. apply flushed_only_refl. }
  exists [(q, data_ pg)]. bpi_simpl. split; [done|].
  intros f page Hpage. destruct (decide (f = g)) as [->|Hne].
  - rewrite list_lookup_alter_eq, Hpage. rewrite Hpg in Hpage. injection Hpage as <-.
    eexists. split; [done|]. bpi_simpl. split_and!; [done..|].
    right. split; [done|]. exists q. split; [done|]. left.
  - rewrite list_lookup_alter_ne by done. exists page. split_and!; auto.
Qed.

Lemma flush_entries_flushed l : ∀ s s',
  (∀ v, v ∈ l → page_table_ s !! v.1 = Some v.2) →
  flush_entries l s = Ok s' →
  ∃ l', Disk.write_log (disk_manager_ s') = Disk.write_log (disk_manager_ s) ++ l'
        ∧ flushed_only (page_table_ s) l' (pages_ s) (pages_ s').
Proof.
  induction l as [|v l IH]; intros s s' Hin; simpl.
  { intros [= <-]. exists []. rewrite app_nil_r. split; [done|].
    apply flushed_only_refl. }
  destruct (flush_entry v s) as [s1|] eqn:Hentry; bpi_simpl; [|done].
  intros Hrest.
  assert (FlushPgImp v.1 s = Ok (true, s1)) as Hflush.
  { unfold FlushPgImp. rewrite (Hin v) by left. revert Hentry.
    unfold flush_entry. destruct (page_at s v.2) as [pg|]; bpi_simpl; [|done].
    destruct (is_dirty_ pg); bpi_simpl; by intros [= <-]. }
  destruct (FlushPgImp_flushed _ _ _ _ Hflush) as (l1 & Hlog1 & Hfl1).
  apply FlushPgImp_static in Hflush as (_ & _ & _ & _ & _ & _ & _ & Htab).
  destruct (IH s1 s') as (l2 & Hlog2 & Hfl2); [|done|].
  { intros w Hw. rewrite Htab. apply Hin. by right. }
  exists (l1 ++ l2). split.
  - by rewrite Hlog2, Hlog1, app_assoc.
  - rewrite Htab in Hfl2. by eapply flushed_only_trans.
Qed.

Lemma take_frame_flushed s f0 s1 :
  take_frame s = Ok (f0, s1) →
  ∃ l, Disk.write_log (disk_manager_ s1) = Disk.write_log (disk_manager_ s) ++ l
       ∧ flushed_only (page_table_ s) l (pages_ s) (pages_ s1).
Proof.
  unfold take_frame. destruct (free_list_ s) as [|g0 rest].
  2: { intros [= <- <-]. exists []. rewrite app_nil_r. split; [done|].
       apply flushed_only_refl. }
  destruct (LRU.Victim _) as [[v|] r]; [|done]. bpi_simpl.
  destruct (page_at _ v) as [pg|]; bpi_simpl; [|done].
  destruct (is_dirty_ pg).
  - destruct (FlushPgImp _ _) as [[b s2]|] eqn:Hflush; bpi_simpl; [|done].
    apply FlushPgImp_flushed in Hflush as (l & Hlog & Hfl). bpi_simpl.
    destruct (page_at s2 v); bpi_simpl; [|done].
    intros [= <- <-]. exists l. done.
  - bpi_simpl. destruct (page_at _ v); bpi_simpl; [|done].
    intros [= <- <-]. exists []. rewrite app_nil_r. split; [done|].
    apply flushed_only_refl.
Qed.

(** A dirty flag that [flushed_only] saw cleared was cleared by a write. *)
Lemma flushed_only_cleared m l ps ps' f page page' :
  flushed_only m l ps ps' →
  ps !! f = Some page → is_dirty_ page = true →
  ps' !! f = Some page' → is_dirty_ page' = false →
  ∃ q, m !! q = Some f ∧ (q, data_ page) ∈ l.
Proof.
  intros Hfl Hpage Hdirty Hpage' Hclean.
  destruct (Hfl f page Hpage) as (pg & Hpg & _ & _ & _ & Hcase).
  rewrite Hpage' in Hpg. injection Hpg as <-.
  destruct Hcase as [Hsame|[_ ?]]; [congruence|done].
Qed.

(** [UnpinPgImp] of a resident pinned page returns true and only ever sets
    the dirty flag: the flag afterwards is [d || is_dirty_]. *)
Lemma UnpinPgImp_dirty s p f page d :
  page_table_ s !! p = Some f → pages_ s !! f = Some page → 0 < pin_count_ page →
  ∃ s', UnpinPgImp p d s = Ok (true, s')
        ∧ pages_ s' !! f
            = Some (mkPage (page_id_ page) (data_ page) (pin_count_ page - 1)
                           (d || is_dirty_ page)).
Proof.
  intros Hp Hpage Hpin.
  destruct (UnpinPgImp p d s) as [[b s']|e] eqn:Hunpin.
  - apply UnpinPgImp_inv in Hunpin as [(Hnone & _)|(f' & page' & Hp' & Hpage' & -> & Hcase)];
      [congruence|].
    rewrite Hp in Hp'. injection Hp' as <-.
    rewrite Hpage in Hpage'. injection Hpage' as <-.
    destruct Hcase as [[Hz _]|[_ ->]]; [lia|].
    eexists. split; [done|]. bpi_simpl.
    apply list_lookup_insert_eq. by eapply lookup_lt_Some.
  - exfalso. revert Hunpin. unfold UnpinPgImp, page_at. rewrite Hp, Hpage. bpi_simpl.
    destruct (Z.eqb_spec (pin_count_ page) 0); [done|].
    destruct d; bpi_simpl; rewrite ?list_lookup_alter_eq, Hpage; done.
Qed.

(** What can clear a dirty flag over one call. *)
Lemma dirty_cleared_by o s r s' f page page' :
  step o s = Ok (r, s') →
  pages_ s !! f = Some page → is_dirty_ page = true →
  pages_ s' !! f = Some page' → is_dirty_ page' = false →
  (∃ q, page_table_ s !! q = Some f ∧ written s s' q (data_ page))
  ∨ reuses o s r f.
Proof.
  intros Hstep Hpage Hdirty Hpage' Hclean.
  assert (∀ s1 l (g : frame_id_t) (x : Page) (r0 : LRU.LRUReplacer)
            (fl : list frame_id_t) (m : gmap Z frame_id_t) (c : Z),
    Disk.write_log (disk_manager_ s1) = Disk.write_log (disk_manager_ s) ++ l →
    flushed_only (page_table_ s) l (pages_ s) (pages_ s1) →
    s' = mkBPI (pool_size_ s1) (num_instances_ s1) (instance_index_ s1) c
           (<[g := x]> (pages_ s1)) r0 fl m (disk_manager_ s1) →
    g = f ∨ ∃ q, page_table_ s !! q = Some f ∧ written s s' q (data_ page)) as Htaken.
  { intros s1 l g x r0 fl m c Hlog Hfl ->. bpi_simpl.
    destruct (decide (g = f)) as [?|Hne]; [by left|right].
    rewrite list_lookup_insert_ne in Hpage' by done.
    destruct (flushed_only_cleared _ _ _ _ _ _ _ Hfl Hpage Hdirty Hpage' Hclean)
      as (q & Hq & Hin).
    exists q. split; [done|]. exists l. done. }
  destruct o as [|p|p d|p| |p]; simpl in Hstep.
  - destruct (NewPgImp s) as [[r0 s0]|] eqn:Hnew; bpi_simpl; [|done].
    injection Hstep as <- <-.
    apply NewPgImp_inv in Hnew as [(-> & -> & _)|(g & s1 & pg & Htake & _ & _ & -> & Hs')].
    { congruence. }
    destruct (take_frame_flushed _ _ _ Htake) as (l & Hlog & Hfl).
    destruct (Htaken _ _ _ _ _ _ _ _ Hlog Hfl Hs') as [->|?]; [by right|by left].
  - destruct (FetchPgImp p s) as [[r0 s0]|] eqn:Hfetch; bpi_simpl; [|done].
    injection Hstep as <- <-.
    apply FetchPgImp_inv in Hfetch
      as [(g & pg & Hp & Hpg & -> & ->)|[(_ & -> & -> & _)
         |(g & s1 & pg & Hmiss & Htake & _ & -> & Hs')]].
    + exfalso. revert Hpage'. bpi_simpl. destruct (decide (g = f)) as [->|Hne].
      * rewrite list_lookup_alter_eq, Hpage. intros [= <-]. simpl in Hclean. congruence.
      * rewrite list_lookup_alter_ne by done. congruence.
    + congruence.
    + destruct (take_frame_flushed _ _ _ Htake) as (l & Hlog & Hfl).
      destruct (Htaken _ _ _ _ _ _ _ _ Hlog Hfl Hs') as [->|?]; [by right|by left].
  - destruct (UnpinPgImp p d s) as [[b s0]|] eqn:Hunpin; bpi_simpl; [|done].
    injection Hstep as <- <-. exfalso.
    apply UnpinPgImp_inv in Hunpin
      as [(_ & _ & ->)|(g & pg & Hp & Hpg & _ & [[_ ->]|[_ ->]])]; [congruence..|].
    revert Hpage'. bpi_simpl. destruct (decide (g = f)) as [->|Hne].
    + rewrite list_lookup_insert_eq by (by eapply lookup_lt_Some).
      intros [= <-]. rewrite Hpage in Hpg. injection Hpg as <-.
      simpl in Hclean. rewrite Hdirty in Hclean. by destruct d.
    + rewrite list_lookup_insert_ne by done. congruence.
  - destruct (FlushPgImp p s) as [[b s0]|] eqn:Hflush; bpi_simpl; [|done].
    injection Hstep as <- <-. left.
    apply FlushPgImp_flushed in Hflush as (l & Hlog & Hfl).
    destruct (flushed_only_cleared _ _ _ _ _ _ _ Hfl Hpage Hdirty Hpage' Hclean)
      as (q & Hq & Hin).
    exists q. split; [done|]. by exists l.
  - destruct (FlushAllPgsImp s) as [s0|] eqn:Hflush; bpi_simpl; [|done].
    injection Hstep as <- <-. left.
    apply flush_entries_flushed in Hflush as (l & Hlog & Hfl).
    2: { intros [q g] Hin. by apply elem_of_map_to_list in Hin. }
    destruct (flushed_only_cleared _ _ _ _ _ _ _ Hfl Hpage Hdirty Hpage' Hclean)
      as (q & Hq & Hin).
    exists q. split; [done|]. by exists l.
  - destruct (DeletePgImp p s) as [[b s0]|] eqn:Hdel; bpi_simpl; [|done].
    injection Hstep as <- <-.
    apply DeletePgImp_inv in Hdel
      as [(_ & _ & ->)|(g & pg & Hp & Hpg & [(_ & _ & ->)|(_ & -> & ->)])];
      [congruence..|].
    right. simpl. revert Hpage'. bpi_simpl. destruct (decide (g = f)) as [->|Hne].
    + done.
    + rewrite list_lookup_insert_ne by done. congruence.
Qed.

End Dirty.

(** What sets and what clears the dirty flag.  For a resident page whose
    frame is pinned, [UnpinPgImp] with [is_dirty = true] sets the dirty
    flag of the frame and with [is_dirty = false] leaves the flag as it
    was.  And a dirty flag, once set, stays set over every call of the
    interface but for three kinds: a call that wrote the bytes of the frame
    to disk under a page id that the page table maps to the frame, a
    [DeletePage] that reset the frame, and a [NewPage] or a [FetchPage] of
    a non-resident page that took the frame for another page. *)
Theorem dirty_is_sticky :
  (∀ (s : BPI) (p : page_id_t) (f : frame_id_t) (page : Page) (d : bool),
     page_table_ s !! p = Some f → pages_ s !! f = Some page → 0 < pin_count_ page →
     ∃ s' page', UnpinPgImp p d s = Ok (true, s') ∧ pages_ s' !! f = Some page'
                 ∧ (d = true → is_dirty_ page' = true)
                 ∧ (d = false → is_dirty_ page' = is_dirty_ page))
  ∧ (∀ (o : op) (s : BPI) (r : retval) (s' : BPI) (f : frame_id_t)
       (page page' : Page),
       step o s = Ok (r, s') →
       pages_ s !! f = Some page → is_dirty_ page = true →
       pages_ s' !! f = Some page' → is_dirty_ page' = false →
       (∃ q, page_table_ s !! q = Some f ∧ written s s' q (data_ page))
       ∨ reuses o s r f).
Proof.
  split.
  - intros s p f page d Hp Hpage Hpin.
    destruct (UnpinPgImp_dirty s p f page d Hp Hpage Hpin) as (s' & Hunpin & Hpage').
    exists s'. eexists. split_and!; [done..| |]; intros ->; done.
  - apply dirty_cleared_by.
Qed.

Lemma dirty_is_sticky_witness :
  (∃ s' page', UnpinPgImp 0 true ex_pinned = Ok (true, s')
               ∧ pages_ s' !! 0%nat = Some page' ∧ is_dirty_ page' = true)
  ∧ (∃ s', step (FlushPage 0) ex_dirty = Ok (RBool true, s')
           ∧ ((∃ q, page_table_ ex_dirty !! q = Some 0%nat
                    ∧ written ex_dirty s' q Disk.zero_page)
              ∨ reuses (FlushPage 0) ex_dirty (RBool true) 0%nat)).
Proof.
  destruct dirty_is_sticky as [Hunpin Hsticky]. split.
  - destruct (Hunpin ex_pinned 0 0%nat (mkPage 0 Disk.zero_page 1 false) true)
      as (s' & page' & H1 & H2 & H3 & _); [reflexivity|reflexivity|simpl; lia|].
    exists s', page'. split_and!; [done|done|by apply H3].
  - eexists. split; [by vm_compute|].
    eapply (Hsticky (FlushPage 0) ex_dirty (RBool true) _ 0%nat
              (mkPage 0 Disk.zero_page 0 true) (mkPage 0 Disk.zero_page 0 false));
      by vm_compute.
Defined.

(** C7.  A dirty flag is cleared although the page is not flushed and the
    frame is neither reset nor reused, in a state that the interface
    reaches.  [UnpinPgImp] itself does what the claim says of it
    ([UnpinPgImp_dirty]); but [DeletePgImp] leaves the deleted page in the
    page table, so two page ids can be mapped to one frame, and
    [FlushPgImp] of the stale one writes the frame under the stale id and
    clears the flag.  On an instance of one frame the calls [FetchPage 5],
    [UnpinPage 5 false], [DeletePage 5], [FetchPage 3] all return and lead
    to [ex_held], where frame 0 holds page 3, pinned and clean;
    [UnpinPage 3 true] returns true, sets the flag and leads to
    [ex_alias].  There [FlushPage 5] returns true: frame 0 still holds
    page 3 with the same bytes, but its dirty flag is clear; the one write
    issued is under page id 5, and nothing is stored for page 3. *)
Theorem dirty_flag_cleared_by_stale_flush :
  after 1 Disk.empty [FetchPage 5; UnpinPage 5 false; DeletePage 5; FetchPage 3]
    = Some ex_held
  ∧ pages_ ex_held !! 0%nat = Some (mkPage 3 Disk.zero_page 1 false)
  ∧ step (UnpinPage 3 true) ex_held = Ok (RBool true, ex_alias)
  ∧ pages_ ex_alias !! 0%nat = Some (mkPage 3 Disk.zero_page 0 true)
  ∧ page_table_ ex_alias !! 3 = Some 0%nat
  ∧ page_table_ ex_alias !! 5 = Some 0%nat
  ∧ ∃ s', step (FlushPage 5) ex_alias = Ok (RBool true, s')
          ∧ pages_ s' !! 0%nat = Some (mkPage 3 Disk.zero_page 0 false)
          ∧ page_table_ s' = page_table_ ex_alias
          ∧ free_list_ s' = free_list_ ex_alias
          ∧ replacer_ s' = replacer_ ex_alias
          ∧ Disk.write_log (disk_manager_ s') = [(5, Disk.zero_page)]
          ∧ Disk.stored (disk_manager_ s') !! 3 = None.
Proof.
  split_and!; try (by vm_compute). eexists; split_and!; by vm_compute.
Qed.

(** ** The invariants over the calls *)

Section Preservation.
Implicit Types (s : BPI) (f g : frame_id_t) (p q : page_id_t) (page : Page).

(** The constructor establishes the invariants. *)
Lemma create_Invariants pool_size n idx disk s :
  0 ≤ idx → create pool_size n idx disk = Ok s → Invariants s.
Proof.
  intros Hidx. unfold create.
  destruct (Z.ltb_spec 0 n) as [Hn|]; [|done]. simpl.
  destruct (Z.ltb_spec idx n) as [Hlt|]; [|done]. simpl.
  intros [= <-]. split_and!.
  - intros f Hf. left. bpi_simpl. split.
    + apply elem_of_seq. lia.
    + intros [q Hq]. bpi_simpl. by rewrite lookup_empty in Hq.
  - intros q f Hq. bpi_simpl. by rewrite lookup_empty in Hq.
  - split; bpi_simpl.
    + apply length_replicate.
    + apply NoDup_seq.
    + intros f Hf. apply elem_of_seq in Hf. lia.
    + constructor.
    + intros f Hf. by apply elem_of_nil in Hf.
    + intros q f Hq. by rewrite lookup_empty in Hq.
    + done.
    + apply Z.mod_small. lia.
Qed.

(** Calls that change the frames only in what they hold besides the page
    id, and the replacer only within the page table, keep the invariants. *)
Lemma Invariants_same_shape s s' :
  Invariants s →
  pool_size_ s' = pool_size_ s → num_instances_ s' = num_instances_ s →
  instance_index_ s' = instance_index_ s → next_page_id_ s' = next_page_id_ s →
  free_list_ s' = free_list_ s → page_table_ s' = page_table_ s →
  length (pages_ s') = length (pages_ s) →
  (∀ f page, pages_ s !! f = Some page →
     ∃ page', pages_ s' !! f = Some page' ∧ page_id_ page' = page_id_ page) →
  NoDup (LRU.list_t_ (replacer_ s')) →
  (∀ f, f ∈ LRU.list_t_ (replacer_ s') → in_page_table s f) →
  Invariants s'.
Proof.
  intros (Hpart & Hagree & Hwf) Hps Hn Hi Hc Hfl Htab Hlen Hpages Hnd Hsub.
  assert (∀ f, in_page_table s' f ↔ in_page_table s f) as Hin.
  { intros f. unfold in_page_table. by rewrite Htab. }
  split_and!.
  - intros f Hf. rewrite Hfl, Hin. apply Hpart. by rewrite <- Hps.
  - intros q f Hq. rewrite Htab in Hq.
    destruct (Hagree q f Hq) as (page & Hpage & Hid).
    destruct (Hpages f page Hpage) as (page' & Hpage' & Hid').
    exists page'. split; [done|congruence].
  - destruct Hwf. split.
    + congruence.
    + by rewrite Hfl.
    + rewrite Hfl, Hps. done.
    + done.
    + intros f Hf. apply Hin. by apply Hsub.
    + rewrite Htab, Hps. done.
    + by rewrite Hn.
    + by rewrite Hc, Hn, Hi.
Qed.

(** The page table names each frame once. *)
Lemma table_injective s q q' f :
  table_agrees s → page_table_ s !! q = Some f → page_table_ s !! q' = Some f → q = q'.
Proof.
  intros Hagree Hq Hq'.
  destruct (Hagree q f Hq) as (page & Hpage & <-).
  destruct (Hagree q' f Hq') as (page' & Hpage' & <-). congruence.
Qed.

(** What [take_frame] leaves when the replacer gives the frame. *)
Lemma take_frame_victim s f rest :
  Invariants s → free_list_ s = [] → LRU.list_t_ (replacer_ s) = f :: rest →
  ∃ q page s1,
    page_table_ s !! q = Some f ∧ pages_ s !! f = Some page ∧ page_id_ page = q
    ∧ take_frame s = Ok (f, s1)
    ∧ pool_size_ s1 = pool_size_ s ∧ num_instances_ s1 = num_instances_ s
    ∧ instance_index_ s1 = instance_index_ s ∧ next_page_id_ s1 = next_page_id_ s
    ∧ free_list_ s1 = [] ∧ LRU.list_t_ (replacer_ s1) = rest
    ∧ page_table_ s1 = delete q (page_table_ s)
    ∧ length (pages_ s1) = length (pages_ s)
    ∧ (∀ g pg, pages_ s !! g = Some pg →
         ∃ pg', pages_ s1 !! g = Some pg' ∧ page_id_ pg' = page_id_ pg).
Proof.
  intros (Hpart & Hagree & Hwf) Hfree Hrepl.
  destruct (wf_repl_table _ Hwf f) as [q Hq]; [rewrite Hrepl; left|].
  destruct (Hagree q f Hq) as (page & Hpage & Hid).
  exists q, page. destruct (is_dirty_ page) eqn:Hdirty.
  - eexists. split_and!; [done..| | | | | | | | | |].
    { apply take_frame_dirty with (rest := rest); [done..|by rewrite Hid]. }
    all: bpi_simpl; try done.
    + by rewrite Hid.
    + apply length_alter.
    + intros g pg Hpg. destruct (decide (g = f)) as [->|Hne].
      * rewrite list_lookup_alter_eq, Hpg. by eexists.
      * rewrite list_lookup_alter_ne by done. by exists pg.
  - eexists. split_and!; [done..| | | | | | | | | |].
    { by apply take_frame_clean with (rest := rest). }
    all: bpi_simpl; try done.
    + by rewrite Hid.
    + intros g pg Hpg. by exists pg.
Qed.

(** After [take_frame] the invariants hold but for the frame taken, and no
    page id became resident. *)
Lemma take_frame_but s f s1 :
  Invariants s → take_frame s = Ok (f, s1) →
  Invariants_but f s1
  ∧ (∀ q, page_table_ s !! q = None → page_table_ s1 !! q = None).
Proof.
  intros Hinv Htake. pose proof Hinv as (Hpart & Hagree & Hwf).
  destruct (free_list_ s) as [|f0 rest] eqn:Hfree.
  - destruct (LRU.list_t_ (replacer_ s)) as [|g rest] eqn:Hrepl.
    { exfalso. apply take_frame_Ok_some in Htake. apply all_pinned_false in Htake.
      by apply Htake. }
    destruct (take_frame_victim s g rest Hinv Hfree Hrepl)
      as (q & page & s2 & Hq & Hpage & Hid & Htake' & Hps & Hn & Hi & Hc & Hfl
          & Hrp & Htab & Hlen & Hpages).
    rewrite Htake in Htake'. injection Htake' as <- <-.
    assert (f < pool_size_ s)%nat as Hlt by (by eapply wf_table_range).
    assert (f ∉ rest) as Hnotin.
    { pose proof (wf_repl_nodup _ Hwf) as Hnd. rewrite Hrepl in Hnd.
      by apply NoDup_cons in Hnd as [? _]. }
    assert (∀ g, in_page_table s1 g ↔ in_page_table s g ∧ g ≠ f) as Hin.
    { intros g. unfold in_page_table. rewrite Htab. split.
      - intros [q' Hq']. apply lookup_delete_Some in Hq' as [Hne Hq'].
        split; [by exists q'|]. intros ->. apply Hne.
        by eapply table_injective.
      - intros [[q' Hq'] Hne]. exists q'. apply lookup_delete_Some.
        split; [|done]. intros <-. congruence. }
    split.
    + split.
      * by rewrite Hps.
      * rewrite Hfl. apply not_elem_of_nil.
      * rewrite Hin. tauto.
      * by rewrite Hrp.
      * intros g Hne Hg. rewrite Hps in Hg. rewrite Hfl, Hin.
        destruct (Hpart g Hg) as [[Hgf _]|[_ Hgt]].
        -- rewrite Hfree in Hgf. by apply elem_of_nil in Hgf.
        -- right. split; [apply not_elem_of_nil|done].
      * intros q' g Hq'. rewrite Htab in Hq'.
        apply lookup_delete_Some in Hq' as [_ Hq'].
        destruct (Hagree q' g Hq') as (pg & Hpg & Hidg).
        destruct (Hpages g pg Hpg) as (pg' & Hpg' & Hidg').
        exists pg'. split; [done|congruence].
      * destruct Hwf. split.
        -- congruence.
        -- rewrite Hfl. constructor.
        -- rewrite Hfl. intros g Hg. by apply elem_of_nil in Hg.
        -- rewrite Hrp. rewrite Hrepl in wf_repl_nodup0.
           by apply NoDup_cons in wf_repl_nodup0 as [_ ?].
        -- rewrite Hrp. intros g Hg. apply Hin. split.
           ++ apply wf_repl_table0. rewrite Hrepl. by right.
           ++ intros ->. done.
        -- rewrite Htab, Hps. intros q' g Hq'.
           apply lookup_delete_Some in Hq' as [_ Hq']. by eapply wf_table_range0.
        -- by rewrite Hn.
        -- by rewrite Hc, Hn, Hi.
    + intros q' Hq'. rewrite Htab. apply lookup_delete_None. by right.
  - rewrite (take_frame_free s f0 rest Hfree) in Htake. injection Htake as <- <-.
    assert (f0 ∈ free_list_ s) as Hin by (rewrite Hfree; left).
    assert (f0 ∉ rest) as Hnotin.
    { pose proof (wf_free_nodup _ Hwf) as Hnd. rewrite Hfree in Hnd.
      by apply NoDup_cons in Hnd as [? _]. }
    assert (f0 < pool_size_ s)%nat as Hlt by (by apply (wf_free_range _ Hwf)).
    split; [|done]. split; bpi_simpl.
    + done.
    + done.
    + destruct (Hpart f0 Hlt) as [[_ ?]|[? _]]; done.
    + by apply free_not_in_replacer.
    + intros g Hne Hg. unfold in_page_table. bpi_simpl.
      destruct (Hpart g Hg) as [[Hgf Hgt]|[Hgf Hgt]].
      * left. split; [|done]. rewrite Hfree in Hgf.
        apply elem_of_cons in Hgf as [?|?]; done.
      * right. split; [|done]. intros Hg'. apply Hgf. rewrite Hfree. by right.
    + done.
    + destruct Hwf. split; bpi_simpl; try done.
      * rewrite Hfree in wf_free_nodup0. by apply NoDup_cons in wf_free_nodup0 as [_ ?].
      * intros g Hg. apply wf_free_range0. rewrite Hfree. by right.
Qed.

(** Giving the frame taken a page id that is not resident restores the
    invariants. *)
Lemma assign_Invariants f s1 p page' c :
  Invariants_but f s1 → page_table_ s1 !! p = None → page_id_ page' = p →
  c `mod` num_instances_ s1 = instance_index_ s1 →
  Invariants
    (mkBPI (pool_size_ s1) (num_instances_ s1) (instance_index_ s1) c
       (<[f := page']> (pages_ s1)) (LRU.Pin f (replacer_ s1)) (free_list_ s1)
       (map_insert_new p f (page_table_ s1)) (disk_manager_ s1)).
Proof.
  intros [Hlt Hnfree Hntab Hnrepl Hpart Hagree Hwf] Hfresh Hid Hcursor.
  rewrite map_insert_new_fresh by done. rewrite Pin_absent by done.
  set (s' := mkBPI _ _ _ _ _ _ _ _ _).
  assert (f < length (pages_ s1))%nat as Hlen by (by rewrite (wf_pages _ Hwf)).
  assert (in_page_table s' f) as Hf by (exists p; apply lookup_insert_eq).
  assert (∀ g, g ≠ f → in_page_table s' g ↔ in_page_table s1 g) as Hin.
  { intros g Hne. unfold in_page_table, s'. bpi_simpl. split; intros [q Hq]; exists q.
    - apply lookup_insert_Some in Hq as [[_ ?]|[_ ?]]; [congruence|done].
    - rewrite lookup_insert_ne; [done|]. intros <-. congruence. }
  split_and!.
  - intros g Hg. destruct (decide (g = f)) as [->|Hne].
    + right. done.
    + rewrite Hin by done. by apply Hpart.
  - intros q g Hq. unfold s' in *. bpi_simpl.
    apply lookup_insert_Some in Hq as [[<- <-]|[Hne Hq]].
    + exists page'. split; [by apply list_lookup_insert_eq|done].
    + assert (g ≠ f) as Hgf.
      { intros ->. apply Hntab. by exists q. }
      rewrite list_lookup_insert_ne by done. by apply Hagree.
  - destruct Hwf. split; unfold s'; bpi_simpl; try done.
    + by rewrite length_insert.
    + intros g Hg. destruct (decide (g = f)) as [->|Hne]; [done|].
      apply Hin; [done|]. by apply wf_repl_table0.
    + intros q g Hq. apply lookup_insert_Some in Hq as [[_ <-]|[_ Hq]]; [done|].
      by eapply wf_table_range0.
Qed.

Lemma table_entries s (v : Z * frame_id_t) :
  v ∈ map_to_list (page_table_ s) → page_table_ s !! v.1 = Some v.2.
Proof. destruct v as [q f]. apply elem_of_map_to_list. Qed.

(** In a well-formed state every call returns. *)
Lemma flush_entries_total l : ∀ s,
  (∀ v, v ∈ l → (v.2 < length (pages_ s))%nat) → ∃ s', flush_entries l s = Ok s'.
Proof.
  induction l as [|v l IH]; intros s Hrange; simpl; [by eexists|].
  destruct (page_at_lt s v.2) as (page & Hpage & Hat); [apply Hrange; left|].
  unfold flush_entry. rewrite Hat. bpi_simpl.
  destruct (is_dirty_ page); bpi_simpl; apply IH; intros w Hw; bpi_simpl;
    rewrite ?length_alter; apply Hrange; by right.
Qed.

Lemma step_total o s : well_formed s → ∃ r s', step o s = Ok (r, s').
Proof.
  intros Hwf.
  assert (Hrange : ∀ q f, page_table_ s !! q = Some f → (f < length (pages_ s))%nat).
  { intros q f Hq. rewrite (wf_pages _ Hwf). by eapply wf_table_range. }
  destruct o as [|p|p d|p| |p]; simpl.
  - destruct (all_pinned s) eqn:Hpinned.
    { unfold NewPgImp. rewrite Hpinned. bpi_simpl. by eexists _, _. }
    destruct (take_frame_total s Hwf Hpinned) as (f & s1 & page & Htake & Hpage).
    erewrite NewPgImp_Some by eauto using ValidatePageId_wf.
    bpi_simpl. by eexists _, _.
  - destruct (page_table_ s !! p) as [f|] eqn:Hp.
    { destruct (page_at_lt s f) as (page & Hpage & Hat); [by eapply Hrange|].
      unfold FetchPgImp. rewrite Hp, Hat. bpi_simpl. by eexists _, _. }
    destruct (all_pinned s) eqn:Hpinned.
    { unfold FetchPgImp. rewrite Hp, Hpinned. bpi_simpl. by eexists _, _. }
    destruct (take_frame_total s Hwf Hpinned) as (f & s1 & page & Htake & Hpage).
    erewrite FetchPgImp_miss by eauto. bpi_simpl. by eexists _, _.
  - unfold UnpinPgImp. destruct (page_table_ s !! p) as [f|] eqn:Hp.
    2: { bpi_simpl. by eexists _, _. }
    destruct (page_at_lt s f) as (page & Hpage & Hat); [by eapply Hrange|].
    rewrite Hat. bpi_simpl. destruct (pin_count_ page =? 0).
    { bpi_simpl. by eexists _, _. }
    unfold page_at. bpi_simpl.
    destruct d; bpi_simpl; rewrite ?list_lookup_alter_eq, Hpage;
      cbn [fmap option_fmap option_map]; bpi_simpl; by eexists _, _.
  - destruct (FlushPgImp_total p s Hrange) as (b & s' & ->). bpi_simpl.
    by eexists _, _.
  - unfold FlushAllPgsImp.
    destruct (flush_entries_total (map_to_list (page_table_ s)) s) as [s' ->].
    { intros [q f] Hin. apply elem_of_map_to_list in Hin. by eapply Hrange. }
    bpi_simpl. by eexists _, _.
  - unfold DeletePgImp, DeallocatePage. destruct (page_table_ s !! p) as [f|] eqn:Hp.
    2: { bpi_simpl. by eexists _, _. }
    destruct (page_at_lt s f) as (page & Hpage & Hat); [by eapply Hrange|].
    rewrite Hat. bpi_simpl. destruct (pin_count_ page =? 0); bpi_simpl.
    2: { by eexists _, _. }
    unfold page_at. bpi_simpl. rewrite !list_lookup_alter_eq, Hpage.
    cbn [fmap option_fmap option_map]. bpi_simpl. by eexists _, _.
Qed.

(** The invariants survive every call but a [DeletePage] that resets a
    frame and a [NewPage] whose new id is already resident. *)
Lemma step_Invariants o s r s' :
  Invariants s → deletes o s = false →
  (o = NewPage → page_table_ s !! next_page_id_ s = None) →
  step o s = Ok (r, s') → Invariants s'.
Proof.
  intros Hinv Hdel Hnew Hstep. pose proof Hinv as (Hpart & Hagree & Hwf).
  destruct o as [|p|p d|p| |p]; simpl in Hstep.
  - destruct (NewPgImp s) as [[r0 s0]|] eqn:Hop; bpi_simpl; [|done].
    injection Hstep as <- <-.
    apply NewPgImp_inv in Hop as [(_ & -> & _)|(f & s1 & pg & Htake & _ & _ & _ & ->)];
      [done|].
    destruct (take_frame_but _ _ _ Hinv Htake) as [Hbut Hsub].
    destruct (take_frame_static _ _ _ Htake) as (_ & Hn & Hi & Hc & _).
    apply assign_Invariants; [done|by apply Hsub, Hnew|done|].
    rewrite Hn, Hi. rewrite <- (Z.mul_1_l (num_instances_ s)) at 1.
    rewrite Z.mod_add by (pose proof (wf_instances _ Hwf); lia). apply Hwf.
  - destruct (FetchPgImp p s) as [[r0 s0]|] eqn:Hop; bpi_simpl; [|done].
    injection Hstep as <- <-.
    apply FetchPgImp_inv in Hop
      as [(f & pg & Hp & Hpg & _ & ->)|[(_ & _ & -> & _)
         |(f & s1 & pg & Hmiss & Htake & _ & _ & ->)]]; [|done|].
    + apply (Invariants_same_shape s); bpi_simpl; try done.
      * apply length_alter.
      * intros g page Hpage. destruct (decide (f = g)) as [->|Hne].
        -- rewrite list_lookup_alter_eq, Hpage. by eexists.
        -- rewrite list_lookup_alter_ne by done. by exists page.
      * apply erase_first_NoDup, Hwf.
      * intros g Hg. apply erase_first_subseteq in Hg. by apply Hwf.
    + destruct (take_frame_but _ _ _ Hinv Htake) as [Hbut Hsub].
      destruct (take_frame_static _ _ _ Htake) as (_ & Hn & Hi & Hc & _).
      apply assign_Invariants; [done|by apply Hsub|done|].
      rewrite Hc, Hn, Hi. apply Hwf.
  - destruct (UnpinPgImp p d s) as [[b s0]|] eqn:Hop; bpi_simpl; [|done].
    injection Hstep as <- <-.
    apply UnpinPgImp_inv in Hop
      as [(_ & _ & ->)|(f & pg & Hp & Hpg & _ & [[_ ->]|[_ ->]])]; [done..|].
    apply (Invariants_same_shape s); bpi_simpl; try done.
    + apply length_insert.
    + intros g page Hpage. destruct (decide (f = g)) as [->|Hne].
      * rewrite list_lookup_insert_eq by (by eapply lookup_lt_Some).
        eexists. split; [done|]. simpl. congruence.
      * rewrite list_lookup_insert_ne by done. by exists page.
    + destruct (_ =? 0); [apply Unpin_NoDup|]; apply Hwf.
    + intros g Hg. destruct (_ =? 0); [|by apply Hwf].
      apply Unpin_elem in Hg as [->|Hg]; [by exists p|by apply Hwf].
  - destruct (FlushPgImp p s) as [[b s0]|] eqn:Hop; bpi_simpl; [|done].
    injection Hstep as <- <-.
    destruct (FlushPgImp_flushed _ _ _ _ Hop) as (l & _ & Hfl).
    apply FlushPgImp_static in Hop as (? & ? & ? & ? & ? & ? & Hrp & ?).
    apply (Invariants_same_shape s); try done.
    + intros g page Hpage. destruct (Hfl g page Hpage) as (pg' & ? & ? & _).
      by exists pg'.
    + rewrite Hrp. apply Hwf.
    + rewrite Hrp. apply Hwf.
  - destruct (FlushAllPgsImp s) as [s0|] eqn:Hop; bpi_simpl; [|done].
    injection Hstep as <- <-. unfold FlushAllPgsImp in Hop.
    destruct (flush_entries_flushed _ _ _ (table_entries s) Hop) as (l & _ & Hfl).
    apply flush_entries_static in Hop as (? & ? & ? & ? & ? & ? & Hrp & ?).
    apply (Invariants_same_shape s); try done.
    + intros g page Hpage. destruct (Hfl g page Hpage) as (pg' & ? & ? & _).
      by exists pg'.
    + rewrite Hrp. apply Hwf.
    + rewrite Hrp. apply Hwf.
  - destruct (DeletePgImp p s) as [[b s0]|] eqn:Hop; bpi_simpl; [|done].
    injection Hstep as <- <-.
    apply DeletePgImp_inv in Hop
      as [(_ & _ & ->)|(f & pg & Hp & Hpg & [(_ & _ & ->)|(Hz & _ & _)])]; [done..|].
    exfalso. simpl in Hdel. rewrite Hp, Hpg, Hz in Hdel. done.
Qed.

End Preservation.

(** C2, as the code has it.  The two invariants of the claim (every frame
    id below the pool size is in exactly one of the free list and the range
    of the page table; the frame of every entry of the page table holds the
    page id of the entry) are part of [Invariants], together with what
    makes them inductive.  From a state that satisfies [Invariants], every
    call of the interface returns and leaves a state that satisfies
    [Invariants], provided the call is not a [DeletePage] that resets a
    frame and, for [NewPage], the page id at the allocator cursor is not
    resident. *)
Theorem invariants_preserved (o : op) (s : BPI) :
  Invariants s →
  deletes o s = false →
  (o = NewPage → page_table_ s !! next_page_id_ s = None) →
  ∃ r s', step o s = Ok (r, s')
          ∧ frames_partitioned s' ∧ table_agrees s' ∧ Invariants s'.
Proof.
  intros Hinv Hdel Hnew.
  destruct (step_total o s) as (r & s' & Hstep); [apply Hinv|].
  exists r, s'. split; [done|].
  pose proof (step_Invariants o s r s' Hinv Hdel Hnew Hstep) as Hinv'.
  split_and!; [apply Hinv'..|done].
Qed.

Lemma invariants_preserved_witness :
  after 1 Disk.empty [NewPage; UnpinPage 0 false] = Some ex_unpinned
  ∧ Invariants ex_unpinned
  ∧ ∃ r s', step NewPage ex_unpinned = Ok (r, s')
            ∧ frames_partitioned s' ∧ table_agrees s'.
Proof.
  assert (Invariants ex_unpinned) as Hinv.
  { apply Invariants_b_spec. by vm_compute. }
  split; [by vm_compute|]. split; [exact Hinv|].
  destruct (invariants_preserved NewPage ex_unpinned Hinv eq_refl (λ _, eq_refl))
    as (r & s' & Hstep & Hpart & Hagree & _).
  by exists r, s'.
Defined.

(** C2, as the spec states it, fails.  [ex_unpinned] and [ex_fetched] are
    reached through the interface and satisfy the two invariants.
    [DeletePage 0] takes the first to [ex_deleted], where frame 0 is in the
    free list and still in the range of the page table, under a page id it
    does not hold.  [NewPage] takes the second to [ex_collided], where
    frame 1 is neither in the free list nor in the range of the page
    table.  And the two invariants do not carry themselves: [ex_twice]
    satisfies them, and [FetchPage 7] takes it to [ex_twice_fetched], where
    frame 0 is in the free list and in the range of the page table. *)
Lemma invariants_preserved_counterexample :
  (after 1 Disk.empty [NewPage; UnpinPage 0 false] = Some ex_unpinned
   ∧ frames_partitioned ex_unpinned ∧ table_agrees ex_unpinned
   ∧ step (DeletePage 0) ex_unpinned = Ok (RBool true, ex_deleted)
   ∧ ¬ frames_partitioned ex_deleted ∧ ¬ table_agrees ex_deleted)
  ∧ (after 2 Disk.empty [FetchPage 0] = Some ex_fetched
     ∧ frames_partitioned ex_fetched ∧ table_agrees ex_fetched
     ∧ step NewPage ex_fetched = Ok (RNew (Some (0, 1%nat)), ex_collided)
     ∧ ¬ frames_partitioned ex_collided)
  ∧ (frames_partitioned ex_twice ∧ table_agrees ex_twice
     ∧ step (FetchPage 7) ex_twice = Ok (RFetch (Some 0%nat), ex_twice_fetched)
     ∧ ¬ frames_partitioned ex_twice_fetched).
Proof.
  split_and!;
    first [ apply frames_partitioned_b_spec; by vm_compute
          | apply table_agrees_b_spec; by vm_compute
          | rewrite <- frames_partitioned_b_spec; by vm_compute
          | rewrite <- table_agrees_b_spec; by vm_compute
          | by vm_compute ].
Qed.

(** * Further properties *)

(** ** The replacer over sequences of calls *)

Section ReplacerMore.
Import LRU.
Implicit Types (r : LRUReplacer) (f g : frame_id_t) (l : list frame_id_t).

Lemma erase_first_length l f : (length (erase_first f l) ≤ length l)%nat.
Proof.
  induction l as [|x l IH]; simpl; [done|].
  destruct (decide (x = f)); simpl; lia.
Qed.

Lemma erase_first_app_last l f : f ∉ l → erase_first f (l ++ [f]) = l.
Proof.
  induction l as [|x l IH]; intros Hnin; simpl.
  - by rewrite decide_True.
  - apply not_elem_of_cons in Hnin as [Hne Hnin].
    rewrite decide_False by congruence. by rewrite IH.
Qed.

Lemma rstep_bounded o r :
  NoDup (list_t_ r) ∧ (length (list_t_ r) ≤ size r)%nat →
  NoDup (list_t_ (rstep o r)) ∧ (length (list_t_ (rstep o r)) ≤ size (rstep o r))%nat
  ∧ size (rstep o r) = size r.
Proof.
  intros [Hnd Hlen]. destruct o as [|f|f]; simpl.
  - rewrite Victim_spec. destruct (list_t_ r) as [|g rest] eqn:Hl; simpl.
    + rewrite Hl. split_and!; [constructor|simpl; lia|done].
    + simpl in Hlen. apply NoDup_cons in Hnd as [_ Hnd]. split_and!; [done|lia|done].
  - split_and!; [by apply erase_first_NoDup| |done].
    pose proof (erase_first_length (list_t_ r) f). lia.
  - split_and!; [by apply Unpin_NoDup| |].
    + rewrite Unpin_spec. case_decide as Hc; [|done]. simpl.
      rewrite length_app. simpl. lia.
    + rewrite Unpin_spec. by case_decide.
Qed.

(** A list without duplicates of numbers below [n] has at most [n]
    elements. *)
Lemma NoDup_below_length l n :
  NoDup l → (∀ x, x ∈ l → (x < n)%nat) → (length l ≤ n)%nat.
Proof.
  intros Hnd Hlt.
  assert (length l ≤ length (seq 0 n))%nat as Hle; [|by rewrite length_seq in Hle].
  apply submseteq_length, NoDup_submseteq; [done|].
  intros x Hx. apply elem_of_seq. specialize (Hlt x Hx). lia.
Qed.

Lemma Pin_Unpin_id f r : f ∉ list_t_ r → Pin f (Unpin f r) = r.
Proof.
  intros Hnin. rewrite Unpin_spec. case_decide.
  - unfold Pin. simpl. rewrite erase_first_app_last by done. by destruct r.
  - by apply Pin_absent.
Qed.

Lemma Unpin_room f r :
  NoDup (list_t_ r) → (∀ g, g ∈ list_t_ r → (g < size r)%nat) →
  (f < size r)%nat → f ∉ list_t_ r →
  Unpin f r = mkLRU (list_t_ r ++ [f]) (size r).
Proof.
  intros Hnd Hlt Hf Hnin. rewrite Unpin_spec. rewrite decide_True; [done|].
  split; [done|].
  assert (length (f :: list_t_ r) ≤ size r)%nat as Hlen.
  { apply NoDup_below_length.
    - by constructor.
    - intros x Hx. apply elem_of_cons in Hx as [->|Hx]; auto. }
  simpl in Hlen. lia.
Qed.

End ReplacerMore.

(** X1.  Whatever calls are made on a replacer built for [n] frames, its
    list never holds a frame twice and never holds more than [n] frames,
    and its capacity stays [n]. *)
Theorem replacer_bounded (n : nat) (os : list rop) :
  NoDup (LRU.list_t_ (rrun os (LRU.create n)))
  ∧ (LRU.Size (rrun os (LRU.create n)) ≤ n)%nat
  ∧ LRU.size (rrun os (LRU.create n)) = n.
Proof.
  assert (∀ r, NoDup (LRU.list_t_ r) ∧ (length (LRU.list_t_ r) ≤ LRU.size r)%nat →
               NoDup (LRU.list_t_ (rrun os r))
               ∧ (length (LRU.list_t_ (rrun os r)) ≤ LRU.size (rrun os r))%nat
               ∧ LRU.size (rrun os r) = LRU.size r) as Hgen.
  { unfold rrun. induction os as [|o os IH]; intros r Hr; simpl.
    - by destruct Hr.
    - destruct (rstep_bounded o r Hr) as (Hnd & Hlen & Hsz).
      destruct (IH (rstep o r)) as (? & ? & ?); [done|].
      split_and!; [done..|congruence]. }
  destruct (Hgen (LRU.create n)) as (Hnd & Hlen & Hsz).
  { simpl. split; [constructor|lia]. }
  simpl in Hsz. unfold LRU.Size. split_and!; [done|lia|done].
Qed.

(** X2.  [Unpin] of a frame that is no member, followed by [Pin] of the
    same frame, gives the replacer back as it was, whether or not the
    [Unpin] found room. *)
Theorem Pin_after_Unpin (f : frame_id_t) (r : LRU.LRUReplacer) :
  f ∉ LRU.list_t_ r → LRU.Pin f (LRU.Unpin f r) = r.
Proof. apply Pin_Unpin_id. Qed.

Lemma Pin_after_Unpin_witness :
  LRU.Pin 3%nat (LRU.Unpin 3%nat (LRU.mkLRU [2; 0; 1]%nat 4)) = LRU.mkLRU [2; 0; 1]%nat 4
  ∧ LRU.Pin 3%nat (LRU.Unpin 3%nat (LRU.mkLRU [2; 0; 1]%nat 3)) = LRU.mkLRU [2; 0; 1]%nat 3.
Proof.
  split; apply Pin_after_Unpin; by (refine (bool_decide_unpack _ _); vm_compute).
Defined.

(** X3.  A member that is pinned and then unpinned again becomes the most
    recent member: it leaves its place, the others keep their order, and it
    comes back at the far end, so that [Victim] returns it after all of
    them. *)
Theorem Unpin_after_Pin_refreshes (f : frame_id_t) (r : LRU.LRUReplacer) :
  NoDup (LRU.list_t_ r) →
  (length (LRU.list_t_ r) ≤ LRU.size r)%nat →
  f ∈ LRU.list_t_ r →
  ∃ l1 l2, LRU.list_t_ r = l1 ++ f :: l2
    ∧ LRU.Unpin f (LRU.Pin f r) = LRU.mkLRU (l1 ++ l2 ++ [f]) (LRU.size r)
    ∧ victims (length (LRU.list_t_ r)) (LRU.Unpin f (LRU.Pin f r)) = l1 ++ l2 ++ [f].
Proof.
  intros Hnd Hlen Hin.
  destruct (erase_first_split f _ Hin) as (l1 & l2 & Hl & Hnin & Herase).
  exists l1, l2. split; [done|].
  assert (LRU.Unpin f (LRU.Pin f r) = LRU.mkLRU (l1 ++ l2 ++ [f]) (LRU.size r)) as Heq.
  { rewrite Unpin_spec. simpl. rewrite Herase. rewrite decide_True.
    - by rewrite <- app_assoc.
    - split.
      + rewrite <- Herase. by apply erase_first_gone.
      + rewrite Hl in Hlen. rewrite !length_app in *. simpl in Hlen. lia. }
  split; [done|]. rewrite Heq.
  replace (length (LRU.list_t_ r)) with (length (l1 ++ l2 ++ [f])).
  - apply victims_all.
  - rewrite Hl, !length_app. simpl. lia.
Qed.

Lemma Unpin_after_Pin_refreshes_witness :
  ∃ l1 l2, [2; 0; 1]%nat = l1 ++ 2%nat :: l2
    ∧ victims 3 (LRU.Unpin 2%nat (LRU.Pin 2%nat (LRU.mkLRU [2; 0; 1]%nat 3)))
      = l1 ++ l2 ++ [2%nat].
Proof.
  destruct (Unpin_after_Pin_refreshes 2%nat (LRU.mkLRU [2; 0; 1]%nat 3))
    as (l1 & l2 & H1 & _ & H2).
  - by (refine (bool_decide_unpack _ _); vm_compute).
  - simpl. lia.
  - by (refine (bool_decide_unpack _ _); vm_compute).
  - by exists l1, l2.
Defined.

(** X4.  The capacity test of [Unpin] never turns a frame away when the
    replacer is used for frame ids below its capacity: if the members are
    distinct, all below [size], and [f] is below [size] and no member, then
    [Unpin f] makes [f] the most recent member. *)
Theorem Unpin_has_room (f : frame_id_t) (r : LRU.LRUReplacer) :
  NoDup (LRU.list_t_ r) →
  (∀ g, g ∈ LRU.list_t_ r → (g < LRU.size r)%nat) →
  (f < LRU.size r)%nat →
  f ∉ LRU.list_t_ r →
  LRU.Unpin f r = LRU.mkLRU (LRU.list_t_ r ++ [f]) (LRU.size r).
Proof. apply Unpin_room. Qed.

Lemma Unpin_has_room_witness :
  LRU.Unpin 1%nat (LRU.mkLRU [2; 0]%nat 3) = LRU.mkLRU [2; 0; 1]%nat 3.
Proof.
  apply (Unpin_has_room 1%nat (LRU.mkLRU [2; 0]%nat 3)).
  - by (refine (bool_decide_unpack _ _); vm_compute).
  - intros g Hg. simpl in *.
    apply elem_of_cons in Hg as [->|Hg]; [lia|].
    apply list_elem_of_singleton in Hg as ->. lia.
  - simpl. lia.
  - by (refine (bool_decide_unpack _ _); vm_compute).
Defined.

(** ** What a call does to a frame *)

Section Frames.
Implicit Types (s : BPI) (f g : frame_id_t) (p q : page_id_t) (page : Page).

Lemma flushed_only_change m l s ps' g page :
  flushed_only m l (pages_ s) ps' → pages_ s !! g = Some page →
  ∃ page', ps' !! g = Some page' ∧ frame_change s g page page'.
Proof.
  intros Hfl Hpage. destruct (Hfl g page Hpage) as (page' & Hpage' & ? & ? & ? & _).
  exists page'. split; [done|]. by apply fc_flags.
Qed.

Lemma same_change s g page : frame_change s g page page.
Proof. by apply fc_flags. Qed.

(** The frame taken by [take_frame] was in the free list or a member of the
    replacer. *)
Lemma take_frame_source s f s1 :
  take_frame s = Ok (f, s1) → f ∈ free_list_ s ∨ f ∈ LRU.list_t_ (replacer_ s).
Proof.
  intros Htake. destruct (take_frame_lists _ _ _ Htake) as [_ [[-> _]|(_ & _ & -> & _)]].
  - left. left.
  - right. left.
Qed.

Lemma taken_change s f s1 x g page :
  take_frame s = Ok (f, s1) → pin_count_ x = 1 → is_dirty_ x = false →
  pages_ s !! g = Some page →
  ∃ page', <[f := x]> (pages_ s1) !! g = Some page' ∧ frame_change s g page page'.
Proof.
  intros Htake Hpin Hclean Hpage.
  destruct (take_frame_flushed _ _ _ Htake) as (l & _ & Hfl).
  destruct (flushed_only_change _ _ _ _ _ _ Hfl Hpage) as (page1 & Hpage1 & Hch).
  destruct (decide (f = g)) as [->|Hne].
  - exists x. split.
    + apply list_lookup_insert_eq. by eapply lookup_lt_Some.
    + apply fc_taken; [by eapply take_frame_source|done..].
  - exists page1. by rewrite list_lookup_insert_ne.
Qed.

(** Every call keeps the number of frames and changes each frame in one of
    the five ways of [frame_change]. *)
Lemma step_frame_change o s r s' g page :
  step o s = Ok (r, s') → pages_ s !! g = Some page →
  ∃ page', pages_ s' !! g = Some page' ∧ frame_change s g page page'.
Proof.
  intros Hstep Hpage.
  destruct o as [|p|p d|p| |p]; simpl in Hstep.
  - destruct (NewPgImp s) as [[r0 s0]|] eqn:Hop; bpi_simpl; [|done].
    injection Hstep as <- <-.
    apply NewPgImp_inv in Hop as [(_ & -> & _)|(f & s1 & pg & Htake & _ & _ & _ & ->)].
    { exists page. split; [done|apply same_change]. }
    bpi_simpl. by eapply taken_change.
  - destruct (FetchPgImp p s) as [[r0 s0]|] eqn:Hop; bpi_simpl; [|done].
    injection Hstep as <- <-.
    apply FetchPgImp_inv in Hop
      as [(f & pg & Hp & Hpg & _ & ->)|[(_ & _ & -> & _)
         |(f & s1 & pg & Hmiss & Htake & _ & _ & ->)]].
    + bpi_simpl. destruct (decide (f = g)) as [->|Hne].
      * rewrite list_lookup_alter_eq, Hpage. eexists. split; [done|].
        rewrite Hpage in Hpg. injection Hpg as <-. by apply fc_pin.
      * rewrite list_lookup_alter_ne by done. exists page.
        split; [done|apply same_change].
    + exists page. split; [done|apply same_change].
    + bpi_simpl. by eapply taken_change.
  - destruct (UnpinPgImp p d s) as [[b s0]|] eqn:Hop; bpi_simpl; [|done].
    injection Hstep as <- <-.
    apply UnpinPgImp_inv in Hop
      as [(_ & _ & ->)|(f & pg & Hp & Hpg & _ & [[_ ->]|[Hnz ->]])].
    1-2: exists page; split; [done|apply same_change].
    bpi_simpl. destruct (decide (f = g)) as [->|Hne].
    + rewrite list_lookup_insert_eq by (by eapply lookup_lt_Some).
      eexists. split; [done|]. rewrite Hpage in Hpg. injection Hpg as <-.
      by apply fc_unpin.
    + rewrite list_lookup_insert_ne by done. exists page.
      split; [done|apply same_change].
  - destruct (FlushPgImp p s) as [[b s0]|] eqn:Hop; bpi_simpl; [|done].
    injection Hstep as <- <-.
    apply FlushPgImp_flushed in Hop as (l & _ & Hfl).
    by eapply flushed_only_change.
  - destruct (FlushAllPgsImp s) as [s0|] eqn:Hop; bpi_simpl; [|done].
    injection Hstep as <- <-.
    apply flush_entries_flushed in Hop as (l & _ & Hfl); [|apply table_entries].
    by eapply flushed_only_change.
  - destruct (DeletePgImp p s) as [[b s0]|] eqn:Hop; bpi_simpl; [|done].
    injection Hstep as <- <-.
    apply DeletePgImp_inv in Hop
      as [(_ & _ & ->)|(f & pg & Hp & Hpg & [(_ & _ & ->)|(Hz & _ & ->)])].
    1-2: exists page; split; [done|apply same_change].
    bpi_simpl. destruct (decide (f = g)) as [->|Hne].
    + rewrite list_lookup_insert_eq by (by eapply lookup_lt_Some).
      eexists. split; [done|]. rewrite Hpage in Hpg. injection Hpg as <-.
      by apply fc_reset.
    + rewrite list_lookup_insert_ne by done. exists page.
      split; [done|apply same_change].
Qed.

Lemma step_pages_length o s r s' :
  step o s = Ok (r, s') → length (pages_ s') = length (pages_ s).
Proof.
  intros Hstep.
  destruct o as [|p|p d|p| |p]; simpl in Hstep.
  - destruct (NewPgImp s) as [[r0 s0]|] eqn:Hop; bpi_simpl; [|done].
    injection Hstep as <- <-.
    apply NewPgImp_inv in Hop as [(_ & -> & _)|(f & s1 & pg & Htake & _ & _ & _ & ->)];
      [done|].
    bpi_simpl. rewrite length_insert. by apply take_frame_static in Htake as (_&_&_&_&?).
  - destruct (FetchPgImp p s) as [[r0 s0]|] eqn:Hop; bpi_simpl; [|done].
    injection Hstep as <- <-.
    apply FetchPgImp_inv in Hop
      as [(f & pg & Hp & Hpg & _ & ->)|[(_ & _ & -> & _)
         |(f & s1 & pg & Hmiss & Htake & _ & _ & ->)]]; [|done|].
    + bpi_simpl. apply length_alter.
    + bpi_simpl. rewrite length_insert.
      by apply take_frame_static in Htake as (_&_&_&_&?).
  - destruct (UnpinPgImp p d s) as [[b s0]|] eqn:Hop; bpi_simpl; [|done].
    injection Hstep as <- <-.
    apply UnpinPgImp_inv in Hop
      as [(_ & _ & ->)|(f & pg & Hp & Hpg & _ & [[_ ->]|[Hnz ->]])]; [done..|].
    bpi_simpl. apply length_insert.
  - destruct (FlushPgImp p s) as [[b s0]|] eqn:Hop; bpi_simpl; [|done].
    injection Hstep as <- <-. by apply FlushPgImp_static in Hop as (_&_&_&_&?&_).
  - destruct (FlushAllPgsImp s) as [s0|] eqn:Hop; bpi_simpl; [|done].
    injection Hstep as <- <-. by apply flush_entries_static in Hop as (_&_&_&_&?&_).
  - destruct (DeletePgImp p s) as [[b s0]|] eqn:Hop; bpi_simpl; [|done].
    injection Hstep as <- <-.
    apply DeletePgImp_inv in Hop
      as [(_ & _ & ->)|(f & pg & Hp & Hpg & [(_ & _ & ->)|(Hz & _ & ->)])]; [done..|].
    bpi_simpl. apply length_insert.
Qed.

(** The same, read from the state after the call. *)
Lemma step_frame_change_back o s r s' g page' :
  step o s = Ok (r, s') → pages_ s' !! g = Some page' →
  ∃ page, pages_ s !! g = Some page ∧ frame_change s g page page'.
Proof.
  intros Hstep Hpage'.
  assert (g < length (pages_ s))%nat as Hlt.
  { rewrite <- (step_pages_length _ _ _ _ Hstep). by eapply lookup_lt_Some. }
  destruct (lookup_lt_is_Some_2 _ _ Hlt) as [page Hpage].
  destruct (step_frame_change _ _ _ _ _ _ Hstep Hpage) as (pg & Hpg & Hch).
  exists page. split; [done|]. congruence.
Qed.

End Frames.

(** X5.  Pin counts never go below zero: if no frame has a negative pin
    count, no sequence of calls gives one a negative pin count, however
    often [UnpinPage] is called. *)
Theorem pins_stay_nonneg (ops : list op) (s : BPI) (rs : list retval) (s' : BPI) :
  pins_nonneg s → run ops s = Ok (rs, s') → pins_nonneg s'.
Proof.
  revert s rs s'. induction ops as [|o ops IH]; intros s rs s' Hs; simpl.
  - by intros [= <- <-].
  - destruct (step o s) as [[r s1]|] eqn:Hstep; bpi_simpl; [|done].
    destruct (run ops s1) as [[rs1 s2]|] eqn:Hrun; bpi_simpl; [|done].
    intros [= <- <-]. apply (IH s1 rs1); [|done].
    intros g page' Hpage'.
    destruct (step_frame_change_back _ _ _ _ _ _ Hstep Hpage') as (page & Hpage & Hch).
    specialize (Hs g page Hpage).
    destruct Hch as [_ _ ->|_ _ ->|_ _ Hnz ->|_ -> _|_ ->]; simpl; lia.
Qed.

Lemma pins_stay_nonneg_witness :
  ∃ rs s', run [UnpinPage 0 false; UnpinPage 0 false; UnpinPage 0 true] ex_pinned
             = Ok (rs, s')
           ∧ pins_nonneg s'.
Proof.
  eexists _, _. split; [by vm_compute|].
  eapply (pins_stay_nonneg [UnpinPage 0 false; UnpinPage 0 false; UnpinPage 0 true]
            ex_pinned); [|by vm_compute].
  intros f page Hpage. destruct f as [|f]; simpl in Hpage; [|done].
  injection Hpage as <-. simpl. lia.
Defined.

(** X6.  A pinned frame is out of reach of every call: in a state where the
    pinned frames are neither in the free list nor in the replacer, no call
    changes the page id or the bytes of a frame that is pinned; in
    particular no [NewPage] and no [FetchPage] takes such a frame. *)
Theorem pinned_frame_untouched (o : op) (s : BPI) (r : retval) (s' : BPI)
    (g : frame_id_t) (page : Page) :
  pinned_apart s →
  step o s = Ok (r, s') →
  pages_ s !! g = Some page →
  pin_count_ page ≠ 0 →
  ∃ page', pages_ s' !! g = Some page'
           ∧ page_id_ page' = page_id_ page ∧ data_ page' = data_ page.
Proof.
  intros Hapart Hstep Hpage Hpin.
  destruct (step_frame_change _ _ _ _ _ _ Hstep Hpage) as (page' & Hpage' & Hch).
  exists page'. split; [done|].
  destruct (Hapart g page Hpage Hpin) as [Hfree Hrepl].
  destruct Hch as [? ? _|? ? _|? ? _ _|[?|?] _ _|? _]; done.
Qed.

Lemma pinned_frame_untouched_witness :
  ∃ page', pages_ ex_collided !! 0%nat = Some page'
           ∧ page_id_ page' = 0 ∧ data_ page' = Disk.zero_page.
Proof.
  apply (pinned_frame_untouched NewPage ex_fetched (RNew (Some (0, 1%nat)))
           ex_collided 0%nat (mkPage 0 Disk.zero_page 1 false)).
  - intros f page Hpage Hpin.
    destruct f as [|[|f]]; simpl in Hpage; [| |done]; injection Hpage as <-.
    + split; by (refine (bool_decide_unpack _ _); vm_compute).
    + done.
  - by vm_compute.
  - reflexivity.
  - done.
Defined.

(** ** Pinned frames stay out of the free list and of the replacer *)

Section PinnedApart.
Implicit Types (s : BPI) (f g : frame_id_t) (p q : page_id_t) (page : Page).

Lemma flushed_only_back m l ps ps' g page' :
  flushed_only m l ps ps' → length ps' = length ps → ps' !! g = Some page' →
  ∃ page, ps !! g = Some page ∧ page_id_ page' = page_id_ page
          ∧ data_ page' = data_ page ∧ pin_count_ page' = pin_count_ page.
Proof.
  intros Hfl Hlen Hpage'.
  assert (g < length ps)%nat as Hlt by (rewrite <- Hlen; by eapply lookup_lt_Some).
  destruct (lookup_lt_is_Some_2 _ _ Hlt) as [page Hpage].
  destruct (Hfl g page Hpage) as (pg & Hpg & ? & ? & ? & _).
  exists page. split; [done|]. rewrite Hpage' in Hpg. by injection Hpg as <-.
Qed.

(** After [take_frame] the pinned frames are apart still; the frame taken
    is in neither list. *)
Lemma take_frame_apart s f s1 :
  Invariants s → pinned_apart s → take_frame s = Ok (f, s1) →
  (f ∉ free_list_ s1) ∧ (f ∉ LRU.list_t_ (replacer_ s1))
  ∧ ∀ g page1, pages_ s1 !! g = Some page1 → pin_count_ page1 ≠ 0 →
      (g ∉ free_list_ s1) ∧ g ∉ LRU.list_t_ (replacer_ s1).
Proof.
  intros Hinv Hapart Htake.
  destruct (take_frame_but _ _ _ Hinv Htake) as [Hbut _].
  split_and!; [apply Hbut..|].
  intros g page1 Hpage1 Hpin.
  destruct (take_frame_flushed _ _ _ Htake) as (l & _ & Hfl).
  destruct (take_frame_static _ _ _ Htake) as (_ & _ & _ & _ & Hlen).
  destruct (flushed_only_back _ _ _ _ _ _ Hfl Hlen Hpage1) as (page & Hpage & _ & _ & Hsame).
  destruct (Hapart g page Hpage) as [Hfree Hrepl]; [congruence|].
  destruct (take_frame_lists _ _ _ Htake) as [_ [[Hfl1 ->]|(_ & -> & Hrp & _)]].
  - split; [|done]. intros Hin. apply Hfree. rewrite Hfl1. by right.
  - split; [apply not_elem_of_nil|]. intros Hin. apply Hrepl. rewrite Hrp. by right.
Qed.

Lemma assign_apart s1 f x c m (d : Disk.DiskManager) :
  (f ∉ free_list_ s1) → 
  (∀ g page1, pages_ s1 !! g = Some page1 → pin_count_ page1 ≠ 0 →
      (g ∉ free_list_ s1) ∧ g ∉ LRU.list_t_ (replacer_ s1)) →
  NoDup (LRU.list_t_ (replacer_ s1)) →
  pinned_apart
    (mkBPI (pool_size_ s1) (num_instances_ s1) (instance_index_ s1) c
       (<[f := x]> (pages_ s1)) (LRU.Pin f (replacer_ s1)) (free_list_ s1) m d).
Proof.
  intros Hfree Hothers Hnd g page' Hpage' Hpin. bpi_simpl.
  destruct (decide (f = g)) as [->|Hne].
  - split; [done|]. by apply erase_first_gone.
  - rewrite list_lookup_insert_ne in Hpage' by done.
    destruct (Hothers g page' Hpage' Hpin) as [? Hrepl]. split; [done|].
    intros Hin. by apply erase_first_subseteq in Hin.
Qed.

Lemma step_pinned_apart o s r s' :
  Invariants s → pinned_apart s → step o s = Ok (r, s') → pinned_apart s'.
Proof.
  intros Hinv Hapart Hstep. pose proof Hinv as (Hpart & Hagree & Hwf).
  destruct o as [|p|p d|p| |p]; simpl in Hstep.
  - destruct (NewPgImp s) as [[r0 s0]|] eqn:Hop; bpi_simpl; [|done].
    injection Hstep as <- <-.
    apply NewPgImp_inv in Hop as [(_ & -> & _)|(f & s1 & pg & Htake & _ & _ & _ & ->)];
      [done|].
    destruct (take_frame_apart _ _ _ Hinv Hapart Htake) as (Hf & _ & Hothers).
    destruct (take_frame_but _ _ _ Hinv Htake) as [Hbut _].
    apply assign_apart; [done..|apply Hbut].
  - destruct (FetchPgImp p s) as [[r0 s0]|] eqn:Hop; bpi_simpl; [|done].
    injection Hstep as <- <-.
    apply FetchPgImp_inv in Hop
      as [(f & pg & Hp & Hpg & _ & ->)|[(_ & _ & -> & _)
         |(f & s1 & pg & Hmiss & Htake & _ & _ & ->)]]; [|done|].
    + intros g page' Hpage' Hpin. bpi_simpl.
      destruct (decide (f = g)) as [->|Hne].
      * split; [|apply erase_first_gone, Hwf].
        destruct (Hpart g) as [[_ Hno]|[? _]]; [by eapply wf_table_range| |done].
        exfalso. apply Hno. by exists p.
      * rewrite list_lookup_alter_ne in Hpage' by done.
        destruct (Hapart g page' Hpage' Hpin) as [? Hrepl]. split; [done|].
        intros Hin. by apply erase_first_subseteq in Hin.
    + destruct (take_frame_apart _ _ _ Hinv Hapart Htake) as (Hf & _ & Hothers).
      destruct (take_frame_but _ _ _ Hinv Htake) as [Hbut _].
      apply assign_apart; [done..|apply Hbut].
  - destruct (UnpinPgImp p d s) as [[b s0]|] eqn:Hop; bpi_simpl; [|done].
    injection Hstep as <- <-.
    apply UnpinPgImp_inv in Hop
      as [(_ & _ & ->)|(f & pg & Hp & Hpg & _ & [[_ ->]|[Hnz ->]])]; [done..|].
    intros g page' Hpage' Hpin. bpi_simpl.
    destruct (decide (f = g)) as [->|Hne].
    + rewrite list_lookup_insert_eq in Hpage' by (by eapply lookup_lt_Some).
      injection Hpage' as <-. simpl in Hpin.
      rewrite (proj2 (Z.eqb_neq _ _) Hpin). by apply (Hapart g pg).
    + rewrite list_lookup_insert_ne in Hpage' by done.
      destruct (Hapart g page' Hpage' Hpin) as [? Hrepl]. split; [done|].
      destruct (_ =? 0); [|done]. intros Hin.
      apply Unpin_elem in Hin as [?|?]; done.
  - destruct (FlushPgImp p s) as [[b s0]|] eqn:Hop; bpi_simpl; [|done].
    injection Hstep as <- <-.
    destruct (FlushPgImp_flushed _ _ _ _ Hop) as (l & _ & Hfl).
    apply FlushPgImp_static in Hop as (_ & _ & _ & _ & Hlen & Hfree0 & Hrepl0 & _).
    intros g page' Hpage' Hpin. rewrite Hfree0, Hrepl0.
    destruct (flushed_only_back _ _ _ _ _ _ Hfl Hlen Hpage') as (page & Hpage & _ & _ & Hsame).
    apply (Hapart g page Hpage). congruence.
  - destruct (FlushAllPgsImp s) as [s0|] eqn:Hop; bpi_simpl; [|done].
    injection Hstep as <- <-.
    destruct (flush_entries_flushed _ _ _ (table_entries s) Hop) as (l & _ & Hfl).
    apply flush_entries_static in Hop as (_ & _ & _ & _ & Hlen & Hfree0 & Hrepl0 & _).
    intros g page' Hpage' Hpin. rewrite Hfree0, Hrepl0.
    destruct (flushed_only_back _ _ _ _ _ _ Hfl Hlen Hpage') as (page & Hpage & _ & _ & Hsame).
    apply (Hapart g page Hpage). congruence.
  - destruct (DeletePgImp p s) as [[b s0]|] eqn:Hop; bpi_simpl; [|done].
    injection Hstep as <- <-.
    apply DeletePgImp_inv in Hop
      as [(_ & _ & ->)|(f & pg & Hp & Hpg & [(_ & _ & ->)|(Hz & _ & ->)])]; [done..|].
    intros g page' Hpage' Hpin. bpi_simpl.
    destruct (decide (f = g)) as [->|Hne].
    + rewrite list_lookup_insert_eq in Hpage' by (by eapply lookup_lt_Some).
      by injection Hpage' as <-.
    + rewrite list_lookup_insert_ne in Hpage' by done.
      destruct (Hapart g page' Hpage' Hpin) as [Hfree Hrepl]. split.
      * intros Hin. apply elem_of_app in Hin as [?|Hin]; [done|].
        apply list_elem_of_singleton in Hin. congruence.
      * intros Hin. by apply erase_first_subseteq in Hin.
Qed.

End PinnedApart.

(** X7.  The constructor, when its two assertions hold, builds an instance
    in which every frame is free and unpinned, nothing is resident and the
    replacer is empty with room for every frame: the invariants hold, with
    the frames in the free list in the order 0, 1, ...; and it stops on an
    assertion exactly when [num_instances] is zero or [instance_index] is
    not below it.  (Both numbers are unsigned in the source, hence
    [0 ≤ idx].) *)
Theorem fresh_instance (pool_size : nat) (n idx : Z) (disk : Disk.DiskManager) :
  0 ≤ idx →
  (create pool_size n idx disk = Fault AssertionFailure ↔ n ≤ 0 ∨ n ≤ idx)
  ∧ (0 < n → idx < n →
     ∃ s, create pool_size n idx disk = Ok s
          ∧ Invariants s ∧ pinned_apart s ∧ pins_nonneg s
          ∧ free_list_ s = seq 0 pool_size
          ∧ page_table_ s = ∅
          ∧ replacer_ s = LRU.mkLRU [] pool_size
          ∧ next_page_id_ s = idx
          ∧ disk_manager_ s = disk
          ∧ ∀ f, (f < pool_size)%nat → pages_ s !! f = Some fresh_page).
Proof.
  intros Hidx. split.
  - unfold create. destruct (Z.ltb_spec 0 n); simpl.
    + destruct (Z.ltb_spec idx n); simpl; split; try done; lia.
    + split; [intros _; lia|done].
  - intros Hn Hlt.
    assert (create pool_size n idx disk
            = Ok (mkBPI pool_size n idx idx (replicate pool_size fresh_page)
                    (LRU.create pool_size) (seq 0 pool_size) ∅ disk)) as Hcreate.
    { unfold create. destruct (Z.ltb_spec 0 n); [|lia]. simpl.
      destruct (Z.ltb_spec idx n); [|lia]. done. }
    eexists. split; [exact Hcreate|].
    assert (∀ f page, replicate pool_size fresh_page !! f = Some page → page = fresh_page)
      as Hfresh.
    { intros f page Hpage. by apply lookup_replicate in Hpage as [-> _]. }
    split_and!; try done.
    + by eapply create_Invariants.
    + intros f page Hpage Hpin. bpi_simpl. apply Hfresh in Hpage as ->. done.
    + intros f page Hpage. bpi_simpl. apply Hfresh in Hpage as ->. done.
    + intros f Hf. bpi_simpl. by apply lookup_replicate.
Qed.

Lemma fresh_instance_witness :
  ∃ s, create 2 3 1 Disk.empty = Ok s ∧ Invariants s ∧ free_list_ s = [0; 1]%nat.
Proof.
  assert (0 ≤ 1) as H0 by lia.
  destruct (fresh_instance 2 3 1 Disk.empty H0) as [_ H].
  destruct H as (s & H1 & H2 & _ & _ & H3 & _); [lia..|].
  by exists s.
Defined.

(** X8.  From a state that satisfies the invariants and in which the pinned
    frames are neither in the free list nor in the replacer, every call
    leaves a state in which the pinned frames are neither in the free list
    nor in the replacer. *)
Theorem pinned_apart_preserved (o : op) (s : BPI) (r : retval) (s' : BPI) :
  Invariants s → pinned_apart s → step o s = Ok (r, s') → pinned_apart s'.
Proof. apply step_pinned_apart. Qed.

Lemma pinned_apart_preserved_witness :
  ∃ r s', step (FetchPage 0) ex_unpinned = Ok (r, s') ∧ pinned_apart s'.
Proof.
  eexists _, _. split; [by vm_compute|].
  eapply (pinned_apart_preserved (FetchPage 0) ex_unpinned); [| |by vm_compute].
  - apply Invariants_b_spec. by vm_compute.
  - intros f page Hpage Hpin. destruct f as [|f]; simpl in Hpage; [|done].
    injection Hpage as <-. done.
Defined.

(** ** Flushing *)

Section Flushing.
Implicit Types (s : BPI) (f g : frame_id_t) (p q : page_id_t) (page : Page).

(** [FlushPgImp] by cases. *)
Lemma FlushPgImp_inv p s b s' :
  FlushPgImp p s = Ok (b, s') →
  (page_table_ s !! p = None ∧ b = false ∧ s' = s)
  ∨ (∃ f page,
       page_table_ s !! p = Some f ∧ pages_ s !! f = Some page ∧ b = true
       ∧ ((is_dirty_ page = false ∧ s' = s)
          ∨ (is_dirty_ page = true
             ∧ s' = mkBPI (pool_size_ s) (num_instances_ s) (instance_index_ s)
                      (next_page_id_ s)
                      (<[f := set_is_dirty false page]> (pages_ s))
                      (replacer_ s) (free_list_ s) (page_table_ s)
                      (Disk.WritePage p (data_ page) (disk_manager_ s))))).
Proof.
  intros H. unfold FlushPgImp in H. destruct (page_table_ s !! p) as [f|] eqn:Hp.
  2: { injection H as <- <-. by left. }
  destruct (pages_ s !! f) as [page|] eqn:Hpage.
  2: { unfold page_at in H. by rewrite Hpage in H. }
  rewrite (proj2 (page_at_Ok s f page) Hpage) in H. bpi_simpl.
  right. exists f, page. destruct (is_dirty_ page) eqn:Hdirty; bpi_simpl;
    injection H as <- <-; (split_and!; [done..|]).
  - right. split; [done|]. unfold update_page, with_pages, with_disk_manager.
    bpi_proj. f_equal. by apply alter_as_insert.
  - by left.
Qed.

Lemma flush_entry_as_FlushPgImp (v : Z * frame_id_t) s s1 :
  page_table_ s !! v.1 = Some v.2 → flush_entry v s = Ok s1 →
  FlushPgImp v.1 s = Ok (true, s1).
Proof.
  intros Hv. unfold FlushPgImp, flush_entry. rewrite Hv.
  destruct (page_at s v.2) as [pg|]; bpi_simpl; [|done].
  destruct (is_dirty_ pg); bpi_simpl; by intros [= <-].
Qed.

Lemma FlushPgImp_clean p s b s' f :
  FlushPgImp p s = Ok (b, s') → page_table_ s !! p = Some f →
  ∃ page', pages_ s' !! f = Some page' ∧ is_dirty_ page' = false.
Proof.
  intros Hflush Hp.
  apply FlushPgImp_inv in Hflush
    as [(Hnone & _)|(f' & page & Hp' & Hpage & _ & [[Hclean ->]|[_ ->]])];
    [congruence|..]; rewrite Hp in Hp'; injection Hp' as <-.
  - by exists page.
  - eexists. bpi_simpl.
    split; [apply list_lookup_insert_eq; by eapply lookup_lt_Some|done].
Qed.

Lemma flushed_only_keeps_clean m l ps ps' g page :
  flushed_only m l ps ps' → ps !! g = Some page → is_dirty_ page = false →
  ∃ page', ps' !! g = Some page' ∧ is_dirty_ page' = false.
Proof.
  intros Hfl Hpage Hclean.
  destruct (Hfl g page Hpage) as (page' & Hpage' & _ & _ & _ & [Hsame|[? _]]);
    exists page'; split; congruence.
Qed.

Lemma flush_entries_clean l : ∀ s s',
  (∀ v, v ∈ l → page_table_ s !! v.1 = Some v.2) →
  flush_entries l s = Ok s' →
  ∀ v, v ∈ l → ∃ page', pages_ s' !! v.2 = Some page' ∧ is_dirty_ page' = false.
Proof.
  induction l as [|v l IH]; intros s s' Hin Hrun w Hw.
  { by apply elem_of_nil in Hw. }
  simpl in Hrun. destruct (flush_entry v s) as [s1|] eqn:Hentry; bpi_simpl; [|done].
  pose proof (flush_entry_as_FlushPgImp v s s1 (Hin v ltac:(left)) Hentry) as Hflush.
  pose proof (FlushPgImp_static _ _ _ _ Hflush) as (_ & _ & _ & _ & _ & _ & _ & Htab).
  assert (∀ u, u ∈ l → page_table_ s1 !! u.1 = Some u.2) as Hin1.
  { intros u Hu. rewrite Htab. apply Hin. by right. }
  destruct (decide (w ∈ l)) as [Hwl|Hnwl]; [by eapply (IH s1)|].
  apply elem_of_cons in Hw as [->|?]; [|done].
  destruct (FlushPgImp_clean _ _ _ _ _ Hflush (Hin v ltac:(left))) as (pg1 & Hpg1 & Hc1).
  destruct (flush_entries_flushed l s1 s' Hin1 Hrun) as (l' & _ & Hfl).
  by eapply flushed_only_keeps_clean.
Qed.

Lemma flushed_only_outside m l ps ps' g page :
  flushed_only m l ps ps' → ps !! g = Some page → (∀ q, m !! q ≠ Some g) →
  ps' !! g = Some page.
Proof.
  intros Hfl Hpage Hout.
  destruct (Hfl g page Hpage) as (page' & Hpage' & ? & ? & ? & [?|(_ & q & Hq & _)]).
  - rewrite Hpage'. f_equal. destruct page, page'. simpl in *. congruence.
  - by apply Hout in Hq.
Qed.

End Flushing.



(** X10.  When the frame ids of the page table are inside the frame array,
    [FlushAllPgsImp] returns, and afterwards every frame that the page
    table names is clean.  It changes no page id, no bytes and no pin count
    of any frame, leaves the frames that the page table does not name
    exactly as they were, and changes neither the page table, the free list
    nor the replacer. *)
Theorem FlushAllPgsImp_cleans (s : BPI) :
  (∀ q f, page_table_ s !! q = Some f → (f < length (pages_ s))%nat) →
  ∃ s', FlushAllPgsImp s = Ok s'
    ∧ (∀ q f, page_table_ s !! q = Some f →
         ∃ page', pages_ s' !! f = Some page' ∧ is_dirty_ page' = false)
    ∧ (∀ g page, pages_ s !! g = Some page →
         ∃ page', pages_ s' !! g = Some page' ∧ page_id_ page' = page_id_ page
                  ∧ data_ page' = data_ page ∧ pin_count_ page' = pin_count_ page)
    ∧ (∀ g page, pages_ s !! g = Some page → ¬ in_page_table s g →
         pages_ s' !! g = Some page)
    ∧ page_table_ s' = page_table_ s ∧ free_list_ s' = free_list_ s
    ∧ replacer_ s' = replacer_ s.
Proof.
  intros Hrange. unfold FlushAllPgsImp.
  destruct (flush_entries_total (map_to_list (page_table_ s)) s) as [s' Hrun].
  { intros [q f] Hin. apply elem_of_map_to_list in Hin. by eapply Hrange. }
  exists s'. split; [done|].
  pose proof (flush_entries_static _ _ _ Hrun) as (_ & _ & _ & _ & _ & Hfl & Hrp & Htab).
  destruct (flush_entries_flushed _ _ _ (table_entries s) Hrun) as (l & _ & Hflushed).
  split_and!; try done.
  - intros q f Hq.
    apply (flush_entries_clean _ _ _ (table_entries s) Hrun (q, f)).
    by apply elem_of_map_to_list.
  - intros g page Hpage.
    destruct (Hflushed g page Hpage) as (page' & ? & ? & ? & ? & _). by exists page'.
  - intros g page Hpage Hout. eapply flushed_only_outside; [done..|].
    intros q Hq. apply Hout. by exists q.
Qed.

Lemma FlushAllPgsImp_cleans_witness :
  ∃ s', FlushAllPgsImp ex_estranged = Ok s'
        ∧ ∃ page', pages_ s' !! 0%nat = Some page' ∧ is_dirty_ page' = false.
Proof.
  destruct (FlushAllPgsImp_cleans ex_estranged) as (s' & Hrun & Hclean & _).
  - assert (well_formed ex_estranged) as Hwf.
    { apply well_formed_b_spec. by vm_compute. }
    intros q f Hq. rewrite (wf_pages _ Hwf). by eapply wf_table_range.
  - exists s'. split; [done|]. by apply (Hclean 0).
Defined.

(** ** What is written to disk *)

Section Writes.
Implicit Types (s : BPI) (f g : frame_id_t) (p q : page_id_t) (page : Page).

Lemma writes_nil s : writes_dirty_only s [].
Proof. intros q buf Hin. by apply elem_of_nil in Hin. Qed.

Lemma writes_app s l1 l2 :
  writes_dirty_only s l1 → writes_dirty_only s l2 → writes_dirty_only s (l1 ++ l2).
Proof. intros H1 H2 q buf Hin. apply elem_of_app in Hin as [?|?]; auto. Qed.

Lemma FlushPgImp_writes q s b s' :
  FlushPgImp q s = Ok (b, s') →
  ∃ l, Disk.write_log (disk_manager_ s') = Disk.write_log (disk_manager_ s) ++ l
       ∧ writes_dirty_only s l ∧ (length l ≤ 1)%nat.
Proof.
  intros Hflush. apply FlushPgImp_inv in Hflush
    as [(_ & _ & ->)|(f & page & Hp & Hpage & _ & [[_ ->]|[Hdirty ->]])].
  1-2: exists []; rewrite app_nil_r; split_and!; [done|apply writes_nil|simpl; lia].
  exists [(q, data_ page)]. split_and!; [done| |simpl; lia].
  intros q' buf Hin. apply list_elem_of_singleton in Hin. injection Hin as -> ->.
  by exists f, page.
Qed.

(** Writes that are justified after some flushing were justified before
    it. *)
Lemma writes_dirty_only_back s s1 l0 l :
  flushed_only (page_table_ s) l0 (pages_ s) (pages_ s1) →
  length (pages_ s1) = length (pages_ s) → page_table_ s1 = page_table_ s →
  writes_dirty_only s1 l → writes_dirty_only s l.
Proof.
  intros Hfl Hlen Htab Hw q buf Hin.
  destruct (Hw q buf Hin) as (f & page1 & Hq & Hpage1 & Hdirty & Hdata).
  assert (f < length (pages_ s))%nat as Hlt by (rewrite <- Hlen; by eapply lookup_lt_Some).
  destruct (lookup_lt_is_Some_2 _ _ Hlt) as [page Hpage].
  destruct (Hfl f page Hpage) as (pg & Hpg & _ & ? & _ & Hcase).
  rewrite Hpage1 in Hpg. injection Hpg as <-.
  exists f, page. split_and!; [congruence|done| |congruence].
  destruct Hcase as [?|[? _]]; congruence.
Qed.

Lemma flush_entries_writes l : ∀ s s',
  (∀ v, v ∈ l → page_table_ s !! v.1 = Some v.2) →
  flush_entries l s = Ok s' →
  ∃ l', Disk.write_log (disk_manager_ s') = Disk.write_log (disk_manager_ s) ++ l'
        ∧ writes_dirty_only s l'.
Proof.
  induction l as [|v l IH]; intros s s' Hin; simpl.
  { intros [= <-]. exists []. rewrite app_nil_r. split; [done|apply writes_nil]. }
  destruct (flush_entry v s) as [s1|] eqn:Hentry; bpi_simpl; [|done].
  intros Hrest.
  pose proof (flush_entry_as_FlushPgImp v s s1 (Hin v ltac:(left)) Hentry) as Hflush.
  destruct (FlushPgImp_writes _ _ _ _ Hflush) as (l1 & Hlog1 & Hw1 & _).
  destruct (FlushPgImp_flushed _ _ _ _ Hflush) as (l0 & _ & Hfl).
  pose proof (FlushPgImp_static _ _ _ _ Hflush) as (_ & _ & _ & _ & Hlen & _ & _ & Htab).
  destruct (IH s1 s') as (l2 & Hlog2 & Hw2); [|done|].
  { intros w Hw. rewrite Htab. apply Hin. by right. }
  exists (l1 ++ l2). split; [by rewrite Hlog2, Hlog1, app_assoc|].
  apply writes_app; [done|]. by eapply writes_dirty_only_back.
Qed.

Lemma take_frame_writes s f s1 :
  take_frame s = Ok (f, s1) →
  ∃ l, Disk.write_log (disk_manager_ s1) = Disk.write_log (disk_manager_ s) ++ l
       ∧ writes_dirty_only s l ∧ (length l ≤ 1)%nat.
Proof.
  unfold take_frame. destruct (free_list_ s) as [|g0 rest].
  2: { intros [= <- <-]. exists []. rewrite app_nil_r.
       split_and!; [done|apply writes_nil|simpl; lia]. }
  destruct (LRU.Victim _) as [[v|] r]; [|done]. bpi_simpl.
  destruct (page_at _ v) as [pg|]; bpi_simpl; [|done].
  destruct (is_dirty_ pg).
  - destruct (FlushPgImp _ _) as [[b s2]|] eqn:Hflush; bpi_simpl; [|done].
    apply FlushPgImp_writes in Hflush as (l & Hlog & Hw & Hlen). bpi_simpl.
    destruct (page_at s2 v); bpi_simpl; [|done].
    intros [= <- <-]. by exists l.
  - bpi_simpl. destruct (page_at _ v); bpi_simpl; [|done].
    intros [= <- <-]. exists []. rewrite app_nil_r.
    split_and!; [done|apply writes_nil|simpl; lia].
Qed.

End Writes.

Ltac no_write :=
  split_and!; first [done | apply writes_nil | intros _; simpl; lia | by intros _].

(** X11.  The instance writes to disk nothing but dirty frames.  Whatever
    a call appends to the log of writes is a write of the bytes that a
    frame held before the call, of a frame that was dirty, under a page id
    that the page table mapped to that frame.  [UnpinPage], [DeletePage]
    and a [FetchPage] of a resident page write nothing, and every call but
    [FlushAllPages] issues at most one write. *)
Theorem only_dirty_frames_written (o : op) (s : BPI) (r : retval) (s' : BPI) :
  step o s = Ok (r, s') →
  ∃ l, Disk.write_log (disk_manager_ s') = Disk.write_log (disk_manager_ s) ++ l
    ∧ writes_dirty_only s l
    ∧ (o ≠ FlushAllPages → (length l ≤ 1)%nat)
    ∧ match o with
      | UnpinPage _ _ | DeletePage _ => l = []
      | FetchPage p => is_Some (page_table_ s !! p) → l = []
      | _ => True
      end.
Proof.
  intros Hstep.
  destruct o as [|p|p d|p| |p]; simpl in Hstep.
  - destruct (NewPgImp s) as [[r0 s0]|] eqn:Hop; bpi_simpl; [|done].
    injection Hstep as <- <-.
    apply NewPgImp_inv in Hop as [(_ & -> & _)|(f & s1 & pg & Htake & _ & _ & _ & ->)].
    { exists []. rewrite app_nil_r. no_write. }
    destruct (take_frame_writes _ _ _ Htake) as (l & Hlog & Hw & Hlen).
    exists l. split_and!; [done..|by intros _|done].
  - destruct (FetchPgImp p s) as [[r0 s0]|] eqn:Hop; bpi_simpl; [|done].
    injection Hstep as <- <-.
    apply FetchPgImp_inv in Hop
      as [(f & pg & Hp & Hpg & _ & ->)|[(_ & _ & -> & _)
         |(f & s1 & pg & Hmiss & Htake & _ & _ & ->)]].
    1-2: exists []; rewrite app_nil_r;
         no_write.
    destruct (take_frame_writes _ _ _ Htake) as (l & Hlog & Hw & Hlen).
    exists l. split_and!; [done..|by intros _|]. rewrite Hmiss. by intros [? ?].
  - destruct (UnpinPgImp p d s) as [[b s0]|] eqn:Hop; bpi_simpl; [|done].
    injection Hstep as <- <-.
    apply UnpinPgImp_inv in Hop
      as [(_ & _ & ->)|(f & pg & Hp & Hpg & _ & [[_ ->]|[Hnz ->]])];
      exists []; rewrite app_nil_r;
      no_write.
  - destruct (FlushPgImp p s) as [[b s0]|] eqn:Hop; bpi_simpl; [|done].
    injection Hstep as <- <-.
    destruct (FlushPgImp_writes _ _ _ _ Hop) as (l & Hlog & Hw & Hlen).
    exists l. split_and!; [done..|by intros _|done].
  - destruct (FlushAllPgsImp s) as [s0|] eqn:Hop; bpi_simpl; [|done].
    injection Hstep as <- <-.
    destruct (flush_entries_writes _ _ _ (table_entries s) Hop) as (l & Hlog & Hw).
    exists l. split_and!; [done..|by intros ?|done].
  - destruct (DeletePgImp p s) as [[b s0]|] eqn:Hop; bpi_simpl; [|done].
    injection Hstep as <- <-.
    apply DeletePgImp_inv in Hop
      as [(_ & _ & ->)|(f & pg & Hp & Hpg & [(_ & _ & ->)|(Hz & _ & ->)])];
      exists []; rewrite app_nil_r;
      no_write.
Qed.

Lemma only_dirty_frames_written_witness :
  ∃ r s' l, step NewPage ex_dirty = Ok (r, s')
    ∧ Disk.write_log (disk_manager_ s') = Disk.write_log (disk_manager_ ex_dirty) ++ l
    ∧ writes_dirty_only ex_dirty l.
Proof.
  eassert (step NewPage ex_dirty = Ok _) as H by (by vm_compute).
  destruct (only_dirty_frames_written _ _ _ _ H) as (l & H1 & H2 & _).
  by eexists _, _, l.
Defined.

(** ** Calls in sequence *)

Section Compose.
Implicit Types (s : BPI) (f g : frame_id_t) (p q : page_id_t) (page : Page).

(** [take_frame] writes to disk under resident page ids only. *)
Lemma take_frame_stored s f s1 p :
  take_frame s = Ok (f, s1) → page_table_ s !! p = None →
  Disk.stored (disk_manager_ s1) !! p = Disk.stored (disk_manager_ s) !! p.
Proof.
  intros Htake Hmiss. revert Htake. unfold take_frame.
  destruct (free_list_ s) as [|g0 rest].
  2: { by intros [= <- <-]. }
  destruct (LRU.Victim _) as [[v|] r]; [|done]. bpi_simpl.
  destruct (page_at _ v) as [pg|]; bpi_simpl; [|done].
  destruct (is_dirty_ pg).
  - destruct (FlushPgImp _ _) as [[b s2]|] eqn:Hflush; bpi_simpl; [|done].
    destruct (page_at s2 v); bpi_simpl; [|done]. intros [= <- <-]. bpi_simpl.
    apply FlushPgImp_inv in Hflush
      as [(_ & _ & ->)|(f' & page & Hp & _ & _ & [[_ ->]|[_ ->]])]; [done..|].
    bpi_simpl. simpl. apply lookup_insert_ne. intros Heq. rewrite Heq in Hp.
    congruence.
  - bpi_simpl. destruct (page_at _ v); bpi_simpl; [|done]. by intros [= <- <-].
Qed.

End Compose.

(** X12.  No page id is minted twice.  Over any sequence of calls on an
    instance with [num_instances_ > 0], the ids that the [NewPage]s return
    are pairwise distinct, and each lies from the allocator cursor before
    the sequence up to, not including, the cursor after it. *)
Theorem minted_ids_distinct (ops : list op) (s : BPI) (rs : list retval) (s' : BPI) :
  0 < num_instances_ s →
  run ops s = Ok (rs, s') →
  NoDup (minted rs)
  ∧ ∀ id, id ∈ minted rs → next_page_id_ s ≤ id < next_page_id_ s'.
Proof.
  intros Hn Hrun.
  destruct (minted_from (num_instances_ s) ops s rs s' eq_refl Hrun) as (Hm & Hc & _).
  rewrite Hm. split.
  - apply NoDup_fmap_2_strong; [|apply NoDup_seq].
    intros i j _ _ Heq. nia.
  - intros id Hid. apply list_elem_of_fmap in Hid as (k & -> & Hk).
    apply elem_of_seq in Hk. rewrite Hc. nia.
Qed.

Lemma minted_ids_distinct_witness :
  ∃ rs s', run [NewPage; FetchPage 9; NewPage] ex_fresh2 = Ok (rs, s')
           ∧ NoDup (minted rs).
Proof.
  eexists _, _. split; [by vm_compute|].
  eapply (minted_ids_distinct [NewPage; FetchPage 9; NewPage] ex_fresh2);
    [simpl; lia|by vm_compute].
Defined.

(** X13.  [UnpinPage] followed by [FetchPage] of the same page gives the
    pin back.  For a resident page whose frame is pinned and is no member
    of the replacer, the two calls succeed, [FetchPage] returns the same
    frame without any access to the disk, and the instance is as it was
    before the two calls, except that the frame is dirty if [is_dirty] was
    true. *)
Theorem Unpin_then_Fetch (s : BPI) (p : page_id_t) (d : bool) (f : frame_id_t)
    (page : Page) :
  page_table_ s !! p = Some f →
  pages_ s !! f = Some page →
  0 < pin_count_ page →
  f ∉ LRU.list_t_ (replacer_ s) →
  ∃ s1, UnpinPgImp p d s = Ok (true, s1)
    ∧ FetchPgImp p s1 =
        Ok (Some f,
            mkBPI (pool_size_ s) (num_instances_ s) (instance_index_ s)
              (next_page_id_ s)
              (<[f := mkPage (page_id_ page) (data_ page) (pin_count_ page)
                             (d || is_dirty_ page)]> (pages_ s))
              (replacer_ s) (free_list_ s) (page_table_ s) (disk_manager_ s)).
Proof.
  intros Hp Hpage Hpin Hnin.
  destruct (UnpinPgImp_dirty s p f page d Hp Hpage Hpin) as (s1 & Hunpin & _).
  exists s1. split; [done|].
  apply UnpinPgImp_inv in Hunpin
    as [(? & _)|(f' & page' & Hp' & Hpage' & _ & [[? _]|[_ ->]])]; [congruence| |].
  { rewrite Hp in Hp'. injection Hp' as <-. rewrite Hpage in Hpage'.
    injection Hpage' as <-. lia. }
  rewrite Hp in Hp'. injection Hp' as <-.
  rewrite Hpage in Hpage'. injection Hpage' as <-.
  assert (f < length (pages_ s))%nat as Hlt by (by eapply lookup_lt_Some).
  unfold FetchPgImp, page_at. bpi_simpl. rewrite Hp.
  rewrite list_lookup_insert_eq by done. bpi_simpl.
  do 2 f_equal. unfold with_replacer, update_page, with_pages. bpi_proj. f_equal.
  - erewrite alter_as_insert by (by apply list_lookup_insert_eq).
    rewrite list_insert_insert_eq. do 2 f_equal.
    unfold set_pin_count. simpl. f_equal. lia.
  - destruct (_ =? 0); [by apply Pin_Unpin_id|by apply Pin_absent].
Qed.

Lemma Unpin_then_Fetch_witness :
  ∃ s1, UnpinPgImp 0 true ex_pinned = Ok (true, s1)
        ∧ FetchPgImp 0 s1 =
            Ok (Some 0%nat,
                mkBPI 1 1 0 1 [mkPage 0 Disk.zero_page 1 true] (LRU.mkLRU [] 1) []
                      {[ 0 := 0%nat ]} Disk.empty).
Proof.
  destruct (Unpin_then_Fetch ex_pinned 0 true 0%nat (mkPage 0 Disk.zero_page 1 false))
    as (s1 & H1 & H2); [reflexivity|reflexivity|simpl; lia|apply not_elem_of_nil|].
  exists s1. split; [exact H1|exact H2].
Defined.

(** X14.  [DeletePage] followed by [FetchPage] of the same page finds the
    page resident still.  For a resident page other than [INVALID_PAGE_ID]
    whose frame nobody pins, [DeletePage] returns true, and the [FetchPage]
    that follows returns the frame that was reset, without reading the
    disk: the frame holds [INVALID_PAGE_ID] and zeroes, is pinned once, is
    mapped from the page id still, and is in the free list at the same
    time. *)
Theorem Delete_then_Fetch_hits (s : BPI) (p : page_id_t) (f : frame_id_t)
    (page : Page) :
  page_table_ s !! p = Some f →
  pages_ s !! f = Some page →
  pin_count_ page = 0 →
  p ≠ INVALID_PAGE_ID →
  ∃ s1 s2, DeletePgImp p s = Ok (true, s1)
    ∧ FetchPgImp p s1 = Ok (Some f, s2)
    ∧ pages_ s2 !! f = Some (mkPage INVALID_PAGE_ID Disk.zero_page 1 false)
    ∧ page_table_ s2 !! p = Some f
    ∧ f ∈ free_list_ s2
    ∧ disk_manager_ s2 = disk_manager_ s.
Proof.
  intros Hp Hpage Hpin Hne.
  assert (f < length (pages_ s))%nat as Hlt by (by eapply lookup_lt_Some).
  eexists _, _. split; [by eapply DeletePgImp_unpinned|].
  unfold FetchPgImp, page_at. bpi_simpl.
  rewrite lookup_delete_ne by done. rewrite Hp.
  rewrite list_lookup_insert_eq by done. bpi_simpl.
  split; [done|]. bpi_simpl. split_and!.
  - rewrite list_lookup_alter_eq, list_lookup_insert_eq by done. done.
  - by rewrite lookup_delete_ne.
  - apply elem_of_app. right. left.
  - done.
Qed.

Lemma Delete_then_Fetch_hits_witness :
  ∃ s1 s2, DeletePgImp 0 ex_unpinned = Ok (true, s1)
    ∧ FetchPgImp 0 s1 = Ok (Some 0%nat, s2)
    ∧ pages_ s2 !! 0%nat = Some (mkPage INVALID_PAGE_ID Disk.zero_page 1 false)
    ∧ 0%nat ∈ free_list_ s2.
Proof.
  destruct (Delete_then_Fetch_hits ex_unpinned 0 0%nat (mkPage 0 Disk.zero_page 0 false))
    as (s1 & s2 & H1 & H2 & H3 & _ & H4 & _); [reflexivity..|done|].
  by exists s1, s2.
Defined.

(** X15.  [FetchPage] of a page that is not resident and that the disk can
    read returns a frame holding the bytes the disk stores for the page
    (zeroes when the page was never written), whether or not the frame it
    takes had to be written back first; the frame holds the page id, is
    pinned once and is clean. *)
Theorem Fetch_delivers_stored (s : BPI) (p : page_id_t) (f : frame_id_t) (s' : BPI) :
  page_table_ s !! p = None →
  p ∉ Disk.unreadable (disk_manager_ s) →
  FetchPgImp p s = Ok (Some f, s') →
  pages_ s' !! f
    = Some (mkPage p (default Disk.zero_page (Disk.stored (disk_manager_ s) !! p))
                   1 false).
Proof.
  intros Hmiss Hread Hfetch.
  apply FetchPgImp_inv in Hfetch
    as [(? & ? & ? & _)|[(_ & ? & _)|(f' & s1 & pg & _ & Htake & Hpg & Hr & ->)]];
    [congruence..|].
  injection Hr as <-. bpi_simpl.
  rewrite list_lookup_insert_eq by (by eapply lookup_lt_Some).
  destruct (take_frame_lists _ _ _ Htake) as [Hun _].
  unfold Disk.ReadPage. rewrite Hun, bool_decide_false by done.
  simpl. by rewrite (take_frame_stored _ _ _ _ Htake Hmiss).
Qed.

Lemma Fetch_delivers_stored_witness :
  ∃ s', FetchPgImp 7 ex_dirty = Ok (Some 0%nat, s')
        ∧ pages_ s' !! 0%nat = Some (mkPage 7 Disk.zero_page 1 false).
Proof.
  eexists. split; [by vm_compute|].
  eapply (Fetch_delivers_stored ex_dirty 7 0%nat);
    [reflexivity|apply not_elem_of_nil|by vm_compute].
Defined.

(** ** Filling the pool *)

Section Filling.
Implicit Types (s : BPI) (f g : frame_id_t) (p q : page_id_t) (page : Page).

Lemma filling_step n idx k m s :
  filling n idx k (S m) s →
  ∃ s', NewPgImp s = Ok (Some (idx + Z.of_nat k * n, k), s')
        ∧ filling n idx (S k) m s'.
Proof.
  intros (Hinv & Hrepl & Hfree & Hn & Hpos & Hcur & Hkeys).
  pose proof Hinv as (_ & _ & Hwf). simpl in Hfree.
  assert (all_pinned s = false) as Hsome.
  { apply all_pinned_false. intros [H _]. congruence. }
  pose proof (take_frame_free s k (seq (S k) m) Hfree) as Htake.
  assert (page_table_ s !! next_page_id_ s = None) as Hfresh.
  { destruct (page_table_ s !! next_page_id_ s) as [f|] eqn:Hf; [|done].
    apply Hkeys in Hf. lia. }
  destruct (page_at_lt s k) as (page & Hpage & _).
  { rewrite (wf_pages _ Hwf). apply (wf_free_range _ Hwf). rewrite Hfree. left. }
  pose proof (NewPgImp_Some s k _ page Hsome Htake Hpage (ValidatePageId_wf s Hwf))
    as Hnew.
  rewrite Hcur in Hnew at 1. eexists. split; [exact Hnew|].
  split_and!; bpi_simpl; try done.
  - eapply (step_Invariants NewPage s); [exact Hinv|reflexivity|by intros _|].
    simpl. rewrite Hnew. done.
  - by rewrite Hrepl.
  - rewrite Hcur, Hn. lia.
  - intros q f Hq. rewrite map_insert_new_fresh in Hq by done.
    apply lookup_insert_Some in Hq as [[<- _]|[_ Hq]]; [lia|].
    apply Hkeys in Hq. lia.
Qed.

Lemma filling_run n idx m : ∀ k s,
  filling n idx k m s →
  ∃ s', run (replicate m NewPage) s
          = Ok ((λ i, RNew (Some (idx + Z.of_nat i * n, i))) <$> seq k m, s')
        ∧ filling n idx (k + m) 0 s'.
Proof.
  induction m as [|m IH]; intros k s Hfill.
  - exists s. split; [done|]. by rewrite Nat.add_0_r.
  - destruct (filling_step _ _ _ _ _ Hfill) as (s1 & Hnew & Hfill1).
    destruct (IH (S k) s1 Hfill1) as (s' & Hrun & Hfill').
    exists s'. split.
    + cbn [replicate run step]. rewrite Hnew. bpi_simpl. rewrite Hrun. done.
    + by replace (k + S m)%nat with (S k + m)%nat by lia.
Qed.

End Filling.

(** X16.  A new instance hands out its frames in order and then reports
    exhaustion.  On an instance built by the constructor for [pool_size]
    frames, [pool_size] calls of [NewPage] in a row all succeed, the k-th
    (from 0) returning page id [instance_index + k * num_instances] in
    frame k; after them, with every frame pinned, [NewPage] returns
    [nullptr], and so does [FetchPage] of any page that is not resident,
    both without changing the instance. *)
Theorem pool_fills_up (pool_size : nat) (n idx : Z) (disk : Disk.DiskManager)
    (s0 : BPI) :
  0 ≤ idx →
  create pool_size n idx disk = Ok s0 →
  ∃ s, run (replicate pool_size NewPage) s0
         = Ok ((λ k, RNew (Some (idx + Z.of_nat k * n, k))) <$> seq 0 pool_size, s)
       ∧ NewPgImp s = Ok (None, s)
       ∧ ∀ p, page_table_ s !! p = None → FetchPgImp p s = Ok (None, s).
Proof.
  intros Hidx Hcreate.
  assert (filling n idx 0 pool_size s0) as Hfill.
  { pose proof (create_Invariants _ _ _ _ _ Hidx Hcreate) as Hinv.
    unfold create in Hcreate.
    destruct (Z.ltb_spec 0 n) as [Hn|]; [|done]. simpl in Hcreate.
    destruct (Z.ltb_spec idx n) as [Hlt|]; [|done]. simpl in Hcreate.
    injection Hcreate as <-. split_and!; bpi_simpl; try done; lia. }
  destruct (filling_run _ _ _ _ _ Hfill) as (s & Hrun & _ & Hrepl & Hfree & _).
  exists s. split; [done|].
  assert (all_pinned s = true) as Hfull by (by apply all_pinned_true).
  split.
  - unfold NewPgImp. by rewrite Hfull.
  - intros p Hp. unfold FetchPgImp. by rewrite Hp, Hfull.
Qed.

Lemma pool_fills_up_witness :
  ∃ s, run [NewPage; NewPage] ex_fresh2
         = Ok ([RNew (Some (0, 0%nat)); RNew (Some (1, 1%nat))], s)
       ∧ NewPgImp s = Ok (None, s).
Proof.
  assert (0 ≤ 0) as H0 by lia.
  destruct (pool_fills_up 2 1 0 Disk.empty ex_fresh2 H0 eq_refl) as (s & H1 & H2 & _).
  by exists s.
Defined.

(** X17.  The last [UnpinPage] makes the frame evictable, as the most
    recent candidate.  In a state that satisfies the invariants, where
    pinned frames are no members of the replacer and the replacer has the
    capacity of the pool, [UnpinPage] of a resident page whose frame is
    pinned exactly once returns true, brings the pin count to 0 and appends
    the frame at the far end of the replacer's list; whereas with more than
    one pin left the replacer is not touched. *)
Theorem last_Unpin_makes_evictable (s : BPI) (p : page_id_t) (d : bool)
    (f : frame_id_t) (page : Page) :
  Invariants s →
  pinned_apart s →
  LRU.size (replacer_ s) = pool_size_ s →
  page_table_ s !! p = Some f →
  pages_ s !! f = Some page →
  0 < pin_count_ page →
  ∃ s' page', UnpinPgImp p d s = Ok (true, s')
    ∧ pages_ s' !! f = Some page' ∧ pin_count_ page' = pin_count_ page - 1
    ∧ (pin_count_ page = 1 →
         LRU.list_t_ (replacer_ s') = LRU.list_t_ (replacer_ s) ++ [f])
    ∧ (pin_count_ page ≠ 1 → replacer_ s' = replacer_ s).
Proof.
  intros (_ & _ & Hwf) Hapart Hsize Hp Hpage Hpin.
  destruct (UnpinPgImp_dirty s p f page d Hp Hpage Hpin) as (s' & Hunpin & Hpage').
  exists s'. eexists. split_and!; [done..| |].
  - intros Hone.
    apply UnpinPgImp_inv in Hunpin
      as [(? & _)|(f' & pg & Hp' & Hpg & _ & [[? _]|[_ ->]])]; [congruence| |].
    { rewrite Hp in Hp'. injection Hp' as <-. rewrite Hpage in Hpg.
      injection Hpg as <-. lia. }
    rewrite Hp in Hp'. injection Hp' as <-. rewrite Hpage in Hpg. injection Hpg as <-.
    bpi_simpl. rewrite Hone. simpl.
    rewrite Unpin_room; [done|apply Hwf| | |].
    + intros g Hg. rewrite Hsize.
      destruct (wf_repl_table _ Hwf g Hg) as [q Hq]. by eapply wf_table_range.
    + rewrite Hsize. by eapply wf_table_range.
    + apply (Hapart f page Hpage). lia.
  - intros Hmore.
    apply UnpinPgImp_inv in Hunpin
      as [(? & _)|(f' & pg & Hp' & Hpg & _ & [[? _]|[_ ->]])]; [congruence| |].
    { rewrite Hp in Hp'. injection Hp' as <-. rewrite Hpage in Hpg.
      injection Hpg as <-. lia. }
    rewrite Hp in Hp'. injection Hp' as <-. rewrite Hpage in Hpg. injection Hpg as <-.
    bpi_simpl. destruct (Z.eqb_spec (pin_count_ page - 1) 0); [lia|done].
Qed.

Lemma last_Unpin_makes_evictable_witness :
  ∃ s', UnpinPgImp 0 false ex_pinned = Ok (true, s')
        ∧ LRU.list_t_ (replacer_ s') = [0%nat].
Proof.
  destruct (last_Unpin_makes_evictable ex_pinned 0 false 0%nat
              (mkPage 0 Disk.zero_page 1 false))
    as (s' & page' & H1 & _ & _ & H2 & _).
  - apply Invariants_b_spec. by vm_compute.
  - intros f page Hpage Hpin. split; apply not_elem_of_nil.
  - reflexivity.
  - reflexivity.
  - reflexivity.
  - simpl. lia.
  - exists s'. split; [exact H1|]. by apply H2.
Defined.

(** ** Residency and eviction *)

(** X18.  A page becomes resident only on request.  If a page id is mapped
    after a call and was not mapped before it, the call was the
    [FetchPage] of that page id, or the [NewPage] that minted it, and the
    frame it is mapped to is the frame the call returned. *)
Theorem residency_by_request (o : op) (s : BPI) (r : retval) (s' : BPI)
    (q : page_id_t) (f : frame_id_t) :
  step o s = Ok (r, s') →
  page_table_ s !! q = None →
  page_table_ s' !! q = Some f →
  (o = FetchPage q ∧ r = RFetch (Some f))
  ∨ (o = NewPage ∧ r = RNew (Some (q, f))).
Proof.
  intros Hstep Hbefore Hafter.
  assert (∀ f0 s1 k, take_frame s = Ok (f0, s1) →
            map_insert_new k f0 (page_table_ s1) !! q = Some f → k = q ∧ f0 = f)
    as Htaken.
  { intros f0 s1 k Htake Hq. destruct (take_frame_but_table _ _ _ Htake) as [Hsub _].
    apply Hsub in Hbefore. unfold map_insert_new in Hq.
    destruct (page_table_ s1 !! k); [congruence|].
    apply lookup_insert_Some in Hq as [[? ?]|[_ ?]]; [done|congruence]. }
  destruct o as [|p|p d|p| |p]; simpl in Hstep.
  - destruct (NewPgImp s) as [[r0 s0]|] eqn:Hop; bpi_simpl; [|done].
    injection Hstep as <- <-.
    apply NewPgImp_inv in Hop as [(_ & -> & _)|(f0 & s1 & pg & Htake & _ & _ & -> & ->)];
      [congruence|].
    bpi_simpl. destruct (Htaken _ _ _ Htake Hafter) as [-> ->]. by right.
  - destruct (FetchPgImp p s) as [[r0 s0]|] eqn:Hop; bpi_simpl; [|done].
    injection Hstep as <- <-.
    apply FetchPgImp_inv in Hop
      as [(f0 & pg & Hp & Hpg & _ & ->)|[(_ & _ & -> & _)
         |(f0 & s1 & pg & Hmiss & Htake & _ & -> & ->)]]; [bpi_simpl; congruence..|].
    bpi_simpl. destruct (Htaken _ _ _ Htake Hafter) as [-> ->]. by left.
  - destruct (UnpinPgImp p d s) as [[b s0]|] eqn:Hop; bpi_simpl; [|done].
    injection Hstep as <- <-.
    apply UnpinPgImp_inv in Hop
      as [(_ & _ & ->)|(f0 & pg & Hp & Hpg & _ & [[_ ->]|[Hnz ->]])];
      bpi_simpl; congruence.
  - destruct (FlushPgImp p s) as [[b s0]|] eqn:Hop; bpi_simpl; [|done].
    injection Hstep as <- <-.
    apply FlushPgImp_static in Hop as (_ & _ & _ & _ & _ & _ & _ & Htab). congruence.
  - destruct (FlushAllPgsImp s) as [s0|] eqn:Hop; bpi_simpl; [|done].
    injection Hstep as <- <-.
    apply flush_entries_static in Hop as (_ & _ & _ & _ & _ & _ & _ & Htab). congruence.
  - destruct (DeletePgImp p s) as [[b s0]|] eqn:Hop; bpi_simpl; [|done].
    injection Hstep as <- <-.
    apply DeletePgImp_inv in Hop
      as [(_ & _ & ->)|(f0 & pg & Hp & Hpg & [(_ & _ & ->)|(Hz & _ & ->)])];
      [congruence..|].
    bpi_simpl. apply lookup_delete_Some in Hafter as [_ ?]. congruence.
Qed.

Lemma residency_by_request_witness :
  (FetchPage 7 = FetchPage 7 ∧ RFetch (Some 0%nat) = RFetch (Some 0%nat))
  ∨ (FetchPage 7 = NewPage ∧ RFetch (Some 0%nat) = RNew (Some (7, 0%nat))).
Proof.
  apply (residency_by_request (FetchPage 7) ex_twice (RFetch (Some 0%nat))
           ex_twice_fetched 7 0%nat); by vm_compute.
Defined.

(** X19.  With an empty free list the frame evicted is the least recent
    member of the replacer, and nothing else is disturbed.  In a state
    that satisfies the invariants, with the free list empty and [f] the
    first member of the replacer, holding page [q]: a [FetchPage] of any
    page [p] that is not resident, and a [NewPage] when the id at the
    cursor is not resident, both return [f]; afterwards [q] is no longer
    resident, the new page id is mapped to [f], every other entry of the
    page table is as before, the other members of the replacer keep their
    order, and every frame but [f] is exactly as it was. *)
Theorem eviction_is_LRU (s : BPI) (f : frame_id_t) (rest : list frame_id_t) :
  Invariants s →
  free_list_ s = [] →
  LRU.list_t_ (replacer_ s) = f :: rest →
  ∃ q page, page_table_ s !! q = Some f ∧ pages_ s !! f = Some page
    ∧ page_id_ page = q
    ∧ (∀ p, page_table_ s !! p = None →
         ∃ s', FetchPgImp p s = Ok (Some f, s')
           ∧ page_table_ s' = <[p := f]> (delete q (page_table_ s))
           ∧ LRU.list_t_ (replacer_ s') = rest ∧ free_list_ s' = []
           ∧ ∀ g, g ≠ f → pages_ s' !! g = pages_ s !! g)
    ∧ (page_table_ s !! next_page_id_ s = None →
         ∃ s', NewPgImp s = Ok (Some (next_page_id_ s, f), s')
           ∧ page_table_ s' = <[next_page_id_ s := f]> (delete q (page_table_ s))
           ∧ LRU.list_t_ (replacer_ s') = rest ∧ free_list_ s' = []
           ∧ ∀ g, g ≠ f → pages_ s' !! g = pages_ s !! g).
Proof.
  intros Hinv Hfree Hrepl. pose proof Hinv as (_ & Hagree & Hwf).
  destruct (wf_repl_table _ Hwf f) as [q Hq]; [rewrite Hrepl; left|].
  destruct (Hagree q f Hq) as (page & Hpage & Hid).
  exists q, page.
  assert (all_pinned s = false) as Hsome
    by (apply all_pinned_false; intros [_ H]; congruence).
  assert (f ∉ rest) as Hnotin
    by (pose proof (wf_repl_nodup _ Hwf) as Hnd; rewrite Hrepl in Hnd;
        by apply NoDup_cons in Hnd as [? _]).
  assert (f < length (pages_ s))%nat as Hlt by (by eapply lookup_lt_Some).
  assert (∃ s1 x, take_frame s = Ok (f, s1) ∧ pages_ s1 !! f = Some x
            ∧ page_table_ s1 = delete q (page_table_ s)
            ∧ replacer_ s1 = LRU.mkLRU rest (LRU.size (replacer_ s))
            ∧ free_list_ s1 = []
            ∧ ∀ g, g ≠ f → pages_ s1 !! g = pages_ s !! g)
    as (s1 & x & Htake & Hx & Htab & Hrp & Hfl & Hothers).
  { destruct (is_dirty_ page) eqn:Hdirty.
    - eexists _, _. split;
        [apply take_frame_dirty with (rest := rest); [done..|by rewrite Hid]|].
      bpi_simpl. split_and!;
        [by rewrite list_lookup_alter_eq, Hpage|by rewrite Hid|done|done|].
      intros g Hne. by rewrite list_lookup_alter_ne.
    - eexists _, _. split; [by apply take_frame_clean with (rest := rest)|].
      bpi_simpl. split_and!; [done|by rewrite Hid|done..]. }
  split_and!; [done..| |].
  - intros p Hmiss.
    eexists. split; [eapply FetchPgImp_miss; eauto|]. bpi_simpl.
    rewrite Htab, Hrp, Hfl. split_and!; [|simpl; by apply erase_first_absent|done|].
    + apply map_insert_new_fresh. by rewrite lookup_delete_ne by congruence.
    + intros g Hne. rewrite list_lookup_insert_ne by done. by apply Hothers.
  - intros Hfresh.
    eexists. split; [eapply NewPgImp_Some; eauto using ValidatePageId_wf|]. bpi_simpl.
    rewrite Htab, Hrp, Hfl. split_and!; [|simpl; by apply erase_first_absent|done|].
    + apply map_insert_new_fresh. by rewrite lookup_delete_ne by congruence.
    + intros g Hne. rewrite list_lookup_insert_ne by done. by apply Hothers.
Qed.

Lemma eviction_is_LRU_witness :
  after 1 Disk.empty [FetchPage 0; UnpinPage 0 false] = Some ex_refetched
  ∧ page_table_ ex_refetched !! next_page_id_ ex_refetched = Some 0%nat
  ∧ ∃ s', FetchPgImp 5 ex_refetched = Ok (Some 0%nat, s')
          ∧ page_table_ s' = <[5 := 0%nat]> (delete 0 (page_table_ ex_refetched)).
Proof.
  split_and!; [by vm_compute|reflexivity|].
  destruct (eviction_is_LRU ex_refetched 0%nat [])
    as (q & page & Hq & _ & _ & Hfetch & _).
  - apply Invariants_b_spec. by vm_compute.
  - reflexivity.
  - reflexivity.
  - destruct (Hfetch 5) as (s' & H1 & H2 & _); [reflexivity|].
    exists s'. split; [exact H1|].
    assert (q = 0) as ->; [|exact H2].
    change (({[0 := 0%nat]} : gmap Z nat) !! q = Some 0%nat) in Hq.
    by apply lookup_singleton_Some in Hq as [? _].
Defined.

(** X20.  A call that refuses changes nothing.  When [UnpinPage],
    [FlushPage] or [DeletePage] returns false, or [NewPage] or [FetchPage]
    returns [nullptr], the instance is exactly as it was before the call;
    and so it is when [UnpinPage] finds the pin count at 0 already, or
    [DeletePage] does not find the page. *)
Theorem refusal_changes_nothing (o : op) (s : BPI) (r : retval) (s' : BPI) :
  step o s = Ok (r, s') →
  (r = RBool false ∨ r = RNew None ∨ r = RFetch None → s' = s)
  ∧ (∀ p d f page, o = UnpinPage p d → page_table_ s !! p = Some f →
       pages_ s !! f = Some page → pin_count_ page = 0 → r = RBool true ∧ s' = s)
  ∧ (∀ p, o = DeletePage p → page_table_ s !! p = None → r = RBool true ∧ s' = s).
Proof.
  intros Hstep.
  destruct o as [|p|p d|p| |p]; simpl in Hstep.
  - destruct (NewPgImp s) as [[r0 s0]|] eqn:Hop; bpi_simpl; [|done].
    injection Hstep as <- <-. split_and!; [|done..].
    apply NewPgImp_inv in Hop as [(_ & -> & _)|(f & s1 & pg & _ & _ & _ & -> & _)];
      [done|]. by intros [?|[?|?]].
  - destruct (FetchPgImp p s) as [[r0 s0]|] eqn:Hop; bpi_simpl; [|done].
    injection Hstep as <- <-. split_and!; [|done..].
    apply FetchPgImp_inv in Hop
      as [(f & pg & _ & _ & -> & _)|[(_ & _ & -> & _)|(f & s1 & pg & _ & _ & _ & -> & _)]];
      [|done|]; by intros [?|[?|?]].
  - destruct (UnpinPgImp p d s) as [[b s0]|] eqn:Hop; bpi_simpl; [|done].
    injection Hstep as <- <-.
    apply UnpinPgImp_inv in Hop
      as [(Hnone & -> & ->)|(f & pg & Hp & Hpg & -> & [[Hz ->]|[Hnz ->]])];
      (split_and!; [try done; by intros [?|[?|?]]| |done]).
    + intros p' d' f' page' [= <- <-] Hp'. congruence.
    + done.
    + intros p' d' f' page' [= <- <-] Hp' Hpage' Hz'.
      rewrite Hp in Hp'. injection Hp' as <-. rewrite Hpg in Hpage'.
      injection Hpage' as <-. done.
  - destruct (FlushPgImp p s) as [[b s0]|] eqn:Hop; bpi_simpl; [|done].
    injection Hstep as <- <-. split_and!; [|done..].
    apply FlushPgImp_inv in Hop
      as [(_ & -> & ->)|(f & pg & _ & _ & -> & _)]; [done|]. by intros [?|[?|?]].
  - destruct (FlushAllPgsImp s) as [s0|] eqn:Hop; bpi_simpl; [|done].
    injection Hstep as <- <-. split_and!; [|done..]. by intros [?|[?|?]].
  - destruct (DeletePgImp p s) as [[b s0]|] eqn:Hop; bpi_simpl; [|done].
    injection Hstep as <- <-.
    apply DeletePgImp_inv in Hop
      as [(Hnone & -> & ->)|(f & pg & Hp & Hpg & [(_ & -> & ->)|(Hz & -> & ->)])];
      (split_and!; [try done; by intros [?|[?|?]]|done|]).
    + done.
    + intros p' [= <-] ?. congruence.
    + intros p' [= <-] ?. congruence.
Qed.

Lemma refusal_changes_nothing_witness :
  step (DeletePage 0) ex_pinned = Ok (RBool false, ex_pinned).
Proof.
  eassert (step (DeletePage 0) ex_pinned = Ok (RBool false, _)) as H by (by vm_compute).
  destruct (refusal_changes_nothing _ _ _ _ H) as (Hsame & _).
  rewrite <- (Hsame ltac:(by left)) at 2. exact H.
Defined.

(** ** FlushAllPages and FlushPage *)

Section FlushAllAsFlush.
Implicit Types (s : BPI) (f g : frame_id_t) (p q : page_id_t) (page : Page).

Lemma flush_entries_as_run l : ∀ s s',
  (∀ v, v ∈ l → page_table_ s !! v.1 = Some v.2) →
  flush_entries l s = Ok s' →
  run ((λ v, FlushPage v.1) <$> l) s = Ok (replicate (length l) (RBool true), s').
Proof.
  induction l as [|v l IH]; intros s s' Hin; cbn [flush_entries].
  { by intros [= <-]. }
  destruct (flush_entry v s) as [s1|] eqn:Hentry; bpi_simpl; [|done].
  intros Hrest.
  pose proof (flush_entry_as_FlushPgImp v s s1 (Hin v ltac:(left)) Hentry) as Hflush.
  pose proof (FlushPgImp_static _ _ _ _ Hflush) as (_ & _ & _ & _ & _ & _ & _ & Htab).
  rewrite fmap_cons. cbn [run step length replicate]. rewrite Hflush. bpi_simpl.
  rewrite (IH s1 s'); [done| |done].
  intros w Hw. rewrite Htab. apply Hin. by right.
Qed.

End FlushAllAsFlush.

(** X21.  [FlushAllPgsImp] does what [FlushPgImp] does, page by page: its
    result is the result of calling [FlushPage] for every page id of the
    page table, in the order in which the loop visits the entries, and
    each of these calls returns true. *)
Theorem FlushAll_is_Flush_of_each (s s' : BPI) :
  FlushAllPgsImp s = Ok s' →
  run ((λ v, FlushPage v.1) <$> map_to_list (page_table_ s)) s
    = Ok (replicate (length (map_to_list (page_table_ s))) (RBool true), s').
Proof. intros H. by apply flush_entries_as_run; [apply table_entries|]. Qed.

Lemma FlushAll_is_Flush_of_each_witness :
  ∃ s', FlushAllPgsImp ex_dirty = Ok s'
        ∧ run [FlushPage 0] ex_dirty = Ok ([RBool true], s').
Proof.
  eexists. split; [by vm_compute|].
  eassert (FlushAllPgsImp ex_dirty = Ok _) as H by (by vm_compute).
  apply FlushAll_is_Flush_of_each in H. exact H.
Defined.
